(** * The beta-VAE notebook

    A shallow embedding of the code cells of [2-beta-vae.ipynb]: the
    encoder, the sampler, the decoder, their composition, the loss, the
    data cell, the training cell and the two cells that plot latent
    traversals.

    Tensors hold real numbers, and the layers and the loss are evaluated in
    exact arithmetic.  The notebook's tensors are 32-bit floats; module
    [F32] evaluates the sampler and the loss in IEEE binary32 arithmetic, one
    coordinate at a time, and shows where rounding and overflow make the
    code depart from the exact formulas.  The PyTorch functions the
    notebook calls ([Conv2d], [ConvTranspose2d], [Linear], [relu],
    [sigmoid], [binary_cross_entropy], [rand_like], [DataLoader],
    [ToTensor], broadcasting) are written out from the library's documented
    behaviour; exceptions are values of [error]. *)

From Stdlib Require Import String.
From Stdlib Require Import Reals Lra Lia List Arith ZArith Bool Permutation.
From Stdlib Require Strings.Byte.
From Stdlib Require SpecFloat.
Import ListNotations.
Open Scope R_scope.

(** ** Exceptions *)

Inductive error : Type :=
| ShapeError          (* RuntimeError / ValueError on tensor sizes *)
| RangeError          (* an element outside the accepted range *)
| IndexError          (* a dimension that the tensor does not have *)
| ZeroDivisionError
| OSError             (* a file that cannot be read as an image *)
| ValueError          (* a loader that cannot be built on its dataset *)
| NameError           (* a name that no cell has bound *)
| DeviceError.        (* RuntimeError on tensors of two devices *)

Inductive result (A : Type) : Type :=
| Ok (a : A)
| Raise (e : error).
Arguments Ok {A} a.
Arguments Raise {A} e.

Definition bind {A B : Type} (r : result A) (k : A -> result B) : result B :=
  match r with
  | Ok a => k a
  | Raise e => Raise e
  end.

Notation "x <- c ;; k" := (bind c (fun x => k))
  (at level 61, c at next level, right associativity).
Notation "' pat <- c ;; k" := (bind c (fun x => match x with pat => k end))
  (at level 61, pat pattern, c at next level, right associativity).

(** ** Lists of reals *)

Fixpoint zip_with {A B C : Type} (f : A -> B -> C) (l1 : list A) (l2 : list B)
  : list C :=
  match l1, l2 with
  | a :: l1', b :: l2' => f a b :: zip_with f l1' l2'
  | _, _ => []
  end.

Definition Rsum (l : list R) : R := fold_right Rplus 0 l.

(** [big n f] is [f 0 + f 1 + ... + f (n-1)]. *)
Fixpoint big (n : nat) (f : nat -> R) : R :=
  match n with
  | O => 0
  | S n' => big n' f + f n'
  end.

Definition Rleb (a b : R) : bool := if Rle_dec a b then true else false.

(** ** Tensors: a shape and the elements in row-major order *)

Module Tensor.

Record t : Type := mk { shape : list nat; data : list R }.

Definition numel (s : list nat) : nat := fold_right Nat.mul 1%nat s.

Definition wf (x : t) : Prop := length (data x) = numel (shape x).

Definition get (x : t) (i : nat) : R := nth i (data x) 0.

(** A tensor and a Python scalar, or a unary function: element by element. *)
Definition map (f : R -> R) (x : t) : t := mk (shape x) (List.map f (data x)).

(** Broadcasting.  Two shapes are aligned at their last dimensions; two
    aligned sizes must be equal, or one of them 1, and the result takes
    the other one; the shorter shape counts as filled up with ones.  The
    recursive functions read the shapes last dimension first. *)
Definition broadcast_dim (a b : nat) : option nat :=
  if (a =? b)%nat then Some a
  else if (a =? 1)%nat then Some b
  else if (b =? 1)%nat then Some a
  else None.

Fixpoint broadcast_rev (r1 r2 : list nat) : option (list nat) :=
  match r1, r2 with
  | [], r => Some r
  | r, [] => Some r
  | a :: r1', b :: r2' =>
      match broadcast_dim a b, broadcast_rev r1' r2' with
      | Some d, Some r => Some (d :: r)
      | _, _ => None
      end
  end.

Definition broadcast_shapes (s1 s2 : list nat) : option (list nat) :=
  option_map (@rev nat) (broadcast_rev (rev s1) (rev s2)).

(** The flat index, in a tensor of shape [s_r], of the element that
    position [i] of the broadcast shape [out_r] reads (both shapes last
    dimension first): along a dimension of size 1 it is index 0, along the
    others the index of [i]. *)
Fixpoint bindex_rev (out_r s_r : list nat) (i stride : nat) : nat :=
  match out_r, s_r with
  | d :: out', e :: s' =>
      ((if (e =? 1)%nat then 0 else Nat.modulo i d) * stride
       + bindex_rev out' s' (Nat.div i d) (stride * e))%nat
  | _, _ => 0%nat
  end.

Definition bindex (out s : list nat) (i : nat) : nat :=
  bindex_rev (rev out) (rev s) i 1.

(** Element [i] of [x] expanded to the shape [out]. *)
Definition expand (out : list nat) (x : t) (i : nat) : R :=
  get x (bindex out (shape x) i).

(** [s] can be expanded to [o] (both last dimension first). *)
Inductive expands_to : list nat -> list nat -> Prop :=
| expands_nil (o : list nat) : expands_to [] o
| expands_same (d : nat) (s o : list nat) :
    expands_to s o -> expands_to (d :: s) (d :: o)
| expands_one (d : nat) (s o : list nat) :
    expands_to s o -> expands_to (1%nat :: s) (d :: o).

(** A binary operation on two tensors.  Operands of one shape are combined
    element by element; operands of other shapes are broadcast to their
    common shape first, and the operation raises when they have none. *)
Definition map2 (f : R -> R -> R) (a b : t) : result t :=
  if list_eq_dec Nat.eq_dec (shape a) (shape b)
  then Ok (mk (shape a) (zip_with f (data a) (data b)))
  else
    match broadcast_shapes (shape a) (shape b) with
    | Some out =>
        Ok (mk out (List.map (fun i => f (expand out a i) (expand out b i))
                      (seq 0 (numel out))))
    | None => Raise ShapeError
    end.

Definition add := map2 Rplus.
Definition sub := map2 Rminus.
Definition mul := map2 Rmult.

(** [torch.sum(x)] *)
Definition sum (x : t) : R := Rsum (data x).

(** [torch.exp(x)], [x.exp()] *)
Definition exp (x : t) : t := map Rtrigo_def.exp x.

(** [x.pow(n)] *)
Definition pow (x : t) (n : nat) : t := map (fun v => v ^ n) x.

(** [F.relu(x)] *)
Definition relu (x : t) : t := map (Rmax 0) x.

(** [torch.sigmoid(x)] *)
Definition sigmoid (x : t) : t := map (fun v => 1 / (1 + Rtrigo_def.exp (- v))) x.

(** The tensor of shape [rows; cols] whose element [(r, c)] is [f r c]. *)
Definition init2 (rows cols : nat) (f : nat -> nat -> R) : list R :=
  flat_map (fun r => List.map (f r) (seq 0 cols)) (seq 0 rows).

(** The elements of the tensor of shape [n; c; h; w] whose element
    [(i, j, k, l)] is [f i j k l]. *)
Definition init4 (n c h w : nat) (f : nat -> nat -> nat -> nat -> R) : list R :=
  flat_map (fun i =>
    flat_map (fun j =>
      flat_map (fun k => List.map (f i j k) (seq 0 w)) (seq 0 h))
      (seq 0 c))
    (seq 0 n).

(** Element [(i, j, k, l)] of a tensor of shape [_; c; h; w]. *)
Definition get4 (x : t) (c h w : nat) (i j k l : nat) : R :=
  get x (((i * c + j) * h + k) * w + l).

(** [x.flatten(start_dim=1)]: dimension 1 must exist. *)
Definition flatten_from_1 (x : t) : result t :=
  match shape x with
  | n :: (_ :: _) as rest => Ok (mk [n; numel rest] (data x))
  | _ => Raise IndexError
  end.

(** [x.reshape(-1, d1, ..., dk)]: the leading size is inferred. *)
Definition reshape_infer (dims : list nat) (x : t) : result t :=
  let p := numel dims in
  if (p =? 0)%nat then Raise ShapeError
  else if (Nat.modulo (numel (shape x)) p =? 0)%nat
       then Ok (mk (Nat.div (numel (shape x)) p :: dims) (data x))
       else Raise ShapeError.

End Tensor.

Definition tensor : Type := Tensor.t.

(** [torch.stack(xs)], as the loader's collate function calls it: the
    tensors must be of one shape, and there must be one at least. *)
Definition stack (xs : list tensor) : result tensor :=
  match xs with
  | [] => Raise ShapeError
  | x0 :: _ =>
      if forallb (fun x =>
           if list_eq_dec Nat.eq_dec (Tensor.shape x) (Tensor.shape x0)
           then true else false) xs
      then Ok (Tensor.mk (length xs :: Tensor.shape x0)
                 (concat (List.map Tensor.data xs)))
      else Raise ShapeError
  end.

(** [torch.tensor([v0, v1, ...])]: a one-dimensional tensor. *)
Definition vec (l : list R) : tensor := Tensor.mk [length l] l.

(** ** Layers of [torch.nn], with the defaults the notebook leaves in
    place: no padding, dilation 1, one group, a bias. *)

Module Conv2d.

Record t : Type := mk {
  in_channels : nat;
  out_channels : nat;
  kernel_size : nat;
  stride : nat;
  weight : tensor;   (* [out_channels; in_channels; kernel_size; kernel_size] *)
  bias : tensor      (* [out_channels] *)
}.

Definition out_size (l : t) (i : nat) : nat :=
  ((i - kernel_size l) / stride l + 1)%nat.

Definition out_elem (l : t) (x : tensor) (c h w : nat) (n co oh ow : nat) : R :=
  Tensor.get (bias l) co +
  big c (fun ci => big (kernel_size l) (fun kh => big (kernel_size l) (fun kw =>
    Tensor.get4 (weight l) c (kernel_size l) (kernel_size l) co ci kh kw *
    Tensor.get4 x c h w n ci (oh * stride l + kh) (ow * stride l + kw)))).

Definition forward_batched (l : t) (x : tensor) (n c h w : nat) : result tensor :=
  if ((c =? in_channels l) && (0 <? stride l) && (0 <? kernel_size l) &&
      (kernel_size l <=? h) && (kernel_size l <=? w))%nat
  then Ok (Tensor.mk [n; out_channels l; out_size l h; out_size l w]
             (Tensor.init4 n (out_channels l) (out_size l h) (out_size l w)
                (out_elem l x c h w)))
  else Raise ShapeError.

(** [conv(x)] for a batch [n; c; h; w] or one image [c; h; w]. *)
Definition forward (l : t) (x : tensor) : result tensor :=
  match Tensor.shape x with
  | [n; c; h; w] => forward_batched l x n c h w
  | [c; h; w] =>
      y <- forward_batched l x 1 c h w ;;
      Ok (Tensor.mk (tl (Tensor.shape y)) (Tensor.data y))
  | _ => Raise ShapeError
  end.

End Conv2d.

Module ConvTranspose2d.

Record t : Type := mk {
  in_channels : nat;
  out_channels : nat;
  kernel_size : nat;
  stride : nat;
  output_padding : nat;
  weight : tensor;   (* [in_channels; out_channels; kernel_size; kernel_size] *)
  bias : tensor      (* [out_channels] *)
}.

Definition out_size (l : t) (i : nat) : nat :=
  ((i - 1) * stride l + (kernel_size l - 1) + output_padding l + 1)%nat.

(** Input position [ip] and kernel offset [k] reach output position [op]. *)
Definition reaches (l : t) (ip k op : nat) : bool :=
  (ip * stride l + k =? op)%nat.

Definition out_elem (l : t) (x : tensor) (c h w : nat) (n co oh ow : nat) : R :=
  Tensor.get (bias l) co +
  big c (fun ci => big h (fun ih => big w (fun iw =>
    big (kernel_size l) (fun kh => big (kernel_size l) (fun kw =>
      if reaches l ih kh oh && reaches l iw kw ow
      then Tensor.get4 x c h w n ci ih iw *
           Tensor.get4 (weight l) (out_channels l) (kernel_size l) (kernel_size l)
             ci co kh kw
      else 0))))).

Definition forward_batched (l : t) (x : tensor) (n c h w : nat) : result tensor :=
  if ((c =? in_channels l) && (0 <? stride l) && (0 <? kernel_size l) &&
      (output_padding l <? stride l) && (0 <? h) && (0 <? w))%nat
  then Ok (Tensor.mk [n; out_channels l; out_size l h; out_size l w]
             (Tensor.init4 n (out_channels l) (out_size l h) (out_size l w)
                (out_elem l x c h w)))
  else Raise ShapeError.

Definition forward (l : t) (x : tensor) : result tensor :=
  match Tensor.shape x with
  | [n; c; h; w] => forward_batched l x n c h w
  | [c; h; w] =>
      y <- forward_batched l x 1 c h w ;;
      Ok (Tensor.mk (tl (Tensor.shape y)) (Tensor.data y))
  | _ => Raise ShapeError
  end.

End ConvTranspose2d.

Module Linear.

Record t : Type := mk {
  in_features : nat;
  out_features : nat;
  weight : tensor;   (* [out_features; in_features] *)
  bias : tensor      (* [out_features] *)
}.

Definition out_elem (l : t) (x : tensor) (r o : nat) : R :=
  Tensor.get (bias l) o +
  big (in_features l) (fun i =>
    Tensor.get (weight l) (o * in_features l + i) *
    Tensor.get x (r * in_features l + i)).

(** [fc(x)]: the last dimension of [x] must be [in_features]; the leading
    dimensions are kept. *)
Definition forward (l : t) (x : tensor) : result tensor :=
  match Tensor.shape x with
  | [] => Raise ShapeError
  | _ :: _ =>
      if (last (Tensor.shape x) 0 =? in_features l)%nat
      then
        let lead := removelast (Tensor.shape x) in
        Ok (Tensor.mk (lead ++ [out_features l])
              (Tensor.init2 (Tensor.numel lead) (out_features l) (out_elem l x)))
      else Raise ShapeError
  end.

End Linear.

(** The parameters of a module, by their names in its [state_dict]. *)
Definition state_dict : Type := string -> tensor.

(** ** Encoder *)

Module Encoder.

Record t : Type := mk {
  conv1 : Conv2d.t;
  conv2 : Conv2d.t;
  conv3 : Conv2d.t;
  fc_mu : Linear.t;
  fc_logvar : Linear.t
}.

(** [Encoder(latent_size)]; [theta] gives the initial values of the
    parameters, which PyTorch draws at random. *)
Definition init (latent_size : nat) (theta : state_dict) : t :=
  {| conv1 := Conv2d.mk 3 16 3 2 (theta "conv1.weight"%string) (theta "conv1.bias"%string);
     conv2 := Conv2d.mk 16 32 3 2 (theta "conv2.weight"%string) (theta "conv2.bias"%string);
     conv3 := Conv2d.mk 32 64 3 2 (theta "conv3.weight"%string) (theta "conv3.bias"%string);
     fc_mu := Linear.mk (7 * 7 * 64) latent_size
                (theta "fc_mu.weight"%string) (theta "fc_mu.bias"%string);
     fc_logvar := Linear.mk (7 * 7 * 64) latent_size
                (theta "fc_logvar.weight"%string) (theta "fc_logvar.bias"%string) |}.

(** The first three lines of [forward]: the convolutions. *)
Definition convolutions (e : t) (x : tensor) : result tensor :=
  x <- Conv2d.forward (conv1 e) x ;;
  let x := Tensor.relu x in
  x <- Conv2d.forward (conv2 e) x ;;
  let x := Tensor.relu x in
  x <- Conv2d.forward (conv3 e) x ;;
  Ok (Tensor.relu x).

Definition forward (e : t) (x : tensor) : result (tensor * tensor) :=
  x <- convolutions e x ;;
  x <- Tensor.flatten_from_1 x ;;
  mu <- Linear.forward (fc_mu e) x ;;
  logvar <- Linear.forward (fc_logvar e) x ;;
  Ok (mu, logvar).

End Encoder.

(** ** The noise source

    [torch.rand_like] reads the global generator; here the generator is the
    infinite supply of the numbers it will hand out, passed in and returned. *)

Definition noise : Type := nat -> R.

(** Code that reads the source and may raise. *)
Definition M (A : Type) : Type := noise -> result (A * noise).

Definition ret {A : Type} (a : A) : M A := fun s => Ok (a, s).

Definition bindM {A B : Type} (m : M A) (k : A -> M B) : M B := fun s =>
  match m s with
  | Ok (a, s') => k a s'
  | Raise e => Raise e
  end.

Definition raise {A : Type} (e : error) : M A := fun _ => Raise e.

Definition lift {A : Type} (r : result A) : M A := fun s =>
  match r with
  | Ok a => Ok (a, s)
  | Raise e => Raise e
  end.

Notation "x <~ c ;; k" := (bindM c (fun x => k))
  (at level 61, c at next level, right associativity).
Notation "' pat <~ c ;; k" := (bindM c (fun x => match x with pat => k end))
  (at level 61, pat pattern, c at next level, right associativity).

(** [torch.rand_like(x)]: a tensor of the shape of [x], filled from the source. *)
Definition rand_like (x : tensor) : M tensor := fun s =>
  let n := Tensor.numel (Tensor.shape x) in
  Ok (Tensor.mk (Tensor.shape x) (List.map s (seq 0 n)), fun i => s (i + n)%nat).

(** What [torch.rand_like] promises of its values: uniform on [0, 1). *)
Definition uniform_source (s : noise) : Prop := forall i, 0 <= s i < 1.

(** The source that hands out the elements of [l], then those of [rest]. *)
Definition source_of (l : list R) (rest : noise) : noise :=
  fun i => if (i <? length l)%nat then nth i l 0 else rest (i - length l)%nat.

(** ** Sampler *)

(** The elements of [std] in [sample]. *)
Definition std_data (logvar : tensor) : list R :=
  List.map exp (List.map (fun v => v / 2) (Tensor.data logvar)).

(** [def sample(mu, logvar)] *)
Definition sample (mu logvar : tensor) : M tensor :=
  let std := Tensor.exp (Tensor.map (fun v => v / 2) logvar) in
  eps <~ rand_like std ;;
  r <~ lift (Tensor.mul std eps) ;;
  lift (Tensor.add mu r).

(** ** Decoder *)

Module Decoder.

Record t : Type := mk {
  fc : Linear.t;
  deconv1 : ConvTranspose2d.t;
  deconv2 : ConvTranspose2d.t;
  deconv_recon : ConvTranspose2d.t
}.

Definition init (latent_size : nat) (theta : state_dict) : t :=
  {| fc := Linear.mk latent_size (7 * 7 * 64)
             (theta "fc.weight"%string) (theta "fc.bias"%string);
     deconv1 := ConvTranspose2d.mk 64 32 3 2 0
             (theta "deconv1.weight"%string) (theta "deconv1.bias"%string);
     deconv2 := ConvTranspose2d.mk 32 16 3 2 0
             (theta "deconv2.weight"%string) (theta "deconv2.bias"%string);
     deconv_recon := ConvTranspose2d.mk 16 3 3 2 1
             (theta "deconv_recon.weight"%string) (theta "deconv_recon.bias"%string) |}.

(** [forward] up to the last transposed convolution, before the sigmoid. *)
Definition deconvolutions (d : t) (z : tensor) : result tensor :=
  z <- Linear.forward (fc d) z ;;
  let z := Tensor.relu z in
  z <- Tensor.reshape_infer [64; 7; 7]%nat z ;;
  z <- ConvTranspose2d.forward (deconv1 d) z ;;
  let z := Tensor.relu z in
  z <- ConvTranspose2d.forward (deconv2 d) z ;;
  let z := Tensor.relu z in
  ConvTranspose2d.forward (deconv_recon d) z.

Definition forward (d : t) (z : tensor) : result tensor :=
  y <- deconvolutions d z ;;
  Ok (Tensor.sigmoid y).

End Decoder.

(** ** VAE *)

Module VAE.

Record t : Type := mk {
  encoder : Encoder.t;
  decoder : Decoder.t
}.

(** The parameters of a submodule are named [<submodule>.<name>]. *)
Definition init (latent_size : nat) (theta : state_dict) : t :=
  {| encoder := Encoder.init latent_size (fun k => theta ("encoder." ++ k)%string);
     decoder := Decoder.init latent_size (fun k => theta ("decoder." ++ k)%string) |}.

Definition forward (v : t) (x : tensor) : M (tensor * tensor * tensor) :=
  ' (mu, logvar) <~ lift (Encoder.forward (encoder v) x) ;;
  z <~ sample mu logvar ;;
  x_recon <~ lift (Decoder.forward (decoder v) z) ;;
  ret (x_recon, mu, logvar).

End VAE.

(** ** Loss *)

(** PyTorch's [binary_cross_entropy] clamps each logarithm at [-100];
    [log 0] is minus infinity and clamps to [-100] as well. *)
Definition clamp_log (p : R) : R :=
  if Rlt_dec 0 p then Rmax (ln p) (-100) else -100.

Definition bce_elem (p y : R) : R :=
  - (y * clamp_log p + (1 - y) * clamp_log (1 - p)).

Definition in_unit (v : R) : bool := Rleb 0 v && Rleb v 1.

(** [F.binary_cross_entropy(input, target, reduction='sum')]: the target
    must have the size of the input, and every element of the input and of
    the target must lie between 0 and 1. *)
Definition binary_cross_entropy_sum (input target : tensor) : result R :=
  if list_eq_dec Nat.eq_dec (Tensor.shape target) (Tensor.shape input) then
    if forallb in_unit (Tensor.data input) && forallb in_unit (Tensor.data target)
    then Ok (Rsum (zip_with bce_elem (Tensor.data input) (Tensor.data target)))
    else Raise RangeError
  else Raise ShapeError.

(** The second line of [vae_loss]:
    [kld = -1/2 * torch.sum(1 + logvar - mu.pow(2) - logvar.exp())] *)
Definition kld (mu logvar : tensor) : result R :=
  a <- Tensor.sub (Tensor.map (Rplus 1) logvar) (Tensor.pow mu 2) ;;
  b <- Tensor.sub a (Tensor.exp logvar) ;;
  Ok (-1 / 2 * Tensor.sum b).

(** One latent coordinate's term under the sum of [kld]. *)
Definition kl_term (m l : R) : R := 1 + l - m ^ 2 - exp l.

Definition unit_interval (v : R) : Prop := 0 <= v <= 1.

(** [def vae_loss(x_recon, x, mu, logvar, beta=3)]; [beta = None] stands for
    a call that leaves the keyword out. *)
Definition vae_loss (x_recon x mu logvar : tensor) (beta : option R) : result R :=
  let beta := match beta with Some b => b | None => 3 end in
  bce <- binary_cross_entropy_sum x_recon x ;;
  k <- kld mu logvar ;;
  Ok (bce + beta * k).

(** The binary cross-entropy of one element in the words of the
    specification, with the logarithm as it is. *)
Definition spec_bce_elem (p y : R) : R := - (y * ln p + (1 - y) * ln (1 - p)).

(** The loss in the words of the specification. *)
Definition spec_vae_loss (x_recon x mu logvar : tensor) (beta : R) : R :=
  Rsum (zip_with spec_bce_elem (Tensor.data x_recon) (Tensor.data x))
  + beta * (-1 / 2 * Rsum (zip_with kl_term (Tensor.data mu) (Tensor.data logvar))).

(** ** Data *)

(** A decoded RGB image as PIL holds it: [pil_height] rows of [pil_width]
    pixels, three bytes a pixel. *)
Record pil_image : Type := {
  pil_height : nat;
  pil_width : nat;
  pil_pixels : list Byte.byte
}.

(** A byte of an image as [ToTensor] scales it. *)
Definition byte_value (b : Byte.byte) : R := INR (Byte.to_nat b) / 255.

(** [transforms.ToTensor()]: the channels come first, and every byte is
    divided by 255. *)
Definition to_tensor (p : pil_image) : tensor :=
  Tensor.mk [3; pil_height p; pil_width p]%nat
    (Tensor.init4 1 3 (pil_height p) (pil_width p) (fun _ c i j =>
       byte_value (nth ((i * pil_width p + j) * 3 + c) (pil_pixels p) Byte.x00))).

(** [torch.device] *)
Inductive torch_device : Type := cpu | cuda.

(** What the notebook takes from outside: the image files, the image
    transforms of torchvision, the shuffling of the loader, the optimizer
    with its gradients, and the machine. *)
Record Externals : Type := {
  image : Type;
  (** [datasets.folder.default_loader(path)] *)
  default_loader : string -> result image;
  (** [CenterCrop(178)], [Resize(64)] and [RandomHorizontalFlip()], which
      reads the generator *)
  crop_resize_flip : image -> noise -> pil_image * noise;
  (** [torch.randperm(n).tolist()], the order of a shuffling loader *)
  randperm : nat -> noise -> list nat * noise;
  optimizer : Type;
  (** [optim.Adam(vae.parameters())] *)
  Adam : state_dict -> optimizer;
  (** [loss.backward(); optimizer.step()] for the forward pass of the batch
      on the given source: the new optimizer state and parameters *)
  backward_step : optimizer -> state_dict -> tensor -> noise ->
                  optimizer * state_dict;
  (** [torch.cuda.is_available()] *)
  cuda_is_available : bool
}.

(** [self.transform], the composed transform of [Dataset]: [ToTensor]
    comes last. *)
Definition transform (ext : Externals) (x : image ext) (s : noise)
  : tensor * noise :=
  let (p, s') := crop_resize_flip ext x s in (to_tensor p, s').

(** [device = torch.device('cuda' if torch.cuda.is_available() else 'cpu')] *)
Definition device (ext : Externals) : torch_device :=
  if cuda_is_available ext then cuda else cpu.

(** A module takes a tensor that is on the device of its parameters. *)
Definition same_device (of_module of_input : torch_device) : result unit :=
  match of_module, of_input with
  | cpu, cpu | cuda, cuda => Ok tt
  | _, _ => Raise DeviceError
  end.

Definition batch_size : nat := 4.
Definition test_size : Z := 100.

(** A bound of a Python slice over a sequence of length [len]: a negative
    bound counts from the end, and both kinds are clipped to the sequence. *)
Definition slice_bound (len : nat) (i : Z) : nat :=
  if (i <? 0)%Z then Z.to_nat (Z.max 0 (Z.of_nat len + i))
  else Nat.min (Z.to_nat i) len.

(** [l[:stop]] *)
Definition slice_to {A : Type} (l : list A) (stop : Z) : list A :=
  firstn (slice_bound (length l) stop) l.

(** [l[start:]] *)
Definition slice_from {A : Type} (l : list A) (start : Z) : list A :=
  skipn (slice_bound (length l) start) l.

(** [class Dataset]: the transform is the same in every instance, the
    paths are the state.  A method returns the object next to its value. *)
Record Dataset : Type := { paths : list string }.

Definition Dataset_init (ps : list string) : Dataset := {| paths := ps |}.

Definition Dataset_len (self : Dataset) : nat * Dataset :=
  (length (paths self), self).

Definition Dataset_getitem (ext : Externals) (self : Dataset) (index : nat)
  : M (tensor * Dataset) :=
  match nth_error (paths self) index with
  | None => raise IndexError
  | Some p =>
      x <~ lift (default_loader ext p) ;;
      x <~ (fun s => Ok (transform ext x s)) ;;
      ret (x, self)
  end.

(** [torch.utils.data.DataLoader(dataset, batch_size=..., shuffle=...)] *)
Record DataLoader : Type := {
  dataset : Dataset;
  loader_batch_size : nat;
  shuffle : bool
}.

(** The constructor.  A shuffling loader draws from a [RandomSampler],
    which cannot be built on an empty dataset; the batch size must be
    positive. *)
Definition DataLoader_init (ds : Dataset) (bs : nat) (sh : bool)
  : result DataLoader :=
  if sh && (fst (Dataset_len ds) =? 0)%nat then Raise ValueError
  else if (bs =? 0)%nat then Raise ValueError
  else Ok {| dataset := ds; loader_batch_size := bs; shuffle := sh |}.

(** [len(loader)]: the last batch may be short. *)
Definition DataLoader_len (ld : DataLoader) : nat :=
  ((fst (Dataset_len (dataset ld)) + loader_batch_size ld - 1)
   / loader_batch_size ld)%nat.

(** The order in which one pass of the loader visits the dataset. *)
Definition sampler (ext : Externals) (ld : DataLoader) : M (list nat) :=
  let n := fst (Dataset_len (dataset ld)) in
  if shuffle ld then (fun s => Ok (randperm ext n s)) else ret (seq 0 n).

(** The batch sampler: indices are collected in [batch], which is given
    out when it is full, and at the end when it is not empty. *)
Fixpoint batch_sampler (size : nat) (batch : list nat) (order : list nat)
  : list (list nat) :=
  match order with
  | [] => if (0 <? length batch)%nat then [batch] else []
  | idx :: rest =>
      let batch := batch ++ [idx] in
      if (length batch =? size)%nat
      then batch :: batch_sampler size [] rest
      else batch_sampler size batch rest
  end.

(** [[dataset[i] for i in idxs]] *)
Fixpoint fetch (ext : Externals) (ds : Dataset) (idxs : list nat)
  : M (list tensor) :=
  match idxs with
  | [] => ret []
  | i :: rest =>
      ' (x, ds) <~ Dataset_getitem ext ds i ;;
      xs <~ fetch ext ds rest ;;
      ret (x :: xs)
  end.

(** The values the four names of the data cell have once the cell has
    run to its end ([data_cell] below says when it does), for the path
    list [ps] that [glob.glob] returned. *)
Definition train_data (ps : list string) : Dataset :=
  Dataset_init (slice_to ps (- test_size)).

Definition train_loader (ps : list string) : DataLoader :=
  {| dataset := train_data ps; loader_batch_size := batch_size; shuffle := true |}.

Definition test_data (ps : list string) : Dataset :=
  Dataset_init (slice_from ps (- test_size)).

Definition test_loader (ps : list string) : DataLoader :=
  {| dataset := test_data ps; loader_batch_size := batch_size; shuffle := false |}.

(** The names the data cell binds when it runs to its end. *)
Record data_names : Type := {
  bound_train_data : Dataset;
  bound_train_loader : DataLoader;
  bound_test_data : Dataset;
  bound_test_loader : DataLoader
}.

(** The last four lines of the data cell, in their order: a line that
    raises ends the cell, and the lines after it bind nothing. *)
Definition data_cell (ps : list string) : result data_names :=
  let train_data := Dataset_init (slice_to ps (- test_size)) in
  train_loader <- DataLoader_init train_data batch_size true ;;
  let test_data := Dataset_init (slice_from ps (- test_size)) in
  test_loader <- DataLoader_init test_data batch_size false ;;
  Ok {| bound_train_data := train_data; bound_train_loader := train_loader;
        bound_test_data := test_data; bound_test_loader := test_loader |}.

(** The split in the words of the specification: for every path list the
    cell makes the two splits, the test split is exactly the last
    [test_size] paths, the train split all that precede. *)
Definition spec_split (ps : list string) : Prop :=
  exists names first_paths last_paths,
    data_cell ps = Ok names /\
    ps = first_paths ++ last_paths /\
    length last_paths = Z.to_nat test_size /\
    paths (bound_train_data names) = first_paths /\
    paths (bound_test_data names) = last_paths.

(** ** Training *)

Definition latent_size : nat := 16.
Definition epochs : nat := 10.

Inductive event : Type :=
| Progress                                  (* print('=', end='') *)
| EpochLoss (epoch : nat) (loss : R)        (* print(f'> Epoch: ..., Loss: ...') *)
| Saved (file : string) (params : state_dict).  (* torch.save *)

Record training (ext : Externals) : Type := {
  params : state_dict;           (* the parameters of [vae] *)
  optim : optimizer ext;
  output : list event
}.
Arguments params {ext} _.
Arguments optim {ext} _.
Arguments output {ext} _.

(** The body of the inner loop up to [optimizer.step()]; the value is
    [loss.item()].  [x.to(device)] puts the batch on the device of [vae]. *)
Definition train_step (ext : Externals) (theta : state_dict)
    (opt : optimizer ext) (x : tensor)
  : M (R * state_dict * optimizer ext) := fun s =>
  (' (x_recon, mu, logvar) <~ VAE.forward (VAE.init latent_size theta) x ;;
   loss <~ lift (vae_loss x_recon x mu logvar None) ;;
   let (opt', theta') := backward_step ext opt theta x s in
   ret (loss, theta', opt')) s.

(** [for batch, x in enumerate(train_loader, start=1)], from batch number
    [batch] on, over the batches the loader still has to give. *)
Fixpoint batch_loop (ext : Externals) (ld : DataLoader) (batch : nat)
    (batches : list (list nat)) (running_loss : R) (st : training ext)
  : M (R * training ext) :=
  match batches with
  | [] => ret (running_loss, st)
  | idxs :: rest =>
      xs <~ fetch ext (dataset ld) idxs ;;
      x <~ lift (stack xs) ;;
      ' (loss, theta, opt) <~ train_step ext (params st) (optim st) x ;;
      let running_loss := running_loss + loss in
      let tenth := (DataLoader_len ld / 10)%nat in
      if (tenth =? 0)%nat then raise ZeroDivisionError
      else
        let out := if (Nat.modulo batch tenth =? 0)%nat
                   then output st ++ [Progress] else output st in
        batch_loop ext ld (S batch) rest running_loss
          {| params := theta; optim := opt; output := out |}
  end.

(** The body of the outer loop. *)
Definition run_epoch (ext : Externals) (ld : DataLoader) (epoch : nat)
    (st : training ext) : M (training ext) :=
  let running_loss := 0 in
  order <~ sampler ext ld ;;
  ' (running_loss, st) <~
    batch_loop ext ld 1 (batch_sampler (loader_batch_size ld) [] order)
      running_loss st ;;
  let n := fst (Dataset_len (dataset ld)) in
  if (n =? 0)%nat then raise ZeroDivisionError
  else ret {| params := params st; optim := optim st;
              output := output st ++ [EpochLoss epoch (running_loss / INR n)] |}.

Fixpoint epoch_loop (ext : Externals) (ld : DataLoader) (epoch_range : list nat)
    (st : training ext) : M (training ext) :=
  match epoch_range with
  | [] => ret st
  | epoch :: rest =>
      st <~ run_epoch ext ld epoch st ;;
      epoch_loop ext ld rest st
  end.

(** The training cell, with the initial parameters [theta]; [bound] holds
    the names of the data cell, or nothing when that cell did not run to
    its end: the inner loop then finds no [train_loader]. *)
Definition training_cell (ext : Externals) (bound : option data_names)
    (theta : state_dict) : M (training ext) :=
  match bound with
  | None => raise NameError
  | Some names =>
      st <~ epoch_loop ext (bound_train_loader names) (seq 1 epochs)
              {| params := theta; optim := Adam ext theta; output := [] |} ;;
      ret {| params := params st; optim := optim st;
             output := output st ++ [Saved "beta-vae.pth" (params st)] |}
  end.

(** The data cell on the files [ps] and then the training cell, as the
    notebook runs them; the first error ends the run. *)
Definition train (ext : Externals) (ps : list string) (theta : state_dict)
  : M (training ext) :=
  names <~ lift (data_cell ps) ;;
  training_cell ext (Some names) theta.

(** The losses of the batches of one pass, in order, with the parameters
    and the optimizer the pass ends in: the loop of [batch_loop] without the
    running sum and the printing. *)
Fixpoint spec_batch_losses (ext : Externals) (ld : DataLoader)
    (batches : list (list nat)) (theta : state_dict) (opt : optimizer ext)
  : M (list R * state_dict * optimizer ext) :=
  match batches with
  | [] => ret ([], theta, opt)
  | idxs :: rest =>
      xs <~ fetch ext (dataset ld) idxs ;;
      x <~ lift (stack xs) ;;
      ' (loss, theta, opt) <~ train_step ext theta opt x ;;
      ' (losses, theta, opt) <~ spec_batch_losses ext ld rest theta opt ;;
      ret (loss :: losses, theta, opt)
  end.

(** The batch losses of each epoch of a run. *)
Fixpoint spec_epoch_losses (ext : Externals) (ld : DataLoader)
    (epoch_range : list nat) (theta : state_dict) (opt : optimizer ext)
  : M (list (list R) * state_dict * optimizer ext) :=
  match epoch_range with
  | [] => ret ([], theta, opt)
  | _ :: rest =>
      order <~ sampler ext ld ;;
      ' (losses, theta, opt) <~
        spec_batch_losses ext ld
          (batch_sampler (loader_batch_size ld) [] order) theta opt ;;
      ' (history, theta, opt) <~ spec_epoch_losses ext ld rest theta opt ;;
      ret (losses :: history, theta, opt)
  end.

(** The epoch lines and the files of an output. *)
Definition epoch_lines (out : list event) : list (nat * R) :=
  flat_map (fun ev => match ev with EpochLoss e l => [(e, l)] | _ => [] end) out.

Definition saved_files (out : list event) : list (string * state_dict) :=
  flat_map (fun ev => match ev with Saved f p => [(f, p)] | _ => [] end) out.

(** A batch of indices the loader can fetch from [ds] and stack. *)
Definition good_batch (ds : Dataset) (idxs : list nat) : Prop :=
  idxs <> [] /\ Forall (fun i => (i < length (paths ds))%nat) idxs.

(** A small outside world to run the notebook in: every file is a black
    64 x 64 image, the loader keeps the order and the optimizer leaves the
    parameters alone. *)
Definition black_image : pil_image :=
  {| pil_height := 64; pil_width := 64;
     pil_pixels := repeat Byte.x00 (64 * 64 * 3) |}.

Definition still_world : Externals :=
  {| image := unit;
     default_loader := fun _ => Ok tt;
     crop_resize_flip := fun _ s => (black_image, s);
     randperm := fun n s => (seq 0 n, s);
     optimizer := unit;
     Adam := fun _ => tt;
     backward_step := fun opt theta _ _ => (opt, theta);
     cuda_is_available := false |}.

(** The same world with files that cannot be read, and the same with a
    GPU. *)
Definition unreadable_world : Externals :=
  {| image := unit;
     default_loader := fun _ => Raise OSError;
     crop_resize_flip := fun _ s => (black_image, s);
     randperm := fun n s => (seq 0 n, s);
     optimizer := unit;
     Adam := fun _ => tt;
     backward_step := fun opt theta _ _ => (opt, theta);
     cuda_is_available := false |}.

Definition cuda_world : Externals :=
  {| image := unit;
     default_loader := fun _ => Ok tt;
     crop_resize_flip := fun _ s => (black_image, s);
     randperm := fun n s => (seq 0 n, s);
     optimizer := unit;
     Adam := fun _ => tt;
     backward_step := fun opt theta _ _ => (opt, theta);
     cuda_is_available := true |}.

(** The side that a 3 x 3 convolution of stride 2 leaves of a side [h]. *)
Definition conv_side (h : nat) : nat := ((h - 3) / 2 + 1)%nat.

(** ** The cells after training *)

(** [x[i]]: the [i]-th slice along the first dimension. *)
Definition select (x : tensor) (i : nat) : result tensor :=
  match Tensor.shape x with
  | n :: rest =>
      if (i <? n)%nat
      then Ok (Tensor.mk rest
                 (firstn (Tensor.numel rest)
                    (skipn (i * Tensor.numel rest) (Tensor.data x))))
      else Raise IndexError
  | [] => Raise IndexError
  end.

(** [x[i] = a] for a number [a]: the tensor after the assignment. *)
Definition setitem (x : tensor) (i : nat) (a : R) : result tensor :=
  match Tensor.shape x with
  | n :: rest =>
      if (i <? n)%nat
      then
        let m := Tensor.numel rest in
        Ok (Tensor.mk (Tensor.shape x)
              (firstn (i * m) (Tensor.data x) ++ repeat a m ++
               skipn ((i + 1) * m) (Tensor.data x)))
      else Raise IndexError
  | [] => Raise IndexError
  end.

(** [x.clone()]: a new tensor with the elements of [x]; an assignment to
    the clone leaves [x] as it is. *)
Definition clone (x : tensor) : tensor := x.

(** [torch.linspace(a, b, steps)] *)
Definition linspace (a b : R) (steps : nat) : tensor :=
  vec (List.map (fun k => a + INR k * ((b - a) / INR (steps - 1))) (seq 0 steps)).

(** A list comprehension, or a loop that appends, whose body may raise. *)
Fixpoint for_each {A B : Type} (body : A -> result B) (l : list A)
  : result (list B) :=
  match l with
  | [] => Ok []
  | a :: l' =>
      b <- body a ;;
      bs <- for_each body l' ;;
      Ok (b :: bs)
  end.

(** The images of one latent coordinate [i] of the traversal: for each [a]
    of [ls], the decoding of [z] with coordinate [i] set to [a]. *)
Definition traversal_row (dec : Decoder.t) (z ls : tensor) (i : nat)
  : result (list tensor) :=
  for_each (fun a =>
      let z_ := clone z in
      z_ <- setitem z_ i a ;;
      y <- Decoder.forward dec z_ ;;
      select y 0)
    (Tensor.data ls).

(** The two loops of the traversal cell, one row for each [i]; a tensor
    without a dimension cannot be iterated. *)
Definition traversal_rows (dec : Decoder.t) (z ls : tensor)
  : result (list (list tensor)) :=
  match Tensor.shape z with
  | [] => Raise IndexError
  | n :: _ => for_each (traversal_row dec z ls) (seq 0 n)
  end.

(** The traversal cell on the first batch of the loader: the images, the
    rows and the columns it gives to [plot_grid]; nothing when the loader
    has no batch.  The batch comes from the loader, on the CPU, and goes to
    [vae] as it is, while the training cell has put [vae] on [device]. *)
Definition traversal_cell (ext : Externals) (ld : DataLoader) (theta : state_dict)
  : M (option (list tensor * nat * nat)) :=
  order <~ sampler ext ld ;;
  match batch_sampler (loader_batch_size ld) [] order with
  | [] => ret None
  | idxs :: _ =>
      xs <~ fetch ext (dataset ld) idxs ;;
      x <~ lift (stack xs) ;;
      let vae := VAE.init latent_size theta in
      _ <~ lift (same_device (device ext) cpu) ;;
      ' (x_recon, mu, logvar) <~ VAE.forward vae x ;;
      zz <~ sample mu logvar ;;
      z <~ lift (select zz 0) ;;
      let ls := linspace (-3) 3 5 in
      rows <~ lift (traversal_rows (VAE.decoder vae) z ls) ;;
      let images := concat rows in
      match Tensor.shape z with
      | [] => raise IndexError
      | len_z :: _ =>
          if (len_z =? 0)%nat then raise ZeroDivisionError
          else ret (Some (images, len_z, (length images / len_z)%nat))
      end
  end.

(** [torch.meshgrid(a, b)] for one-dimensional [a] and [b]: the first grid
    repeats [a] along the columns, the second [b] along the rows. *)
Definition meshgrid (a b : tensor) : tensor * tensor :=
  let sh := [length (Tensor.data a); length (Tensor.data b)] in
  (Tensor.mk sh (flat_map (fun ai => List.map (fun _ => ai) (Tensor.data b))
                   (Tensor.data a)),
   Tensor.mk sh (flat_map (fun _ => Tensor.data b) (Tensor.data a))).

(** [torch.stack((u, v), dim=k)] for two tensors of one shape with [k]
    dimensions: the pair of their elements becomes a new last dimension. *)
Definition stack_last (uv : tensor * tensor) : result tensor :=
  let (u, v) := uv in
  if list_eq_dec Nat.eq_dec (Tensor.shape u) (Tensor.shape v)
  then Ok (Tensor.mk (Tensor.shape u ++ [2%nat])
             (flat_map (fun p => [fst p; snd p])
                (combine (Tensor.data u) (Tensor.data v))))
  else Raise ShapeError.

(** [x.reshape(shape)] for a shape without [-1]. *)
Definition reshape_to (shape : list nat) (x : tensor) : result tensor :=
  if (Tensor.numel shape =? Tensor.numel (Tensor.shape x))%nat
  then Ok (Tensor.mk shape (Tensor.data x))
  else Raise ShapeError.

(** [x.squeeze()]: the dimensions of size 1 are dropped. *)
Definition squeeze (x : tensor) : tensor :=
  Tensor.mk (filter (fun d => negb (d =? 1)%nat) (Tensor.shape x)) (Tensor.data x).

(** [for sample in x]: the slices of [x] along its first dimension. *)
Definition unbind (x : tensor) : result (list tensor) :=
  match Tensor.shape x with
  | [] => Raise IndexError
  | n :: _ => for_each (select x) (seq 0 n)
  end.

(** A list comprehension whose body reads the noise source. *)
Fixpoint for_each_M {A B : Type} (body : A -> M B) (l : list A) : M (list B) :=
  match l with
  | [] => ret []
  | a :: l' =>
      b <~ body a ;;
      bs <~ for_each_M body l' ;;
      ret (b :: bs)
  end.

(** The last cell: the decoded grid of latent points it gives to
    [plot_grid], with the rows and columns; [latent] is the value of the
    global [latent_size] the model was built with. *)
Definition latent_grid_cell (ext : Externals) (ps : list string) (latent : nat)
    (theta : state_dict) : M (list tensor * nat * nat) :=
  let rows := 10%nat in
  let cols := 10%nat in
  let a := linspace (-3) 3 rows in
  let b := linspace (-3) 3 cols in
  grid <~ lift (stack_last (meshgrid a b)) ;;
  z <~ lift (Tensor.reshape_infer [latent] grid) ;;
  samples <~ lift (Decoder.forward (VAE.decoder (VAE.init latent theta)) z) ;;
  samples <~ lift (unbind samples) ;;
  samples <~ for_each_M (fun sample =>
      ' (t, _) <~ Dataset_getitem ext (train_data ps) 0 ;;
      t0 <~ lift (select t 0) ;;
      r <~ lift (reshape_to (Tensor.shape t0) sample) ;;
      ret (squeeze r)) samples ;;
  ret (samples, rows, cols).

(** [e] is the error of reading one of the files of the dataset of [ld];
    the file at index [i] can, or cannot, be read. *)
Definition read_error (ext : Externals) (ld : DataLoader) (e : error) : Prop :=
  exists p, In p (paths (dataset ld)) /\ default_loader ext p = Raise e.

Definition readable (ext : Externals) (ld : DataLoader) (i : nat) : Prop :=
  exists p img, nth_error (paths (dataset ld)) i = Some p /\
                default_loader ext p = Ok img.

Definition unreadable (ext : Externals) (ld : DataLoader) (i : nat) : Prop :=
  exists p e, nth_error (paths (dataset ld)) i = Some p /\
              default_loader ext p = Raise e.

(** The number of progress marks in an output. *)
Definition progress_marks (out : list event) : nat :=
  length (filter (fun ev => match ev with Progress => true | _ => false end) out).

(** The batch numbers from [first] on, [count] of them, at which the inner
    loop prints a mark: the multiples of [tenth]. *)
Definition marked_batches (tenth first count : nat) : list nat :=
  filter (fun batch => (Nat.modulo batch tenth =? 0)%nat) (seq first count).

(** What the traversal puts at coordinate [i] and value [a]: the first
    image of the decoding of [z] with coordinate [i] set to [a], the other
    coordinates as in [z]. *)
Definition traversal_image (dec : Decoder.t) (z : tensor) (i : nat) (a : R)
    (im : tensor) : Prop :=
  exists z_ y,
    setitem z i a = Ok z_ /\
    Tensor.get z_ i = a /\
    (forall j, j <> i -> Tensor.get z_ j = Tensor.get z j) /\
    Decoder.forward dec z_ = Ok y /\
    select y 0 = Ok im /\
    Tensor.shape im = [3; 64; 64]%nat /\
    Tensor.wf im /\
    Forall unit_interval (Tensor.data im).

(** ** The sampler and the loss in 32-bit floating point

    One coordinate at a time, in IEEE binary32 arithmetic with rounding to
    nearest even, as PyTorch evaluates float32 tensors.  [torch.exp] calls
    the exponential of the C library.  Its value is fixed here where the
    standard fixes it (zeros, infinities, NaN) and where the result leaves
    the range of binary32: an argument of 89 or more gives infinity, since
    e^89 > 2^128, and one of -104 or less gives zero, since
    e^-104 < 2^-150.  In between it is the value [libm] of the library. *)

Module F32.

Definition t : Type := SpecFloat.spec_float.

Definition prec : Z := 24.
Definition emax : Z := 128.

(** The float nearest to [m * 2^e]. *)
Definition of_Z (m e : Z) : t := SpecFloat.binary_normalize prec emax m e false.

Definition zero : t := SpecFloat.S754_zero false.
Definition one : t := of_Z 1 0.
Definition two : t := of_Z 2 0.
Definition infinity : t := SpecFloat.S754_infinity false.
Definition nan : t := SpecFloat.S754_nan.

Definition add : t -> t -> t := SpecFloat.SFadd prec emax.
Definition sub : t -> t -> t := SpecFloat.SFsub prec emax.
Definition mul : t -> t -> t := SpecFloat.SFmul prec emax.
Definition div : t -> t -> t := SpecFloat.SFdiv prec emax.

(** [x <= y], [x < y] and [x == y]: false when an operand is NaN. *)
Definition leb : t -> t -> bool := SpecFloat.SFleb.
Definition ltb : t -> t -> bool := SpecFloat.SFltb.
Definition eqb : t -> t -> bool := SpecFloat.SFeqb.

Definition is_finite (x : t) : bool :=
  match x with
  | SpecFloat.S754_zero _ | SpecFloat.S754_finite _ _ _ => true
  | _ => false
  end.

(** [torch.exp] on one element. *)
Definition exp (libm : t -> t) (x : t) : t :=
  match x with
  | SpecFloat.S754_nan => nan
  | SpecFloat.S754_infinity false => infinity
  | SpecFloat.S754_infinity true => zero
  | SpecFloat.S754_zero _ => one
  | SpecFloat.S754_finite _ _ _ =>
      if leb (of_Z 89 0) x then infinity
      else if leb x (of_Z (-104) 0) then zero
      else libm x
  end.

(** One coordinate of [sample], for the draw [eps] of that coordinate:
    [std = torch.exp(logvar / 2)], then [mu + std * eps]. *)
Definition sample (libm : t -> t) (mu logvar eps : t) : t :=
  let std := exp libm (div logvar two) in
  add mu (mul std eps).

(** [kld] of [vae_loss] on tensors of one element, where the sum is that
    element: [-1/2 * (1 + logvar - mu.pow(2) - logvar.exp())]. *)
Definition kld (libm : t -> t) (mu logvar : t) : t :=
  mul (of_Z (-1) (-1))
      (sub (sub (add one logvar) (mul mu mu)) (exp libm logvar)).

(** The last line of [vae_loss], [bce + beta * kld], for the value [bce]
    that [F.binary_cross_entropy] returned. *)
Definition vae_loss (libm : t -> t) (bce mu logvar beta : t) : t :=
  add bce (mul beta (kld libm mu logvar)).

End F32.

(** Three sentences of the specification, read on the floats of the code:
    the sample is not below the mean; the KL term vanishes only at
    [mu = 0], [logvar = 0]; the loss does not decrease in [beta]. *)
Definition spec_sample_not_below_mean_f32 : Prop :=
  forall (libm : F32.t -> F32.t) (mu logvar eps : F32.t),
    F32.is_finite mu = true -> F32.is_finite logvar = true ->
    F32.leb F32.zero eps = true -> F32.ltb eps F32.one = true ->
    F32.leb mu (F32.sample libm mu logvar eps) = true.

Definition spec_kld_zero_iff_f32 : Prop :=
  forall (libm : F32.t -> F32.t) (mu logvar : F32.t),
    F32.is_finite mu = true -> F32.is_finite logvar = true ->
    (F32.eqb (F32.kld libm mu logvar) F32.zero = true <->
     F32.eqb mu F32.zero = true /\ F32.eqb logvar F32.zero = true).

Definition spec_vae_loss_monotone_f32 : Prop :=
  forall (libm : F32.t -> F32.t) (bce mu logvar b1 b2 : F32.t),
    F32.is_finite bce = true ->
    F32.is_finite mu = true -> F32.is_finite logvar = true ->
    F32.leb F32.zero b1 = true -> F32.leb b1 b2 = true ->
    F32.is_finite b2 = true ->
    F32.leb (F32.vae_loss libm bce mu logvar b1)
            (F32.vae_loss libm bce mu logvar b2) = true.

(** * Theorems *)

(** ** Lists and sums *)

Lemma zip_with_length {A B C} (f : A -> B -> C) l1 l2 :
  length (zip_with f l1 l2) = Nat.min (length l1) (length l2).
Proof.
  revert l2; induction l1 as [|a l1 IH]; intros [|b l2]; simpl; auto.
Qed.

Lemma zip_with_nth {A B C} (f : A -> B -> C) l1 l2 i d1 d2 d :
  (i < length l1)%nat -> (i < length l2)%nat ->
  nth i (zip_with f l1 l2) d = f (nth i l1 d1) (nth i l2 d2).
Proof.
  revert l2 i; induction l1 as [|a l1 IH]; intros [|b l2] [|i]; simpl;
    intros; try lia; auto.
  apply IH; lia.
Qed.

Lemma big_ext n f g :
  (forall i, (i < n)%nat -> f i = g i) -> big n f = big n g.
Proof.
  induction n as [|n IH]; simpl; intros H; [reflexivity|].
  rewrite IH, H; auto.
Qed.

Lemma big_add n m f :
  big (n + m) f = big n f + big m (fun j => f (n + j)%nat).
Proof.
  induction m as [|m IH]; simpl.
  - rewrite Nat.add_0_r; lra.
  - rewrite Nat.add_succ_r; simpl. rewrite IH; lra.
Qed.

(** A sum over a row-major index is the sum over the rows of the row sums. *)
Lemma big_rows B L f :
  big (B * L) f = big B (fun b => big L (fun j => f (b * L + j)%nat)).
Proof.
  induction B as [|B IH]; simpl; [reflexivity|].
  rewrite <- IH, Nat.add_comm, big_add; reflexivity.
Qed.

Lemma Rsum_big l : Rsum l = big (length l) (fun i => nth i l 0).
Proof.
  induction l as [|a l IH] using rev_ind; simpl; [reflexivity|].
  rewrite length_app, Nat.add_comm; simpl.
  rewrite app_nth2, Nat.sub_diag by lia; simpl.
  unfold Rsum in *. rewrite fold_right_app; simpl.
  rewrite (big_ext _ _ (fun i => nth i l 0)).
  - rewrite <- IH. clear IH. induction l; simpl; lra.
  - intros i Hi. apply app_nth1; exact Hi.
Qed.

Lemma Rsum_nonneg l : Forall (fun v => 0 <= v) l -> 0 <= Rsum l.
Proof.
  induction 1; simpl; lra.
Qed.

Lemma Rsum_zero_iff l :
  Forall (fun v => 0 <= v) l -> (Rsum l = 0 <-> Forall (fun v => v = 0) l).
Proof.
  induction 1 as [|a l Ha Hl IH]; simpl.
  - split; auto.
  - pose proof (Rsum_nonneg l Hl) as Hs. split.
    + intros H. constructor; [lra|]. apply IH; lra.
    + intros H. inversion H; subst. apply IH in H3. lra.
Qed.

(** ** Tensor operations *)

Lemma bind_Ok {A B} (a : A) (k : A -> result B) : bind (Ok a) k = k a.
Proof. reflexivity. Qed.

Lemma map2_ok f a b :
  Tensor.shape a = Tensor.shape b ->
  Tensor.map2 f a b =
  Ok (Tensor.mk (Tensor.shape a) (zip_with f (Tensor.data a) (Tensor.data b))).
Proof.
  intros H. unfold Tensor.map2.
  destruct (list_eq_dec Nat.eq_dec (Tensor.shape a) (Tensor.shape b));
    [reflexivity | contradiction].
Qed.

Lemma map2_raise f a b e :
  Tensor.map2 f a b = Raise e ->
  e = ShapeError /\
  Tensor.broadcast_shapes (Tensor.shape a) (Tensor.shape b) = None.
Proof.
  unfold Tensor.map2.
  destruct (list_eq_dec Nat.eq_dec (Tensor.shape a) (Tensor.shape b));
    [discriminate|].
  destruct (Tensor.broadcast_shapes (Tensor.shape a) (Tensor.shape b));
    [discriminate|].
  intros [= <-]. split; reflexivity.
Qed.

(** ** Broadcasting *)

Lemma numel_app (s1 s2 : list nat) :
  Tensor.numel (s1 ++ s2) = (Tensor.numel s1 * Tensor.numel s2)%nat.
Proof.
  induction s1 as [|a s1 IH]; simpl; [lia|]. rewrite IH. lia.
Qed.

Lemma numel_rev (s : list nat) : Tensor.numel (rev s) = Tensor.numel s.
Proof.
  induction s as [|a s IH]; simpl; [reflexivity|].
  rewrite numel_app, IH. simpl. lia.
Qed.

Lemma nth_map_seq (g : nat -> R) (n i : nat) :
  (i < n)%nat -> nth i (List.map g (seq 0 n)) 0 = g i.
Proof.
  intros Hi.
  rewrite (nth_indep _ 0 (g 0%nat)) by (rewrite length_map, length_seq; exact Hi).
  rewrite map_nth, seq_nth by exact Hi. reflexivity.
Qed.

Lemma broadcast_dim_cases (a b d : nat) :
  Tensor.broadcast_dim a b = Some d ->
  (a = d /\ (b = d \/ b = 1%nat)) \/ (a = 1%nat /\ b = d).
Proof.
  unfold Tensor.broadcast_dim.
  destruct (Nat.eqb_spec a b) as [->|_]; [intros [= <-]; left; auto|].
  destruct (Nat.eqb_spec a 1) as [->|_]; [intros [= <-]; right; auto|].
  destruct (Nat.eqb_spec b 1) as [->|_]; [intros [= <-]; left; auto | discriminate].
Qed.

Lemma expands_refl (s : list nat) : Tensor.expands_to s s.
Proof.
  induction s; constructor; assumption.
Qed.

Lemma broadcast_rev_expands (r1 r2 o : list nat) :
  Tensor.broadcast_rev r1 r2 = Some o ->
  Tensor.expands_to r1 o /\ Tensor.expands_to r2 o.
Proof.
  revert r2 o. induction r1 as [|a r1 IH]; intros r2 o H.
  - simpl in H. injection H as <-. split; [constructor | apply expands_refl].
  - destruct r2 as [|b r2].
    + simpl in H. injection H as <-. split; [apply expands_refl | constructor].
    + simpl in H.
      destruct (Tensor.broadcast_dim a b) as [d|] eqn:Ed; [|discriminate].
      destruct (Tensor.broadcast_rev r1 r2) as [r|] eqn:Er; [|discriminate].
      injection H as <-. destruct (IH _ _ Er) as [H1 H2].
      apply broadcast_dim_cases in Ed.
      destruct Ed as [[-> [-> | ->]] | [-> ->]]; split; constructor; assumption.
Qed.

Lemma expands_broadcast (s o : list nat) :
  Tensor.expands_to s o -> Tensor.broadcast_rev o s = Some o.
Proof.
  induction 1 as [o | d s o _ IH | d s o _ IH].
  - destruct o; reflexivity.
  - simpl. rewrite IH. unfold Tensor.broadcast_dim. rewrite Nat.eqb_refl. reflexivity.
  - simpl. rewrite IH. unfold Tensor.broadcast_dim.
    destruct (Nat.eqb_spec d 1); reflexivity.
Qed.

Lemma bindex_rev_bound (s o : list nat) :
  Tensor.expands_to s o ->
  forall i stride, (i < Tensor.numel o)%nat ->
  exists k, Tensor.bindex_rev o s i stride = (stride * k)%nat /\
            (k < Tensor.numel s)%nat.
Proof.
  induction 1 as [o | d s o _ IH | d s o _ IH]; intros i stride Hi.
  - exists 0%nat. destruct o; simpl; split; lia.
  - simpl in Hi. cbn [Tensor.bindex_rev].
    destruct (IH (i / d)%nat (stride * d)%nat) as (k & Ek & Hk);
      [apply Nat.Div0.div_lt_upper_bound; exact Hi|].
    rewrite Ek. destruct (Nat.eqb_spec d 1) as [->|Hd].
    + exists k. split; [lia | simpl; lia].
    + exists (Nat.modulo i d + d * k)%nat. split; [lia|].
      assert (Hd0 : d <> 0%nat) by (intros ->; simpl in Hi; lia).
      pose proof (Nat.mod_upper_bound i d Hd0). simpl. nia.
  - simpl in Hi. cbn [Tensor.bindex_rev]. rewrite Nat.eqb_refl.
    destruct (IH (i / d)%nat (stride * 1)%nat) as (k & Ek & Hk);
      [apply Nat.Div0.div_lt_upper_bound; exact Hi|].
    rewrite Ek. exists k. split; [lia | simpl; lia].
Qed.

Lemma bindex_rev_id (r : list nat) :
  forall i stride, (i < Tensor.numel r)%nat ->
  Tensor.bindex_rev r r i stride = (stride * i)%nat.
Proof.
  induction r as [|d r IH]; intros i stride Hi.
  - simpl in *. lia.
  - simpl in Hi. cbn [Tensor.bindex_rev].
    rewrite IH by (apply Nat.Div0.div_lt_upper_bound; exact Hi).
    destruct (Nat.eqb_spec d 1) as [->|Hd].
    + rewrite Nat.div_1_r. lia.
    + pose proof (Nat.div_mod_eq i d). nia.
Qed.

Lemma broadcast_shapes_inv (s1 s2 out : list nat) :
  Tensor.broadcast_shapes s1 s2 = Some out ->
  Tensor.expands_to (rev s1) (rev out) /\ Tensor.expands_to (rev s2) (rev out).
Proof.
  unfold Tensor.broadcast_shapes.
  destruct (Tensor.broadcast_rev (rev s1) (rev s2)) as [o|] eqn:E; [|discriminate].
  simpl. intros [= <-]. rewrite rev_involutive.
  apply broadcast_rev_expands. exact E.
Qed.

Lemma expands_broadcast_shapes (s out : list nat) :
  Tensor.expands_to (rev s) (rev out) -> Tensor.broadcast_shapes out s = Some out.
Proof.
  intros H. unfold Tensor.broadcast_shapes.
  rewrite (expands_broadcast _ _ H). simpl. rewrite rev_involutive. reflexivity.
Qed.

Lemma broadcast_shapes_same (s : list nat) : Tensor.broadcast_shapes s s = Some s.
Proof.
  apply expands_broadcast_shapes, expands_refl.
Qed.

Lemma bindex_lt (out s : list nat) (i : nat) :
  Tensor.expands_to (rev s) (rev out) -> (i < Tensor.numel out)%nat ->
  (Tensor.bindex out s i < Tensor.numel s)%nat.
Proof.
  intros He Hi. unfold Tensor.bindex.
  destruct (bindex_rev_bound _ _ He i 1%nat) as (k & -> & Hk);
    [rewrite numel_rev; exact Hi|].
  rewrite numel_rev in Hk. lia.
Qed.

Lemma bindex_same (s : list nat) (i : nat) :
  (i < Tensor.numel s)%nat -> Tensor.bindex s s i = i.
Proof.
  intros Hi. unfold Tensor.bindex.
  rewrite bindex_rev_id by (rewrite numel_rev; exact Hi). lia.
Qed.

Lemma expand_same (x : tensor) (i : nat) :
  (i < Tensor.numel (Tensor.shape x))%nat ->
  Tensor.expand (Tensor.shape x) x i = Tensor.get x i.
Proof.
  intros Hi. unfold Tensor.expand. rewrite bindex_same by exact Hi. reflexivity.
Qed.

Lemma expand_map (g : R -> R) (out : list nat) (x : tensor) (i : nat) :
  Tensor.wf x ->
  Tensor.expands_to (rev (Tensor.shape x)) (rev out) ->
  (i < Tensor.numel out)%nat ->
  Tensor.expand out (Tensor.map g x) i = g (Tensor.expand out x i).
Proof.
  intros Wx He Hi. unfold Tensor.expand, Tensor.get, Tensor.map. simpl.
  rewrite (nth_indep _ 0 (g 0)), map_nth; [reflexivity|].
  rewrite length_map, Wx. apply bindex_lt; assumption.
Qed.

(** What a binary operation returns: a tensor of the broadcast shape whose
    element [i] combines the elements [i] of the expanded operands. *)
Lemma map2_inv f a b c :
  Tensor.wf a -> Tensor.wf b ->
  Tensor.map2 f a b = Ok c ->
  Tensor.broadcast_shapes (Tensor.shape a) (Tensor.shape b) = Some (Tensor.shape c) /\
  Tensor.wf c /\
  forall i, (i < Tensor.numel (Tensor.shape c))%nat ->
    Tensor.get c i =
    f (Tensor.expand (Tensor.shape c) a i) (Tensor.expand (Tensor.shape c) b i).
Proof.
  intros Wa Wb. unfold Tensor.map2.
  destruct (list_eq_dec Nat.eq_dec (Tensor.shape a) (Tensor.shape b)) as [E|E].
  - intros [= <-]. cbn [Tensor.shape].
    split; [rewrite <- E; apply broadcast_shapes_same|].
    unfold Tensor.wf in *. cbn [Tensor.shape Tensor.data].
    split; [rewrite zip_with_length, Wa, Wb, E; lia|].
    intros i Hi. rewrite expand_same by exact Hi.
    unfold Tensor.expand. rewrite E, bindex_same by (rewrite <- E; exact Hi).
    unfold Tensor.get. cbn [Tensor.data].
    apply zip_with_nth; [rewrite Wa | rewrite Wb, <- E]; exact Hi.
  - destruct (Tensor.broadcast_shapes (Tensor.shape a) (Tensor.shape b))
      as [out|] eqn:Eb; [|discriminate].
    intros [= <-]. cbn [Tensor.shape]. split; [reflexivity|].
    unfold Tensor.wf. cbn [Tensor.shape Tensor.data].
    split; [rewrite length_map, length_seq; reflexivity|].
    intros i Hi. unfold Tensor.get at 1. cbn [Tensor.data].
    apply (nth_map_seq (fun i => f (Tensor.expand out a i) (Tensor.expand out b i))).
    exact Hi.
Qed.

Lemma source_of_prefix l rest :
  List.map (source_of l rest) (seq 0 (length l)) = l.
Proof. apply nth_ext with (d := 0) (d' := 0).
  - rewrite length_map, length_seq; reflexivity.
  - rewrite length_map, length_seq. intros i Hi.
    rewrite (nth_indep _ 0 (source_of l rest 0%nat))
      by (rewrite length_map, length_seq; exact Hi).
    rewrite map_nth, seq_nth by exact Hi; simpl.
    unfold source_of. destruct (Nat.ltb_spec i (length l)); [reflexivity | lia].
Qed.

Lemma source_of_rest l rest i : source_of l rest (i + length l)%nat = rest i.
Proof.
  unfold source_of. destruct (Nat.ltb_spec (i + length l) (length l)); [lia|].
  f_equal. lia.
Qed.

Lemma Forall_zip_with (P Q S : R -> Prop) f l1 l2 :
  (forall a b, P a -> Q b -> S (f a b)) ->
  Forall P l1 -> Forall Q l2 -> Forall S (zip_with f l1 l2).
Proof.
  intros Hf H1; revert l2; induction H1; intros l2 H2; simpl; [constructor|].
  inversion H2; subst; constructor; auto.
Qed.

Lemma Forall2_le_add l r :
  length l = length r -> Forall (fun v => 0 <= v) r ->
  Forall2 Rle l (zip_with Rplus l r).
Proof.
  revert r; induction l as [|a l IH]; intros [|b r] Hlen Hr; simpl in *;
    try discriminate; constructor.
  - inversion Hr; subst; lra.
  - apply IH; [lia | inversion Hr; assumption].
Qed.

(** ** The sampler *)

Section Sampler.

Variables mu logvar : tensor.
Hypothesis same_shape : Tensor.shape logvar = Tensor.shape mu.
Hypothesis wf_mu : Tensor.wf mu.
Hypothesis wf_logvar : Tensor.wf logvar.

(** What [sample] returns on any source: the draw is the first
    [numel] numbers of the source. *)
Lemma sample_eq s :
  sample mu logvar s =
  Ok (Tensor.mk (Tensor.shape mu)
        (zip_with Rplus (Tensor.data mu)
           (zip_with Rmult (std_data logvar)
              (List.map s (seq 0 (Tensor.numel (Tensor.shape mu)))))),
      fun i => s (i + Tensor.numel (Tensor.shape mu))%nat).
Proof.
  unfold sample, bindM, lift, rand_like, Tensor.mul, Tensor.add; simpl.
  rewrite map2_ok by reflexivity; simpl.
  rewrite map2_ok by (simpl; symmetry; exact same_shape); simpl.
  rewrite same_shape. reflexivity.
Qed.

Lemma std_data_length :
  length (std_data logvar) = Tensor.numel (Tensor.shape mu).
Proof.
  unfold std_data. rewrite !length_map, <- same_shape. exact wf_logvar.
Qed.

Lemma std_data_nth i :
  (i < Tensor.numel (Tensor.shape mu))%nat ->
  nth i (std_data logvar) 0 = exp (Tensor.get logvar i / 2).
Proof.
  intros Hi. unfold std_data, Tensor.get.
  assert (Hl : (i < length (Tensor.data logvar))%nat)
    by (rewrite wf_logvar, same_shape; exact Hi).
  rewrite (nth_indep _ 0 (exp (0 / 2))) by (rewrite !length_map; exact Hl).
  rewrite (map_nth exp), (map_nth (fun v => v / 2)). reflexivity.
Qed.

End Sampler.

(** C1. Given the noise draw [eps], of the shape of [mu] and [logvar], the
    sampler returns [mu + exp(logvar/2) * eps] element by element; on the
    literal inputs mu = [0], logvar = [0], eps = [1] it returns [1]. *)
Theorem sample_reparameterization :
  (forall (mu logvar eps : tensor) (rest : noise),
      Tensor.shape logvar = Tensor.shape mu ->
      Tensor.shape eps = Tensor.shape mu ->
      Tensor.wf mu -> Tensor.wf logvar -> Tensor.wf eps ->
      exists z s',
        sample mu logvar (source_of (Tensor.data eps) rest) = Ok (z, s') /\
        (forall i, s' i = rest i) /\
        Tensor.shape z = Tensor.shape mu /\
        Tensor.wf z /\
        forall i, (i < Tensor.numel (Tensor.shape mu))%nat ->
          Tensor.get z i =
          Tensor.get mu i + exp (Tensor.get logvar i / 2) * Tensor.get eps i) /\
  (forall rest : noise,
      exists s', sample (vec [0]) (vec [0]) (source_of [1] rest) = Ok (vec [1], s')).
Proof.
  split.
  - intros mu logvar eps rest Hs He Wm Wl We.
    pose proof (std_data_length mu logvar Hs Wl) as Hstd.
    assert (Hn : length (Tensor.data eps) = Tensor.numel (Tensor.shape mu))
      by (rewrite <- He; exact We).
    do 2 eexists. split; [apply sample_eq; assumption|].
    rewrite <- Hn, source_of_prefix.
    split; [intros i; apply source_of_rest|].
    split; [reflexivity|]. split.
    + unfold Tensor.wf; simpl. rewrite !zip_with_length, Hstd, Hn, Wm. lia.
    + intros i Hi. rewrite Hn in Hi. unfold Tensor.get at 1; simpl.
      rewrite (zip_with_nth _ _ _ _ 0 0);
        [| rewrite Wm; exact Hi | rewrite zip_with_length, Hstd, Hn; lia].
      rewrite (zip_with_nth _ _ _ _ 0 0);
        [| rewrite Hstd; exact Hi | rewrite Hn; exact Hi].
      rewrite (std_data_nth mu logvar Hs Wl i Hi). reflexivity.
  - intros rest. eexists. rewrite sample_eq by reflexivity. unfold vec; simpl.
    unfold source_of at 1; simpl.
    replace (0 / 2) with 0 by lra. rewrite exp_0.
    replace (0 + 1 * 1) with 1 by lra. reflexivity.
Qed.

Lemma sample_reparameterization_witness :
  exists z s',
    sample (vec [1; 2]) (vec [0; 0]) (source_of [1; 0] (fun _ => 0)) = Ok (z, s') /\
    Tensor.get z 1 = 2 + exp (0 / 2) * 0.
Proof.
  destruct (proj1 sample_reparameterization (vec [1; 2]) (vec [0; 0])
              (vec [1; 0]) (fun _ => 0)) as (z & s' & Hz & _ & _ & _ & Hget);
    try reflexivity.
  exists z, s'. split; [exact Hz|]. apply (Hget 1%nat). simpl; lia.
Defined.

Lemma map_wf f x : Tensor.wf x -> Tensor.wf (Tensor.map f x).
Proof.
  unfold Tensor.wf, Tensor.map; simpl. rewrite length_map. auto.
Qed.

Lemma get_nonneg (x : tensor) (j : nat) :
  Forall (fun v => 0 <= v) (Tensor.data x) -> 0 <= Tensor.get x j.
Proof.
  intros H. unfold Tensor.get.
  destruct (nth_in_or_default j (Tensor.data x) 0) as [Hin | ->]; [|lra].
  rewrite Forall_forall in H. auto.
Qed.

(** The term that [sample] adds to [mu]: [std * eps], of the shape of
    [logvar]. *)
Lemma sample_unfold (mu logvar : tensor) (s : noise) :
  sample mu logvar s =
  match Tensor.add mu
          (Tensor.mk (Tensor.shape logvar)
             (zip_with Rmult (std_data logvar)
                (List.map s (seq 0 (Tensor.numel (Tensor.shape logvar))))))
  with
  | Ok z => Ok (z, fun i => s (i + Tensor.numel (Tensor.shape logvar))%nat)
  | Raise e => Raise e
  end.
Proof.
  unfold sample, bindM, lift, rand_like, Tensor.mul.
  cbn [Tensor.shape Tensor.exp Tensor.map].
  rewrite map2_ok by reflexivity. reflexivity.
Qed.

(** The float operations on values that binary32 holds exactly, where
    [exp] is fixed: [3 + exp(0/2) * 0.5 = 3.5],
    [-1/2 * (1 + 0 - 3^2 - exp(0)) = 4.5] and [5 + 2 * 4.5 = 14]. *)
Lemma F32_sample_exact (libm : F32.t -> F32.t) :
  F32.sample libm (F32.of_Z 3 0) F32.zero (F32.of_Z 1 (-1)) = F32.of_Z 7 (-1).
Proof. reflexivity. Qed.

Lemma F32_kld_exact (libm : F32.t -> F32.t) :
  F32.kld libm (F32.of_Z 3 0) F32.zero = F32.of_Z 9 (-1).
Proof. reflexivity. Qed.

Lemma F32_vae_loss_exact (libm : F32.t -> F32.t) :
  F32.vae_loss libm (F32.of_Z 5 0) (F32.of_Z 3 0) F32.zero F32.two
  = F32.of_Z 14 0.
Proof. reflexivity. Qed.

(** C10, as the specification states it, fails on the floats of the code.
    With [logvar] = 200 the standard deviation [exp(100)] overflows to
    infinity; with the draw 0, which [rand_like] can give, the product is
    NaN and so is the sample, whatever the mean: it is not above the mean
    1. *)
Lemma sample_f32_is_nan_where_exp_overflows :
  (forall libm, F32.sample libm F32.one (F32.of_Z 200 0) F32.zero = F32.nan) /\
  F32.leb F32.one F32.nan = false /\
  ~ spec_sample_not_below_mean_f32.
Proof.
  split; [intros libm; reflexivity|]. split; [reflexivity|].
  intros H.
  specialize (H (fun x => x) F32.one (F32.of_Z 200 0) F32.zero
                eq_refl eq_refl eq_refl eq_refl).
  vm_compute in H. discriminate H.
Qed.

Lemma std_data_get (logvar : tensor) (j : nat) :
  Tensor.wf logvar -> (j < Tensor.numel (Tensor.shape logvar))%nat ->
  nth j (std_data logvar) 0 = exp (Tensor.get logvar j / 2).
Proof.
  intros Wl Hj. unfold std_data, Tensor.get.
  rewrite (nth_indep _ 0 (exp (0 / 2))) by (rewrite !length_map, Wl; exact Hj).
  rewrite (map_nth exp), (map_nth (fun v => v / 2)). reflexivity.
Qed.

(** C10, amended.  In exact arithmetic, on a source of numbers in [0, 1),
    as [torch.rand_like] gives, every coordinate of the sample is the
    coordinate of [mu] plus [exp(logvar / 2)] times a draw in [0, 1), and
    so at least the coordinate of [mu]; this for every [mu] and [logvar]
    that the sampler can combine: of one shape, or of shapes that
    broadcast.  On other shapes the sampler raises. *)
Theorem sample_not_below_mean (mu logvar : tensor) (s : noise) :
  Tensor.wf mu -> Tensor.wf logvar ->
  uniform_source s ->
  match sample mu logvar s with
  | Ok (z, _) =>
      Tensor.broadcast_shapes (Tensor.shape mu) (Tensor.shape logvar)
        = Some (Tensor.shape z) /\
      (forall i, (i < Tensor.numel (Tensor.shape z))%nat ->
         let eps := s (Tensor.bindex (Tensor.shape z) (Tensor.shape logvar) i) in
         0 <= eps < 1 /\
         Tensor.get z i =
           Tensor.expand (Tensor.shape z) mu i
           + exp (Tensor.expand (Tensor.shape z) logvar i / 2) * eps /\
         Tensor.expand (Tensor.shape z) mu i <= Tensor.get z i) /\
      (Tensor.shape logvar = Tensor.shape mu ->
         Tensor.shape z = Tensor.shape mu /\
         Forall2 Rle (Tensor.data mu) (Tensor.data z))
  | Raise e =>
      e = ShapeError /\
      Tensor.broadcast_shapes (Tensor.shape mu) (Tensor.shape logvar) = None
  end.
Proof.
  intros Wm Wl Hu. rewrite sample_unfold.
  set (n := Tensor.numel (Tensor.shape logvar)).
  set (r := Tensor.mk (Tensor.shape logvar)
              (zip_with Rmult (std_data logvar) (List.map s (seq 0 n)))).
  assert (Hstd : length (std_data logvar) = n)
    by (unfold std_data; rewrite !length_map; exact Wl).
  assert (Wr : Tensor.wf r).
  { unfold Tensor.wf, r. cbn [Tensor.shape Tensor.data].
    rewrite zip_with_length, Hstd, length_map, length_seq. fold n. lia. }
  assert (Pr : Forall (fun v => 0 <= v) (Tensor.data r)).
  { unfold r. cbn [Tensor.data].
    apply Forall_zip_with
      with (P := fun v => 0 < v) (Q := fun v => 0 <= v < 1).
    - intros a b Ha Hb. apply Rmult_le_pos; lra.
    - apply Forall_forall. intros v Hv.
      apply in_map_iff in Hv. destruct Hv as (w & <- & _). apply exp_pos.
    - apply Forall_forall. intros v Hv.
      apply in_map_iff in Hv. destruct Hv as (i & <- & _). apply Hu. }
  destruct (Tensor.add mu r) as [z|e] eqn:Ea.
  - destruct (map2_inv Rplus mu r z Wm Wr Ea) as (Hb & Wz & Hget).
    change (Tensor.shape r) with (Tensor.shape logvar) in Hb.
    split; [exact Hb|]. split.
    + intros i Hi eps. split; [apply Hu|].
      destruct (broadcast_shapes_inv _ _ _ Hb) as (_ & Hel).
      pose proof (bindex_lt _ _ i Hel Hi) as Hj.
      assert (Er : Tensor.expand (Tensor.shape z) r i =
                   exp (Tensor.expand (Tensor.shape z) logvar i / 2) * eps).
      { unfold Tensor.expand, eps.
        change (Tensor.shape r) with (Tensor.shape logvar).
        set (j := Tensor.bindex (Tensor.shape z) (Tensor.shape logvar) i) in *.
        unfold Tensor.get at 1.
        change (Tensor.data r)
          with (zip_with Rmult (std_data logvar) (List.map s (seq 0 n))).
        rewrite (zip_with_nth _ _ _ _ 0 0)
          by (rewrite ?Hstd, ?length_map, ?length_seq; exact Hj).
        rewrite (std_data_get logvar j Wl Hj), nth_map_seq by exact Hj.
        reflexivity. }
      rewrite (Hget i Hi), Er. split; [reflexivity|].
      pose proof (exp_pos (Tensor.expand (Tensor.shape z) logvar i / 2)).
      pose proof (Hu (Tensor.bindex (Tensor.shape z) (Tensor.shape logvar) i)).
      fold eps in H0. nra.
    + intros Hs. unfold Tensor.add in Ea.
      rewrite map2_ok in Ea by (symmetry; exact Hs). injection Ea as <-.
      split; [reflexivity|]. cbn [Tensor.data]. apply Forall2_le_add.
      * rewrite zip_with_length, Hstd, length_map, length_seq.
        unfold n. rewrite Hs, Wm. lia.
      * exact Pr.
  - exact (map2_raise _ _ _ _ Ea).
Qed.

Lemma sample_not_below_mean_witness :
  exists z s',
    sample (vec [1; 2]) (Tensor.mk [1]%nat [0]) (fun _ => 1 / 2) = Ok (z, s') /\
    Tensor.shape z = [2]%nat /\
    forall i, (i < 2)%nat -> Tensor.expand [2]%nat (vec [1; 2]) i <= Tensor.get z i.
Proof.
  pose proof (sample_not_below_mean (vec [1; 2]) (Tensor.mk [1]%nat [0])
                (fun _ => 1 / 2) eq_refl eq_refl ltac:(intros i; lra)) as H.
  destruct (sample (vec [1; 2]) (Tensor.mk [1]%nat [0]) (fun _ => 1 / 2))
    as [[z s']|e].
  - destruct H as (Hb & Hle & _). injection Hb as Hb.
    exists z, s'. split; [reflexivity|]. split; [symmetry; exact Hb|].
    rewrite Hb. intros i Hi.
    apply Hle. rewrite <- Hb. simpl. lia.
  - destruct H as (_ & Hb). discriminate Hb.
Defined.

(** ** The loss *)

Lemma kld_data_eq (ms ls : list R) :
  zip_with Rminus
    (zip_with Rminus (List.map (Rplus 1) ls) (List.map (fun v => v ^ 2) ms))
    (List.map exp ls)
  = zip_with (fun m l => kl_term m l) ms ls.
Proof.
  revert ms; induction ls as [|l ls IH]; intros [|m ms]; simpl; auto.
  rewrite IH. reflexivity.
Qed.

Lemma kld_eq mu logvar :
  Tensor.shape logvar = Tensor.shape mu ->
  kld mu logvar =
  Ok (-1 / 2 * Rsum (zip_with kl_term (Tensor.data mu) (Tensor.data logvar))).
Proof.
  intros Hs. unfold kld, Tensor.sub.
  rewrite map2_ok by exact Hs; simpl.
  rewrite map2_ok by reflexivity; simpl.
  unfold Tensor.sum; simpl. rewrite kld_data_eq. reflexivity.
Qed.

Lemma kl_term_nonpos m l : kl_term m l <= 0.
Proof.
  unfold kl_term. pose proof (exp_ineq1_le l). nra.
Qed.

Lemma kl_term_zero m l : kl_term m l = 0 <-> m = 0 /\ l = 0.
Proof.
  unfold kl_term. split.
  - intros H. pose proof (exp_ineq1_le l) as Hl.
    assert (Hm : m = 0) by nra. split; [exact Hm|].
    destruct (Req_dec l 0) as [E|E]; [exact E|].
    pose proof (exp_ineq1 l E). subst m. lra.
  - intros [-> ->]. rewrite exp_0. lra.
Qed.

Lemma Rsum_scal c l : c * Rsum l = Rsum (List.map (Rmult c) l).
Proof.
  induction l as [|a l IH]; simpl; [lra|]. rewrite <- IH. lra.
Qed.

Lemma kl_halves_nonneg ms ls :
  Forall (fun v => 0 <= v) (List.map (Rmult (-1 / 2)) (zip_with kl_term ms ls)).
Proof.
  apply Forall_forall. intros v Hv. apply in_map_iff in Hv.
  destruct Hv as (w & <- & Hw).
  assert (Hw' : Forall (fun v => v <= 0) (zip_with kl_term ms ls)).
  { apply Forall_zip_with with (P := fun _ => True) (Q := fun _ => True).
    - intros; apply kl_term_nonpos.
    - apply Forall_forall; auto.
    - apply Forall_forall; auto. }
  rewrite Forall_forall in Hw'. specialize (Hw' w Hw). lra.
Qed.

Lemma kl_terms_zero ms ls :
  length ms = length ls ->
  Forall (fun v => v = 0) (List.map (Rmult (-1 / 2)) (zip_with kl_term ms ls)) <->
  Forall (fun v => v = 0) ms /\ Forall (fun v => v = 0) ls.
Proof.
  revert ls; induction ms as [|m ms IH]; intros [|l ls] Hlen; simpl in *;
    try discriminate.
  - split; auto.
  - injection Hlen as Hlen. specialize (IH ls Hlen). split.
    + intros H. inversion H; subst.
      assert (Hk : kl_term m l = 0) by lra.
      apply kl_term_zero in Hk. destruct Hk as [-> ->].
      apply IH in H3. destruct H3. split; constructor; auto.
    + intros [Hm Hl]. inversion Hm; inversion Hl; subst.
      constructor.
      * assert (Hk : kl_term 0 0 = 0) by (apply kl_term_zero; auto). lra.
      * apply IH; auto.
Qed.

Lemma big_nonpos n f :
  (forall i, (i < n)%nat -> f i <= 0) -> big n f <= 0.
Proof.
  induction n as [|n IH]; intros H; simpl; [lra|].
  pose proof (H n ltac:(lia)). pose proof (IH ltac:(intros i Hi; apply H; lia)). lra.
Qed.

Lemma big_nonpos_zero n f :
  (forall i, (i < n)%nat -> f i <= 0) ->
  (big n f = 0 <-> forall i, (i < n)%nat -> f i = 0).
Proof.
  induction n as [|n IH]; intros H; simpl.
  - split; [intros _ i Hi; lia | reflexivity].
  - assert (Hn : forall i, (i < n)%nat -> f i <= 0) by (intros i Hi; apply H; lia).
    pose proof (H n ltac:(lia)) as Hfn. pose proof (big_nonpos n f Hn) as Hb.
    specialize (IH Hn). split.
    + intros E i Hi. destruct (Nat.eq_dec i n) as [->|Hne]; [lra|].
      apply IH; [lra | lia].
    + intros E. rewrite (proj2 IH) by (intros i Hi; apply E; lia).
      rewrite (E n) by lia. lra.
Qed.

(** The KL term on operands of any shapes: the sum runs over the positions
    of the broadcast shape. *)
Lemma kld_inv (mu logvar : tensor) :
  Tensor.wf mu -> Tensor.wf logvar ->
  match kld mu logvar with
  | Ok k =>
      exists out,
        Tensor.broadcast_shapes (Tensor.shape logvar) (Tensor.shape mu) = Some out /\
        k = -1 / 2 * big (Tensor.numel out) (fun i =>
              kl_term (Tensor.expand out mu i) (Tensor.expand out logvar i))
  | Raise e =>
      e = ShapeError /\
      Tensor.broadcast_shapes (Tensor.shape logvar) (Tensor.shape mu) = None
  end.
Proof.
  intros Wm Wl. unfold kld, Tensor.sub.
  destruct (Tensor.map2 Rminus (Tensor.map (Rplus 1) logvar) (Tensor.pow mu 2))
    as [a|e] eqn:Ea; [|exact (map2_raise _ _ _ _ Ea)].
  destruct (map2_inv _ _ _ _ (map_wf _ _ Wl) (map_wf _ _ Wm) Ea)
    as (Hb & Wa & Hget).
  cbn [Tensor.shape Tensor.map Tensor.pow] in Hb.
  destruct (broadcast_shapes_inv _ _ _ Hb) as (Hel & Hem).
  pose proof (expands_broadcast_shapes _ _ Hel) as Habs.
  rewrite bind_Ok.
  destruct (Tensor.map2 Rminus a (Tensor.exp logvar)) as [b|e] eqn:Eb.
  - destruct (map2_inv _ _ _ _ Wa (map_wf _ _ Wl) Eb) as (Hb2 & Wb & Hget2).
    cbn [Tensor.shape Tensor.exp Tensor.map] in Hb2.
    rewrite Habs in Hb2. injection Hb2 as Hsh.
    rewrite bind_Ok. exists (Tensor.shape a). split; [exact Hb|].
    f_equal. unfold Tensor.sum. rewrite Rsum_big, Wb, <- Hsh.
    apply big_ext. intros i Hi.
    change (nth i (Tensor.data b) 0) with (Tensor.get b i).
    rewrite Hget2 by (rewrite <- Hsh; exact Hi). rewrite <- Hsh.
    rewrite expand_same, Hget by exact Hi.
    unfold Tensor.pow, Tensor.exp.
    rewrite !expand_map by assumption. reflexivity.
  - destruct (map2_raise _ _ _ _ Eb) as (_ & Hn).
    cbn [Tensor.shape Tensor.exp Tensor.map] in Hn. congruence.
Qed.

Lemma kld_nonneg_inv (mu logvar : tensor) (k : R) :
  Tensor.wf mu -> Tensor.wf logvar -> kld mu logvar = Ok k -> 0 <= k.
Proof.
  intros Wm Wl E. pose proof (kld_inv mu logvar Wm Wl) as H. rewrite E in H.
  destruct H as (out & _ & ->).
  pose proof (big_nonpos (Tensor.numel out)
                (fun i => kl_term (Tensor.expand out mu i) (Tensor.expand out logvar i))
                ltac:(intros; apply kl_term_nonpos)).
  lra.
Qed.

(** C3, as the specification states it, fails on the floats of the code.
    With [mu] = 2^-60 and [logvar] = 0, [1 - mu^2] rounds to 1 and the KL
    term is a zero, but [mu] is not. *)
Lemma kld_f32_is_zero_at_small_mu :
  (forall libm,
      F32.kld libm (F32.of_Z 1 (-60)) F32.zero = SpecFloat.S754_zero true) /\
  F32.eqb (SpecFloat.S754_zero true) F32.zero = true /\
  F32.eqb (F32.of_Z 1 (-60)) F32.zero = false /\
  ~ spec_kld_zero_iff_f32.
Proof.
  split; [intros libm; reflexivity|]. split; [reflexivity|]. split; [reflexivity|].
  intros H.
  destruct (H (fun x => x) (F32.of_Z 1 (-60)) F32.zero eq_refl eq_refl) as [H1 _].
  destruct (H1 eq_refl) as [Hmu _]. vm_compute in Hmu. discriminate Hmu.
Qed.

(** C3, amended.  In exact arithmetic the KL term is [-1/2] times the sum
    of [1 + logvar - mu^2 - exp(logvar)] over the positions of [mu] and
    [logvar], and it is zero exactly when [mu] and [logvar] are zero at
    every position: for operands of one shape, when every element of [mu]
    and of [logvar] is zero.  On shapes that do not broadcast the term
    raises.  On floats the term is zero at [mu] = 0 and [logvar] = 0 as
    well, whatever the signs of the zeros. *)
Theorem kld_zero_iff (mu logvar : tensor) :
  Tensor.wf mu -> Tensor.wf logvar ->
  (forall libm sign_mu sign_logvar,
      F32.eqb (F32.kld libm (SpecFloat.S754_zero sign_mu)
                 (SpecFloat.S754_zero sign_logvar)) F32.zero = true) /\
  match kld mu logvar with
  | Ok k =>
      exists out,
        Tensor.broadcast_shapes (Tensor.shape logvar) (Tensor.shape mu) = Some out /\
        k = -1 / 2 * big (Tensor.numel out) (fun i =>
              1 + Tensor.expand out logvar i - Tensor.expand out mu i ^ 2
                - exp (Tensor.expand out logvar i)) /\
        (k = 0 <->
         forall i, (i < Tensor.numel out)%nat ->
           Tensor.expand out mu i = 0 /\ Tensor.expand out logvar i = 0)
  | Raise e =>
      e = ShapeError /\
      Tensor.broadcast_shapes (Tensor.shape logvar) (Tensor.shape mu) = None
  end /\
  (Tensor.shape logvar = Tensor.shape mu ->
   exists k,
     kld mu logvar = Ok k /\
     (k = 0 <->
      Forall (fun v => v = 0) (Tensor.data mu) /\
      Forall (fun v => v = 0) (Tensor.data logvar))).
Proof.
  intros Wm Wl.
  split; [intros libm [|] [|]; reflexivity|]. split.
  - pose proof (kld_inv mu logvar Wm Wl) as H.
    destruct (kld mu logvar) as [k|e]; [|exact H].
    destruct H as (out & Hb & ->). exists out. split; [exact Hb|].
    split; [reflexivity|].
    pose proof (big_nonpos_zero (Tensor.numel out)
                  (fun i => kl_term (Tensor.expand out mu i) (Tensor.expand out logvar i))
                  ltac:(intros; apply kl_term_nonpos)) as Hz.
    split.
    + intros E i Hi. apply kl_term_zero. apply (proj1 Hz); [lra | exact Hi].
    + intros E. rewrite (proj2 Hz); [lra|].
      intros i Hi. apply kl_term_zero. apply E. exact Hi.
  - intros Hs. eexists. split; [apply kld_eq; exact Hs|].
    rewrite Rsum_scal, Rsum_zero_iff by apply kl_halves_nonneg.
    apply kl_terms_zero. rewrite Wm, Wl, Hs. reflexivity.
Qed.

Lemma kld_zero_iff_witness :
  exists k,
    kld (vec [0; 0]) (vec [0; 0]) = Ok k /\
    (k = 0 <-> Forall (fun v => v = 0) [0; 0] /\ Forall (fun v => v = 0) [0; 0]).
Proof.
  apply (proj2 (proj2 (kld_zero_iff (vec [0; 0]) (vec [0; 0]) eq_refl eq_refl))
           eq_refl).
Defined.

Lemma in_unit_spec v : in_unit v = true <-> unit_interval v.
Proof.
  unfold in_unit, Rleb, unit_interval.
  destruct (Rle_dec 0 v), (Rle_dec v 1); simpl; split; intros H;
    try discriminate; try reflexivity; try lra.
Qed.

Lemma forallb_in_unit (l : list R) :
  forallb in_unit l = true <-> Forall unit_interval l.
Proof.
  rewrite forallb_forall, Forall_forall. split; intros H v Hv;
    apply in_unit_spec, H, Hv.
Qed.

Lemma bce_eq x_recon x :
  Tensor.shape x = Tensor.shape x_recon ->
  Forall unit_interval (Tensor.data x_recon) ->
  Forall unit_interval (Tensor.data x) ->
  binary_cross_entropy_sum x_recon x =
  Ok (Rsum (zip_with bce_elem (Tensor.data x_recon) (Tensor.data x))).
Proof.
  intros Hs Hr Hx. unfold binary_cross_entropy_sum.
  destruct (list_eq_dec Nat.eq_dec (Tensor.shape x) (Tensor.shape x_recon));
    [|contradiction].
  rewrite (proj2 (forallb_in_unit _) Hr), (proj2 (forallb_in_unit _) Hx).
  reflexivity.
Qed.


Lemma clamp_log_nonpos p : p <= 1 -> clamp_log p <= 0.
Proof.
  intros Hp. unfold clamp_log. destruct (Rlt_dec 0 p) as [H|H]; [|lra].
  apply Rmax_lub; [|lra].
  destruct (Req_dec p 1) as [->|Hne]; [rewrite ln_1; lra|].
  rewrite <- ln_1. left. apply ln_increasing; lra.
Qed.

Lemma bce_elem_nonneg p y : unit_interval p -> unit_interval y -> 0 <= bce_elem p y.
Proof.
  unfold unit_interval, bce_elem. intros Hp Hy.
  pose proof (clamp_log_nonpos p) as H1.
  pose proof (clamp_log_nonpos (1 - p)) as H2. nra.
Qed.

(** Away from the clamp the element is the cross-entropy of the
    specification. *)
Lemma bce_elem_unclamped p y :
  exp (-100) <= p <= 1 - exp (-100) ->
  bce_elem p y = spec_bce_elem p y.
Proof.
  intros [H1 H2]. pose proof (exp_pos (-100)) as He.
  assert (Hc : forall q, exp (-100) <= q -> clamp_log q = ln q).
  { intros q Hq. unfold clamp_log. destruct (Rlt_dec 0 q) as [H|H]; [|lra].
    apply Rmax_left. rewrite <- (ln_exp (-100)).
    destruct Hq as [Hq|Hq]; [left; apply ln_increasing; lra | rewrite Hq; lra]. }
  unfold bce_elem, spec_bce_elem. rewrite !Hc by lra. reflexivity.
Qed.

Lemma Rsum_zip_big f a b n :
  length a = n -> length b = n ->
  Rsum (zip_with f a b) = big n (fun i => f (nth i a 0) (nth i b 0)).
Proof.
  intros Ha Hb. rewrite Rsum_big, zip_with_length, Ha, Hb, Nat.min_id.
  apply big_ext. intros i Hi. apply zip_with_nth; lia.
Qed.

(** C6. The summed binary cross-entropy of a reconstruction in [0,1]
    against a target in [0,1] is not negative. *)
Theorem reconstruction_term_nonneg (x_recon x : tensor) :
  Tensor.shape x = Tensor.shape x_recon ->
  Forall unit_interval (Tensor.data x_recon) ->
  Forall unit_interval (Tensor.data x) ->
  exists bce, binary_cross_entropy_sum x_recon x = Ok bce /\ 0 <= bce.
Proof.
  intros Hs Hr Hx. eexists. split; [apply bce_eq; assumption|].
  apply Rsum_nonneg.
  apply Forall_zip_with with (P := unit_interval) (Q := unit_interval);
    auto using bce_elem_nonneg.
Qed.

Lemma reconstruction_term_nonneg_witness :
  exists bce,
    binary_cross_entropy_sum (vec [0; 1 / 2; 1]) (vec [1; 1; 0]) = Ok bce /\
    0 <= bce.
Proof.
  apply (reconstruction_term_nonneg (vec [0; 1 / 2; 1]) (vec [1; 1; 0]));
    [reflexivity | |]; repeat constructor; unfold unit_interval; lra.
Defined.

(** ** The loss and the binary cross-entropy of the specification *)

Lemma exp_double x : exp (2 * x) = exp x * exp x.
Proof.
  replace (2 * x) with (x + x) by lra. apply exp_plus.
Qed.

Lemma ln_2_lower : 100 / 149 < ln 2.
Proof.
  set (t := 100 / 2384).
  pose proof (exp_ineq1_le (- t)) as H1.
  assert (E1 : 958 / 1000 <= exp (- t)) by (unfold t in *; lra).
  assert (E2 : 9177 / 10000 <= exp (2 * - t)) by (rewrite exp_double; nra).
  assert (E4 : 8421 / 10000 <= exp (2 * (2 * - t))) by (rewrite exp_double; nra).
  assert (E8 : 7091 / 10000 <= exp (2 * (2 * (2 * - t))))
    by (rewrite exp_double; nra).
  assert (E16 : 5028 / 10000 <= exp (2 * (2 * (2 * (2 * - t)))))
    by (rewrite exp_double; nra).
  replace (2 * (2 * (2 * (2 * - t)))) with (- (100 / 149)) in E16
    by (unfold t; lra).
  assert (Hl : ln (/ 2) < ln (exp (- (100 / 149))))
    by (apply ln_increasing; lra).
  rewrite ln_exp, ln_Rinv in Hl by lra. lra.
Qed.

Lemma ln_smallest_float : ln ((/ 2) ^ 149) < -100.
Proof.
  rewrite ln_pow, ln_Rinv by lra.
  pose proof ln_2_lower as H.
  replace (INR 149) with 149 by (rewrite INR_IZR_INZ; reflexivity). lra.
Qed.

(** C2, as the specification states it, fails for a reconstruction close
    to 0, such as 2^-149, the smallest positive 32-bit float, against the
    target 1: the cross-entropy is 149 ln 2, about 103.3, and the code
    returns the clamp, 100.  (At the reconstruction 0 the cross-entropy is
    infinite, and the code returns 100 as well.) *)
Lemma vae_loss_clamps_the_logarithm :
  vae_loss (Tensor.mk [1; 1]%nat [(/ 2) ^ 149]) (Tensor.mk [1; 1]%nat [1])
           (Tensor.mk [1; 1]%nat [0]) (Tensor.mk [1; 1]%nat [0]) None = Ok 100 /\
  100 < spec_vae_loss (Tensor.mk [1; 1]%nat [(/ 2) ^ 149]) (Tensor.mk [1; 1]%nat [1])
          (Tensor.mk [1; 1]%nat [0]) (Tensor.mk [1; 1]%nat [0]) 3 /\
  unit_interval ((/ 2) ^ 149).
Proof.
  pose proof ln_smallest_float as Hln.
  assert (Hp : 0 < (/ 2) ^ 149) by (apply pow_lt; lra).
  assert (Hp1 : (/ 2) ^ 149 <= 1).
  { rewrite <- (pow1 149). apply pow_incr. lra. }
  split; [|split; [|split; lra]].
  - unfold vae_loss. rewrite bce_eq, kld_eq; try reflexivity.
    + cbn [bind Tensor.data zip_with Rsum fold_right].
      unfold bce_elem, kl_term, clamp_log.
      destruct (Rlt_dec 0 ((/ 2) ^ 149)) as [_|Hn]; [|contradiction].
      rewrite Rmax_right by lra. rewrite exp_0. f_equal. lra.
    + repeat constructor; unfold unit_interval; lra.
    + repeat constructor; unfold unit_interval; lra.
  - unfold spec_vae_loss. cbn [Tensor.data zip_with Rsum fold_right].
    unfold spec_bce_elem, kl_term. rewrite exp_0. lra.
Qed.

Lemma get_Forall (P : R -> Prop) (x : tensor) (i : nat) :
  Forall P (Tensor.data x) -> (i < length (Tensor.data x))%nat -> P (Tensor.get x i).
Proof.
  intros H Hi. rewrite Forall_forall in H. apply H, nth_In, Hi.
Qed.

(** C2, amended.  The loss is the binary cross-entropy with each logarithm
    clamped at -100 from below, summed over the batch and the pixels, plus
    [beta] times [-1/2] times the sum over the batch and the latent
    coordinates of [1 + logvar - mu^2 - exp(logvar)]; [beta] is 3 when the
    call does not give it.  When every element of the reconstruction lies
    between e^-100 and 1 - e^-100 no logarithm is clamped, and the first
    sum is the binary cross-entropy itself. *)
Theorem vae_loss_formula (x_recon x mu logvar : tensor) (beta : option R)
    (batch latent_size : nat) (img : list nat) :
  Tensor.shape x_recon = batch :: img ->
  Tensor.shape x = batch :: img ->
  Tensor.wf x_recon -> Tensor.wf x ->
  Forall unit_interval (Tensor.data x_recon) ->
  Forall unit_interval (Tensor.data x) ->
  Tensor.shape mu = [batch; latent_size] ->
  Tensor.shape logvar = [batch; latent_size] ->
  Tensor.wf mu -> Tensor.wf logvar ->
  let pixels := Tensor.numel img in
  let b := match beta with Some b => b | None => 3 end in
  let log_clamped := fun v => if Rlt_dec 0 v then Rmax (ln v) (-100) else -100 in
  let kl :=
    -1 / 2 *
    big batch (fun n => big latent_size (fun j =>
      1 + Tensor.get logvar (n * latent_size + j)
        - Tensor.get mu (n * latent_size + j) ^ 2
        - exp (Tensor.get logvar (n * latent_size + j)))) in
  vae_loss x_recon x mu logvar beta =
  Ok (big batch (fun n => big pixels (fun p =>
        - (Tensor.get x (n * pixels + p)
             * log_clamped (Tensor.get x_recon (n * pixels + p))
           + (1 - Tensor.get x (n * pixels + p))
             * log_clamped (1 - Tensor.get x_recon (n * pixels + p)))))
      + b * kl) /\
  (Forall (fun v => exp (-100) <= v <= 1 - exp (-100)) (Tensor.data x_recon) ->
   vae_loss x_recon x mu logvar beta =
   Ok (big batch (fun n => big pixels (fun p =>
         - (Tensor.get x (n * pixels + p)
              * ln (Tensor.get x_recon (n * pixels + p))
            + (1 - Tensor.get x (n * pixels + p))
              * ln (1 - Tensor.get x_recon (n * pixels + p)))))
       + b * kl)).
Proof.
  intros Hr Hx Wr Wx Ur Ux Hm Hl Wm Wl pixels b log_clamped kl.
  assert (E : vae_loss x_recon x mu logvar beta =
              Ok (big batch (fun n => big pixels (fun p =>
                    bce_elem (Tensor.get x_recon (n * pixels + p))
                             (Tensor.get x (n * pixels + p))))
                  + b * kl)).
  { unfold vae_loss.
    rewrite bce_eq by (try congruence; assumption). simpl.
    rewrite kld_eq by congruence. simpl. fold b.
    unfold Tensor.wf in *. rewrite Hr in Wr. rewrite Hx in Wx.
    rewrite Hm in Wm. rewrite Hl in Wl. simpl in Wr, Wx, Wm, Wl.
    rewrite Nat.mul_1_r in Wm, Wl.
    rewrite (Rsum_zip_big bce_elem _ _ (batch * pixels)) by assumption.
    rewrite (Rsum_zip_big kl_term _ _ (batch * latent_size)) by assumption.
    rewrite !big_rows. reflexivity. }
  split; [exact E|].
  intros Hin. rewrite E. do 2 f_equal.
  apply big_ext. intros n Hn. apply big_ext. intros p Hp.
  apply (bce_elem_unclamped (Tensor.get x_recon (n * pixels + p))).
  apply (get_Forall _ x_recon _ Hin).
  unfold Tensor.wf in Wr. rewrite Wr, Hr. cbn [Tensor.numel fold_right].
  fold (Tensor.numel img). fold pixels. nia.
Qed.

Lemma vae_loss_formula_witness :
  vae_loss (Tensor.mk [1; 2]%nat [1 / 2; 1 / 2]) (Tensor.mk [1; 2]%nat [0; 1])
           (Tensor.mk [1; 1]%nat [0]) (Tensor.mk [1; 1]%nat [0]) None =
  Ok (big 1 (fun n => big 2 (fun p =>
        - (Tensor.get (Tensor.mk [1; 2]%nat [0; 1]) (n * 2 + p)
             * ln (Tensor.get (Tensor.mk [1; 2]%nat [1 / 2; 1 / 2]) (n * 2 + p))
           + (1 - Tensor.get (Tensor.mk [1; 2]%nat [0; 1]) (n * 2 + p))
             * ln (1 - Tensor.get (Tensor.mk [1; 2]%nat [1 / 2; 1 / 2]) (n * 2 + p)))))
      + 3 * (-1 / 2 *
             big 1 (fun n => big 1 (fun j =>
               1 + Tensor.get (Tensor.mk [1; 1]%nat [0]) (n * 1 + j)
                 - Tensor.get (Tensor.mk [1; 1]%nat [0]) (n * 1 + j) ^ 2
                 - exp (Tensor.get (Tensor.mk [1; 1]%nat [0]) (n * 1 + j)))))).
Proof.
  assert (He : exp (-100) <= 1 / 2 <= 1 - exp (-100)).
  { pose proof (exp_pos (-100)) as Hp.
    assert (Hl : exp (-100) < exp (ln (/ 2))).
    { apply exp_increasing. rewrite ln_Rinv by lra.
      pose proof ln_lt_2. pose proof ln_2_lower. 
      assert (ln 2 < 100); [|lra].
      rewrite <- (ln_exp 100). apply ln_increasing; [lra|].
      pose proof (exp_ineq1 100). lra. }
    rewrite exp_ln in Hl by lra. lra. }
  apply (proj2 (vae_loss_formula
                  (Tensor.mk [1; 2]%nat [1 / 2; 1 / 2]) (Tensor.mk [1; 2]%nat [0; 1])
                  (Tensor.mk [1; 1]%nat [0]) (Tensor.mk [1; 1]%nat [0]) None
                  1%nat 1%nat [2%nat]
                  eq_refl eq_refl eq_refl eq_refl
                  ltac:(repeat constructor; unfold unit_interval; lra)
                  ltac:(repeat constructor; unfold unit_interval; lra)
                  eq_refl eq_refl eq_refl eq_refl)).
  cbn [Tensor.data].
  apply Forall_cons; [exact He|]. apply Forall_cons; [exact He|]. apply Forall_nil.
Defined.

(** ** The loss as a function of beta *)

(** C9, as the specification states it, fails on the floats of the code.
    With [logvar] = 200, [exp(logvar)] overflows and the KL term is
    infinite; with [beta] = 0 the product [beta * kld] is NaN, and so is
    the loss, whatever the reconstruction term: it is not below the loss at
    [beta] = 1. *)
Lemma vae_loss_f32_is_nan_at_beta_zero :
  (forall libm, F32.kld libm F32.zero (F32.of_Z 200 0) = F32.infinity) /\
  (forall libm bce,
      F32.vae_loss libm bce F32.zero (F32.of_Z 200 0) F32.zero = F32.nan) /\
  (forall v, F32.leb F32.nan v = false) /\
  ~ spec_vae_loss_monotone_f32.
Proof.
  split; [intros libm; reflexivity|].
  split; [intros libm bce; destruct bce; reflexivity|].
  split; [intros v; reflexivity|].
  intros H.
  specialize (H (fun x => x) F32.zero F32.zero (F32.of_Z 200 0) F32.zero F32.one
                eq_refl eq_refl eq_refl eq_refl eq_refl eq_refl).
  vm_compute in H. discriminate H.
Qed.

(** C9, amended.  In exact arithmetic the KL term, [-1/2] times the sum of
    [1 + logvar - mu^2 - exp(logvar)], is not negative, whatever [mu] and
    [logvar] are, and the loss is the reconstruction term plus [beta] times
    it: so the loss does not decrease when [beta] grows over the
    non-negative reals.  Where the loss raises, it raises the same error
    for every [beta].  It is defined when the reconstruction and the
    target lie in [0, 1] and have one shape, and [mu] and [logvar] have
    shapes that broadcast. *)
Theorem vae_loss_monotone_in_beta (x_recon x mu logvar : tensor) (b1 b2 : R) :
  Tensor.wf mu -> Tensor.wf logvar ->
  0 <= b1 -> b1 <= b2 ->
  (forall k, kld mu logvar = Ok k ->
     0 <= k /\
     exists out,
       Tensor.broadcast_shapes (Tensor.shape logvar) (Tensor.shape mu) = Some out /\
       k = -1 / 2 * big (Tensor.numel out) (fun i =>
             1 + Tensor.expand out logvar i - Tensor.expand out mu i ^ 2
               - exp (Tensor.expand out logvar i))) /\
  match vae_loss x_recon x mu logvar (Some b1),
        vae_loss x_recon x mu logvar (Some b2) with
  | Ok l1, Ok l2 =>
      l1 <= l2 /\
      exists bce k,
        binary_cross_entropy_sum x_recon x = Ok bce /\
        kld mu logvar = Ok k /\
        l1 = bce + b1 * k /\ l2 = bce + b2 * k
  | Raise e1, Raise e2 => e1 = e2
  | _, _ => False
  end /\
  (Tensor.shape x = Tensor.shape x_recon ->
   Forall unit_interval (Tensor.data x_recon) ->
   Forall unit_interval (Tensor.data x) ->
   Tensor.broadcast_shapes (Tensor.shape logvar) (Tensor.shape mu) <> None ->
   exists l1 l2,
     vae_loss x_recon x mu logvar (Some b1) = Ok l1 /\
     vae_loss x_recon x mu logvar (Some b2) = Ok l2 /\
     l1 <= l2).
Proof.
  intros Wm Wl H1 H2.
  pose proof (kld_nonneg_inv mu logvar) as Hk.
  pose proof (kld_inv mu logvar Wm Wl) as Hinv.
  split.
  { intros k E. split; [apply (Hk k Wm Wl E)|]. rewrite E in Hinv. exact Hinv. }
  unfold vae_loss. split.
  - destruct (binary_cross_entropy_sum x_recon x) as [bce|e]; [|reflexivity].
    destruct (kld mu logvar) as [k|e]; [|reflexivity].
    cbn [bind]. specialize (Hk k Wm Wl eq_refl).
    split; [nra|]. exists bce, k. repeat split.
  - intros Hs Ur Ux Hb. rewrite bce_eq by assumption.
    destruct (kld mu logvar) as [k|e]; [|destruct Hinv as (_ & Hn); contradiction].
    cbn [bind]. do 2 eexists. split; [reflexivity|]. split; [reflexivity|].
    specialize (Hk k Wm Wl eq_refl). nra.
Qed.

Lemma vae_loss_monotone_in_beta_witness :
  exists l1 l2,
    vae_loss (vec [1 / 2]) (vec [1]) (vec [1; 3]) (Tensor.mk [1]%nat [2]) (Some 1)
      = Ok l1 /\
    vae_loss (vec [1 / 2]) (vec [1]) (vec [1; 3]) (Tensor.mk [1]%nat [2]) (Some 4)
      = Ok l2 /\
    l1 <= l2.
Proof.
  apply (proj2 (proj2 (vae_loss_monotone_in_beta
                         (vec [1 / 2]) (vec [1]) (vec [1; 3]) (Tensor.mk [1]%nat [2])
                         1 4 eq_refl eq_refl ltac:(lra) ltac:(lra)))).
  - reflexivity.
  - repeat constructor; unfold unit_interval; lra.
  - repeat constructor; unfold unit_interval; lra.
  - discriminate.
Defined.

(** ** Shapes through the layers *)

Lemma flat_map_const_length {A B} (f : A -> list B) (l : list A) (m : nat) :
  (forall a, length (f a) = m) -> length (flat_map f l) = (length l * m)%nat.
Proof.
  intros H. induction l as [|a l IH]; simpl; [reflexivity|].
  rewrite length_app, H, IH. reflexivity.
Qed.

Lemma init2_length rows cols f :
  length (Tensor.init2 rows cols f) = (rows * cols)%nat.
Proof.
  unfold Tensor.init2. rewrite (flat_map_const_length _ _ cols).
  - rewrite length_seq. reflexivity.
  - intros r. rewrite length_map, length_seq. reflexivity.
Qed.

Lemma init4_length n c h w f :
  length (Tensor.init4 n c h w f) = Tensor.numel [n; c; h; w].
Proof.
  unfold Tensor.init4.
  rewrite (flat_map_const_length _ _ (c * (h * (w * 1)))%nat).
  - rewrite length_seq. reflexivity.
  - intros i. rewrite (flat_map_const_length _ _ (h * (w * 1))%nat).
    + rewrite length_seq. reflexivity.
    + intros j. rewrite (flat_map_const_length _ _ (w * 1)%nat).
      * rewrite length_seq. reflexivity.
      * intros k. rewrite length_map, length_seq. lia.
Qed.

Lemma Conv2d_forward_ok (l : Conv2d.t) (x : tensor) (n c h w : nat) :
  Tensor.shape x = [n; c; h; w] ->
  ((c =? Conv2d.in_channels l) && (0 <? Conv2d.stride l) &&
   (0 <? Conv2d.kernel_size l) &&
   (Conv2d.kernel_size l <=? h) && (Conv2d.kernel_size l <=? w))%nat = true ->
  exists y,
    Conv2d.forward l x = Ok y /\
    Tensor.shape y =
      [n; Conv2d.out_channels l; Conv2d.out_size l h; Conv2d.out_size l w] /\
    Tensor.wf y.
Proof.
  intros Hx Hg. unfold Conv2d.forward, Conv2d.forward_batched.
  rewrite Hx, Hg. eexists. split; [reflexivity|]. split; [reflexivity|].
  apply init4_length.
Qed.

Lemma ConvTranspose2d_forward_ok (l : ConvTranspose2d.t) (x : tensor)
    (n c h w : nat) :
  Tensor.shape x = [n; c; h; w] ->
  ((c =? ConvTranspose2d.in_channels l) && (0 <? ConvTranspose2d.stride l) &&
   (0 <? ConvTranspose2d.kernel_size l) &&
   (ConvTranspose2d.output_padding l <? ConvTranspose2d.stride l) &&
   (0 <? h) && (0 <? w))%nat = true ->
  exists y,
    ConvTranspose2d.forward l x = Ok y /\
    Tensor.shape y =
      [n; ConvTranspose2d.out_channels l;
       ConvTranspose2d.out_size l h; ConvTranspose2d.out_size l w] /\
    Tensor.wf y.
Proof.
  intros Hx Hg. unfold ConvTranspose2d.forward, ConvTranspose2d.forward_batched.
  rewrite Hx, Hg. eexists. split; [reflexivity|]. split; [reflexivity|].
  apply init4_length.
Qed.

Lemma Linear_forward_ok (l : Linear.t) (x : tensor) (n : nat) :
  Tensor.shape x = [n; Linear.in_features l] ->
  exists y,
    Linear.forward l x = Ok y /\
    Tensor.shape y = [n; Linear.out_features l] /\
    Tensor.wf y.
Proof.
  intros Hx. unfold Linear.forward. rewrite Hx. simpl last.
  rewrite Nat.eqb_refl. eexists. split; [reflexivity|]. split; [reflexivity|].
  unfold Tensor.wf. simpl. rewrite init2_length. lia.
Qed.

Lemma flatten_from_1_ok (x : tensor) (n c h w : nat) :
  Tensor.shape x = [n; c; h; w] ->
  Tensor.flatten_from_1 x = Ok (Tensor.mk [n; Tensor.numel [c; h; w]] (Tensor.data x)).
Proof.
  intros Hx. unfold Tensor.flatten_from_1. rewrite Hx. reflexivity.
Qed.

Lemma reshape_infer_ok (dims : list nat) (x : tensor) (n : nat) :
  Tensor.numel dims <> 0%nat ->
  Tensor.shape x = [n; Tensor.numel dims] ->
  Tensor.reshape_infer dims x = Ok (Tensor.mk (n :: dims) (Tensor.data x)).
Proof.
  intros Hp Hx. unfold Tensor.reshape_infer. rewrite Hx.
  generalize dependent (Tensor.numel dims). intros p Hp Hx.
  destruct (Nat.eqb_spec p 0); [contradiction|].
  replace (Tensor.numel [n; p]) with (n * p)%nat by (simpl; lia).
  rewrite Nat.Div0.mod_mul, Nat.div_mul by exact Hp. reflexivity.
Qed.

Lemma sigmoid_unit v : unit_interval (1 / (1 + exp (- v))).
Proof.
  unfold unit_interval. pose proof (exp_pos (- v)) as He.
  assert (Hp : 0 < 1 / (1 + exp (- v))) by (apply Rdiv_lt_0_compat; lra).
  assert (H : 1 / (1 + exp (- v)) * (1 + exp (- v)) = 1) by (field; lra).
  split; nra.
Qed.

(** ** The encoder *)

Lemma encoder_convolutions_ok (latent_size : nat) (theta : state_dict)
    (batch : nat) (x : tensor) :
  Tensor.shape x = [batch; 3; 64; 64]%nat ->
  exists h,
    Encoder.convolutions (Encoder.init latent_size theta) x = Ok h /\
    Tensor.shape h = [batch; 64; 7; 7]%nat.
Proof.
  intros Hx. set (e := Encoder.init latent_size theta).
  destruct (Conv2d_forward_ok (Encoder.conv1 e) x batch 3 64 64 Hx eq_refl)
    as (y1 & E1 & S1 & _).
  change (Tensor.shape (Tensor.relu y1) = [batch; 16; 31; 31]%nat) in S1.
  destruct (Conv2d_forward_ok (Encoder.conv2 e) _ batch 16 31 31 S1 eq_refl)
    as (y2 & E2 & S2 & _).
  change (Tensor.shape (Tensor.relu y2) = [batch; 32; 15; 15]%nat) in S2.
  destruct (Conv2d_forward_ok (Encoder.conv3 e) _ batch 32 15 15 S2 eq_refl)
    as (y3 & E3 & S3 & _).
  change (Tensor.shape (Tensor.relu y3) = [batch; 64; 7; 7]%nat) in S3.
  exists (Tensor.relu y3). split; [|exact S3].
  unfold Encoder.convolutions. rewrite E1, bind_Ok. cbv zeta.
  rewrite E2, bind_Ok. cbv zeta. rewrite E3, bind_Ok. reflexivity.
Qed.

Lemma encoder_forward_ok (latent : nat) (theta : state_dict)
    (batch : nat) (x : tensor) :
  Tensor.shape x = [batch; 3; 64; 64]%nat ->
  exists mu logvar,
    Encoder.forward (Encoder.init latent theta) x = Ok (mu, logvar) /\
    Tensor.shape mu = [batch; latent] /\
    Tensor.shape logvar = [batch; latent] /\
    Tensor.wf mu /\ Tensor.wf logvar.
Proof.
  intros Hx. set (e := Encoder.init latent theta).
  destruct (encoder_convolutions_ok latent theta batch x Hx) as (h & Eh & Sh).
  fold e in Eh.
  pose proof (flatten_from_1_ok h batch 64 7 7 Sh) as Ef.
  set (f := Tensor.mk [batch; Tensor.numel [64; 7; 7]%nat] (Tensor.data h)) in Ef.
  destruct (Linear_forward_ok (Encoder.fc_mu e) f batch eq_refl)
    as (mu & Em & Sm & Wm).
  destruct (Linear_forward_ok (Encoder.fc_logvar e) f batch eq_refl)
    as (logvar & El & Sl & Wl).
  exists mu, logvar. repeat split; try assumption.
  unfold Encoder.forward. rewrite Eh, bind_Ok, Ef, bind_Ok, Em, bind_Ok, El.
  reflexivity.
Qed.

(** C4. On a batch of shape (batch, 3, 64, 64) the three convolutions, each
    of stride 2, take the resolution from 64 to 31, 15 and 7, and the two
    linear heads return [mu] and [logvar] of shape (batch, latent_size). *)
Theorem encoder_output_shape (latent : nat) (theta : state_dict)
    (batch : nat) (x : tensor) :
  (0 < latent)%nat ->
  Tensor.shape x = [batch; 3; 64; 64]%nat ->
  let e := Encoder.init latent theta in
  (Conv2d.stride (Encoder.conv1 e) = 2%nat /\
   Conv2d.stride (Encoder.conv2 e) = 2%nat /\
   Conv2d.stride (Encoder.conv3 e) = 2%nat) /\
  (Conv2d.out_size (Encoder.conv1 e) 64 = 31%nat /\
   Conv2d.out_size (Encoder.conv2 e) 31 = 15%nat /\
   Conv2d.out_size (Encoder.conv3 e) 15 = 7%nat) /\
  (exists h,
    Encoder.convolutions e x = Ok h /\
    Tensor.shape h = [batch; 64; 7; 7]%nat) /\
  exists mu logvar,
    Encoder.forward e x = Ok (mu, logvar) /\
    Tensor.shape mu = [batch; latent] /\
    Tensor.shape logvar = [batch; latent] /\
    Tensor.wf mu /\ Tensor.wf logvar.
Proof.
  intros _ Hx e.
  split; [repeat split|]. split; [repeat split|].
  split; [apply encoder_convolutions_ok | apply encoder_forward_ok]; exact Hx.
Qed.

Lemma encoder_output_shape_witness :
  exists mu logvar,
    Encoder.forward (Encoder.init 16 (fun _ => vec []))
      (Tensor.mk [1; 3; 64; 64]%nat (repeat 0 (3 * 64 * 64))) = Ok (mu, logvar) /\
    Tensor.shape mu = [1; 16]%nat /\ Tensor.shape logvar = [1; 16]%nat.
Proof.
  destruct (encoder_output_shape 16 (fun _ => vec [])
              1 (Tensor.mk [1; 3; 64; 64]%nat (repeat 0 (3 * 64 * 64))))
    as (_ & _ & _ & mu & logvar & E & Sm & Sl & _);
    [lia | reflexivity |].
  exists mu, logvar. repeat split; assumption.
Defined.

(** ** The decoder *)

Lemma decoder_deconvolutions_ok (latent_size : nat) (theta : state_dict)
    (batch : nat) (z : tensor) :
  Tensor.shape z = [batch; latent_size] ->
  exists y,
    Decoder.deconvolutions (Decoder.init latent_size theta) z = Ok y /\
    Tensor.shape y = [batch; 3; 64; 64]%nat /\
    Tensor.wf y.
Proof.
  intros Hz. set (d := Decoder.init latent_size theta).
  destruct (Linear_forward_ok (Decoder.fc d) z batch Hz) as (y0 & E0 & S0 & _).
  change (Tensor.shape (Tensor.relu y0) = [batch; Tensor.numel [64; 7; 7]%nat]) in S0.
  assert (Hp : Tensor.numel [64; 7; 7]%nat <> 0%nat) by discriminate.
  pose proof (reshape_infer_ok [64; 7; 7]%nat _ batch Hp S0) as Er.
  set (r := Tensor.mk (batch :: [64; 7; 7]%nat) (Tensor.data (Tensor.relu y0))) in Er.
  destruct (ConvTranspose2d_forward_ok (Decoder.deconv1 d) r batch 64 7 7
              eq_refl eq_refl) as (y1 & E1 & S1 & _).
  change (Tensor.shape (Tensor.relu y1) = [batch; 32; 15; 15]%nat) in S1.
  destruct (ConvTranspose2d_forward_ok (Decoder.deconv2 d) _ batch 32 15 15
              S1 eq_refl) as (y2 & E2 & S2 & _).
  change (Tensor.shape (Tensor.relu y2) = [batch; 16; 31; 31]%nat) in S2.
  destruct (ConvTranspose2d_forward_ok (Decoder.deconv_recon d) _ batch 16 31 31
              S2 eq_refl) as (y3 & E3 & S3 & W3).
  change (Tensor.shape y3 = [batch; 3; 64; 64]%nat) in S3.
  exists y3. split; [|split; assumption].
  unfold Decoder.deconvolutions. rewrite E0, bind_Ok. cbv zeta.
  rewrite Er, bind_Ok, E1, bind_Ok. cbv zeta. rewrite E2, bind_Ok. cbv zeta.
  exact E3.
Qed.

Lemma decoder_forward_ok (latent : nat) (theta : state_dict)
    (batch : nat) (z : tensor) :
  Tensor.shape z = [batch; latent] ->
  exists x_recon,
    Decoder.forward (Decoder.init latent theta) z = Ok x_recon /\
    Tensor.shape x_recon = [batch; 3; 64; 64]%nat /\
    Tensor.wf x_recon /\
    Forall unit_interval (Tensor.data x_recon).
Proof.
  intros Hz.
  destruct (decoder_deconvolutions_ok latent theta batch z Hz)
    as (y & Ey & Sy & Wy).
  exists (Tensor.sigmoid y). unfold Decoder.forward.
  rewrite Ey, bind_Ok. split; [reflexivity|]. split; [exact Sy|].
  split; [apply map_wf; exact Wy|].
  apply Forall_forall. intros v Hv. simpl in Hv.
  apply in_map_iff in Hv. destruct Hv as (u & <- & _). apply sigmoid_unit.
Qed.



(** ** The data cell *)

Lemma slice_bound_neg (len : nat) (k : nat) :
  (0 < k)%nat -> slice_bound len (- Z.of_nat k) = (len - k)%nat.
Proof.
  intros Hk. unfold slice_bound.
  destruct (Z.ltb_spec (- Z.of_nat k) 0); lia.
Qed.

Lemma train_data_paths ps :
  paths (train_data ps) = firstn (length ps - 100) ps.
Proof.
  unfold train_data, slice_to; simpl. f_equal.
  apply (slice_bound_neg (length ps) 100). lia.
Qed.

Lemma test_data_paths ps :
  paths (test_data ps) = skipn (length ps - 100) ps.
Proof.
  unfold test_data, slice_from; simpl. f_equal.
  apply (slice_bound_neg (length ps) 100). lia.
Qed.

(** The cell binds its four names when there are more than 100 paths, and
    raises on the second of its four lines when there are not: the train
    split is then empty, and a shuffling loader cannot be built on it. *)
Lemma data_cell_cases (ps : list string) :
  ((100 < length ps)%nat /\
   data_cell ps =
   Ok {| bound_train_data := train_data ps; bound_train_loader := train_loader ps;
         bound_test_data := test_data ps; bound_test_loader := test_loader ps |}) \/
  ((length ps <= 100)%nat /\ data_cell ps = Raise ValueError).
Proof.
  unfold data_cell, DataLoader_init.
  change (Dataset_init (slice_to ps (- test_size))) with (train_data ps).
  change (Dataset_init (slice_from ps (- test_size))) with (test_data ps).
  cbn [Dataset_len fst andb]. rewrite train_data_paths, length_firstn.
  change (batch_size =? 0)%nat with false.
  destruct (Nat.eqb_spec (Nat.min (length ps - 100) (length ps)) 0) as [E|E].
  - right. split; [lia | reflexivity].
  - left. split; [lia | reflexivity].
Qed.

Lemma train_loader_len (ps : list string) :
  DataLoader_len (train_loader ps) = ((length ps - 100 + 3) / 4)%nat.
Proof.
  unfold DataLoader_len, Dataset_len. cbn [fst train_loader dataset loader_batch_size].
  rewrite train_data_paths, length_firstn. unfold batch_size.
  f_equal. lia.
Qed.

Lemma ten_batches_iff (ps : list string) :
  (10 <= DataLoader_len (train_loader ps) <-> 137 <= length ps)%nat.
Proof.
  rewrite train_loader_len.
  pose proof (Nat.div_mod_eq (length ps - 100 + 3) 4) as E.
  pose proof (Nat.mod_upper_bound (length ps - 100 + 3) 4 ltac:(lia)) as B.
  lia.
Qed.

(** The two cells in a row: the training cell runs on the train loader
    when there are more than 100 files, and is not reached when there are
    not. *)
Lemma train_on_train_loader (ext : Externals) (ps : list string)
    (theta : state_dict) (s : noise) :
  (100 < length ps)%nat ->
  train ext ps theta s =
  (st <~ epoch_loop ext (train_loader ps) (seq 1 epochs)
           {| params := theta; optim := Adam ext theta; output := [] |} ;;
   ret {| params := params st; optim := optim st;
          output := output st ++ [Saved "beta-vae.pth" (params st)] |}) s.
Proof.
  intros Hlen. unfold train.
  destruct (data_cell_cases ps) as [(_ & E) | (H & _)]; [|lia].
  unfold bindM at 1. unfold lift. rewrite E. reflexivity.
Qed.

Lemma train_without_train_split (ext : Externals) (ps : list string)
    (theta : state_dict) (s : noise) :
  (length ps <= 100)%nat -> train ext ps theta s = Raise ValueError.
Proof.
  intros Hlen. unfold train.
  destruct (data_cell_cases ps) as [(H & _) | (_ & E)]; [lia|].
  unfold bindM, lift. rewrite E. reflexivity.
Qed.

(** C7, as the specification states it, fails on a directory of one file:
    the train split is empty, the cell raises when it builds the train
    loader, and no test split is made. *)
Lemma data_cell_raises_on_one_file :
  data_cell ["a.jpg"%string] = Raise ValueError /\
  ~ spec_split ["a.jpg"%string].
Proof.
  assert (E : data_cell ["a.jpg"%string] = Raise ValueError).
  { destruct (data_cell_cases ["a.jpg"%string]) as [(H & _) | (_ & E)];
      [simpl in H; lia | exact E]. }
  split; [exact E|].
  intros (names & first_paths & last_paths & Hc & _).
  rewrite E in Hc. discriminate Hc.
Qed.

(** C7, amended.  On a list of more than 100 paths the data cell binds its
    names: the train split followed by the test split is the path list, in
    its order, and the test split holds its last 100 paths; the train
    loader shuffles and the test loader visits its split in order.  On a
    list of 100 paths or fewer the cell raises a [ValueError] and makes no
    test split.  A dataset is not changed by its methods. *)
Theorem split_train_test (ext : Externals) (ps : list string) :
  ((Z.to_nat test_size < length ps)%nat ->
   exists names,
     data_cell ps = Ok names /\
     paths (bound_train_data names) ++ paths (bound_test_data names) = ps /\
     length (paths (bound_test_data names)) = Z.to_nat test_size /\
     dataset (bound_train_loader names) = bound_train_data names /\
     dataset (bound_test_loader names) = bound_test_data names /\
     shuffle (bound_train_loader names) = true /\
     shuffle (bound_test_loader names) = false /\
     (forall s, sampler ext (bound_train_loader names) s =
                Ok (randperm ext (length (paths (bound_train_data names))) s)) /\
     (forall s, sampler ext (bound_test_loader names) s =
                Ok (seq 0 (length (paths (bound_test_data names))), s))) /\
  ((length ps <= Z.to_nat test_size)%nat -> data_cell ps = Raise ValueError) /\
  (forall self, snd (Dataset_len self) = self) /\
  (forall self index s,
      match Dataset_getitem ext self index s with
      | Ok ((_, self'), _) => self' = self
      | Raise _ => True
      end).
Proof.
  change (Z.to_nat test_size) with 100%nat.
  destruct (data_cell_cases ps) as [(Hlen & E) | (Hlen & E)].
  - split; [|split; [intros; lia|]].
    + intros _. eexists. split; [exact E|]. cbn [bound_train_data bound_test_data
        bound_train_loader bound_test_loader].
      split; [rewrite train_data_paths, test_data_paths; apply firstn_skipn|].
      split; [rewrite test_data_paths, length_skipn; lia|].
      repeat split.
    + split; [intros; reflexivity|].
      intros self index s. unfold Dataset_getitem.
      destruct (nth_error (paths self) index) as [p|]; [|exact I].
      unfold bindM, lift. destruct (default_loader ext p) as [img|e]; [|exact I].
      destruct (transform ext img s) as [x s']. reflexivity.
  - split; [intros; lia|]. split; [intros _; exact E|].
    split; [intros; reflexivity|].
    intros self index s. unfold Dataset_getitem.
    destruct (nth_error (paths self) index) as [p|]; [|exact I].
    unfold bindM, lift. destruct (default_loader ext p) as [img|e]; [|exact I].
    destruct (transform ext img s) as [x s']. reflexivity.
Qed.

Lemma split_train_test_witness :
  exists names,
    data_cell (List.map (fun n => String (Ascii.ascii_of_nat n) EmptyString)
                 (seq 0 120)) = Ok names /\
    length (paths (bound_train_data names)) = 20%nat /\
    length (paths (bound_test_data names)) = 100%nat.
Proof.
  destruct (proj1 (split_train_test still_world
                     (List.map (fun n => String (Ascii.ascii_of_nat n) EmptyString)
                        (seq 0 120))))
    as (names & E & Happ & Hlen & _).
  - rewrite length_map, length_seq. change (Z.to_nat test_size) with 100%nat. lia.
  - exists names. split; [exact E|].
    apply (f_equal (@length string)) in Happ.
    rewrite length_app, length_map, length_seq, Hlen in Happ.
    change (Z.to_nat test_size) with 100%nat in *. split; [lia | exact Hlen].
Defined.

(** ** One training step *)

Lemma byte_value_unit (b : Byte.byte) : unit_interval (byte_value b).
Proof.
  unfold unit_interval, byte_value.
  pose proof (pos_INR (Byte.to_nat b)) as H0.
  pose proof (le_INR _ _ (Byte.to_nat_bounded b)) as H1.
  replace (INR 255) with 255 in H1 by (rewrite INR_IZR_INZ; reflexivity).
  lra.
Qed.

Lemma Forall_init4 (P : R -> Prop) n c h w f :
  (forall i j k l, P (f i j k l)) -> Forall P (Tensor.init4 n c h w f).
Proof.
  intros H. unfold Tensor.init4.
  apply Forall_flat_map, Forall_forall. intros i _.
  apply Forall_flat_map, Forall_forall. intros j _.
  apply Forall_flat_map, Forall_forall. intros k _.
  apply Forall_forall. intros v Hv. apply in_map_iff in Hv.
  destruct Hv as (l & <- & _). apply H.
Qed.

(** What [ToTensor] gives: three channels, elements in [0, 1]. *)
Lemma to_tensor_unit (p : pil_image) :
  Tensor.wf (to_tensor p) /\ Forall unit_interval (Tensor.data (to_tensor p)).
Proof.
  split.
  - unfold Tensor.wf, to_tensor. cbn [Tensor.data Tensor.shape].
    rewrite init4_length. simpl. lia.
  - apply Forall_init4. intros. apply byte_value_unit.
Qed.

Lemma transform_unit (ext : Externals) (img : image ext) (s : noise) :
  Forall unit_interval (Tensor.data (fst (transform ext img s))).
Proof.
  unfold transform. destruct (crop_resize_flip ext img s) as [p s'].
  apply to_tensor_unit.
Qed.

Lemma bindM_Ok {A B} (m : M A) (k : A -> M B) s a s' :
  m s = Ok (a, s') -> bindM m k s = k a s'.
Proof.
  intros H. unfold bindM. rewrite H. reflexivity.
Qed.

Lemma stack_ok (xs : list tensor) (sh : list nat) :
  xs <> [] ->
  Forall (fun x => Tensor.shape x = sh) xs ->
  stack xs = Ok (Tensor.mk (length xs :: sh) (concat (List.map Tensor.data xs))).
Proof.
  intros Hne Hall. destruct xs as [|x0 xs']; [contradiction|].
  pose proof (Forall_inv Hall) as H0. simpl in H0.
  unfold stack.
  replace (forallb _ (x0 :: xs')) with true; [rewrite H0; reflexivity|].
  symmetry. apply forallb_forall. intros x Hx.
  rewrite Forall_forall in Hall. rewrite (Hall x Hx), H0.
  destruct (list_eq_dec Nat.eq_dec sh sh); congruence.
Qed.

Lemma stacked_unit (xs : list tensor) :
  Forall (fun x => Forall unit_interval (Tensor.data x)) xs ->
  Forall unit_interval (concat (List.map Tensor.data xs)).
Proof.
  intros H. apply Forall_concat, Forall_forall. intros d Hd.
  apply in_map_iff in Hd. destruct Hd as (x & <- & Hx).
  rewrite Forall_forall in H. apply H, Hx.
Qed.

Lemma VAE_forward_ok (theta : state_dict) (batch : nat) (x : tensor) (s : noise) :
  Tensor.shape x = [batch; 3; 64; 64]%nat ->
  exists x_recon mu logvar s',
    VAE.forward (VAE.init latent_size theta) x s = Ok ((x_recon, mu, logvar), s') /\
    Tensor.shape x_recon = [batch; 3; 64; 64]%nat /\
    Forall unit_interval (Tensor.data x_recon) /\
    Tensor.shape mu = [batch; latent_size] /\
    Tensor.shape logvar = [batch; latent_size].
Proof.
  intros Hx.
  destruct (encoder_forward_ok latent_size
              (fun k => theta ("encoder." ++ k)%string) batch x Hx)
    as (mu & logvar & E & Sm & Sl & Wm & Wl).
  assert (Hs : Tensor.shape logvar = Tensor.shape mu) by congruence.
  pose proof (sample_eq mu logvar Hs s) as Ez.
  match type of Ez with _ = Ok (?t, ?r) => set (z := t) in Ez; set (s' := r) in Ez end.
  assert (Sz : Tensor.shape z = [batch; latent_size]) by exact Sm.
  destruct (decoder_forward_ok latent_size
              (fun k => theta ("decoder." ++ k)%string) batch z Sz)
    as (x_recon & Ed & Sr & _ & Ur).
  exists x_recon, mu, logvar, s'. repeat split; try assumption.
  unfold VAE.forward.
  rewrite (bindM_Ok _ _ s (mu, logvar) s)
    by (unfold lift; change (VAE.encoder (VAE.init latent_size theta))
          with (Encoder.init latent_size (fun k => theta ("encoder." ++ k)%string));
        rewrite E; reflexivity).
  cbv beta iota. rewrite (bindM_Ok _ _ s z s') by exact Ez.
  rewrite (bindM_Ok _ _ s' x_recon s')
    by (unfold lift; change (VAE.decoder (VAE.init latent_size theta))
          with (Decoder.init latent_size (fun k => theta ("decoder." ++ k)%string));
        rewrite Ed; reflexivity).
  reflexivity.
Qed.

Lemma train_step_ok (ext : Externals) (theta : state_dict) (opt : optimizer ext)
    (batch : nat) (x : tensor) (s : noise) :
  Tensor.shape x = [batch; 3; 64; 64]%nat ->
  Forall unit_interval (Tensor.data x) ->
  exists loss theta' opt' s',
    train_step ext theta opt x s = Ok ((loss, theta', opt'), s').
Proof.
  intros Hx Ux.
  destruct (VAE_forward_ok theta batch x s Hx)
    as (x_recon & mu & logvar & s' & E & Sr & Ur & Sm & Sl).
  assert (El : exists loss, vae_loss x_recon x mu logvar None = Ok loss).
  { unfold vae_loss. rewrite bce_eq by (try congruence; assumption).
    rewrite kld_eq by congruence. eexists; reflexivity. }
  destruct El as (loss & El).
  destruct (backward_step ext opt theta x s) as [opt' theta'] eqn:Eb.
  exists loss, theta', opt', s'.
  unfold train_step. rewrite (bindM_Ok _ _ s _ s' E). cbv beta iota.
  rewrite (bindM_Ok _ _ s' loss s') by (unfold lift; rewrite El; reflexivity).
  rewrite Eb. reflexivity.
Qed.

(** ** The loops *)

Lemma epoch_lines_app out1 out2 :
  epoch_lines (out1 ++ out2) = epoch_lines out1 ++ epoch_lines out2.
Proof. apply flat_map_app. Qed.

Lemma saved_files_app out1 out2 :
  saved_files (out1 ++ out2) = saved_files out1 ++ saved_files out2.
Proof. apply flat_map_app. Qed.

Lemma batch_sampler_good (ds : Dataset) (size : nat) (order batch : list nat) :
  Forall (fun i => (i < length (paths ds))%nat) batch ->
  Forall (fun i => (i < length (paths ds))%nat) order ->
  Forall (good_batch ds) (batch_sampler size batch order).
Proof.
  revert batch. induction order as [|idx rest IH]; intros batch Hb Ho; simpl.
  - destruct batch as [|i batch']; simpl; constructor; [|constructor].
    split; [discriminate | exact Hb].
  - inversion Ho as [|? ? Hidx Hrest]; subst.
    assert (Hb' : Forall (fun i => (i < length (paths ds))%nat) (batch ++ [idx]))
      by (apply Forall_app; split; [exact Hb | constructor; [exact Hidx | constructor]]).
    destruct (length (batch ++ [idx]) =? size)%nat.
    + constructor; [|apply IH; [constructor | exact Hrest]].
      split; [destruct batch; discriminate | exact Hb'].
    + apply IH; assumption.
Qed.

(** The batch sampler gives as many batches as [len(loader)] says. *)
Lemma batch_sampler_length (size : nat) (order batch : list nat) :
  (0 < size)%nat -> (length batch < size)%nat ->
  length (batch_sampler size batch order) =
  ((length batch + length order + size - 1) / size)%nat.
Proof.
  intros Hsize. revert batch.
  induction order as [|idx rest IH]; intros batch Hb; simpl.
  - destruct batch as [|i batch']; simpl.
    + symmetry. apply Nat.div_small. lia.
    + simpl in Hb. apply (Nat.div_unique _ _ 1 (length batch')); lia.
  - rewrite length_app. simpl length.
    destruct (Nat.eqb_spec (length batch + 1) size) as [E|E]; simpl.
    + rewrite (IH []) by (simpl; lia). simpl length.
      replace (length batch + S (length rest) + size - 1)%nat
        with (1 * size + (0 + length rest + size - 1))%nat by lia.
      rewrite Nat.div_add_l by lia. reflexivity.
    + rewrite IH by (rewrite length_app; simpl; lia).
      rewrite length_app. simpl length. f_equal. lia.
Qed.

Section TrainingLoop.

Variable ext : Externals.
Variable ld : DataLoader.

Hypothesis files_load :
  Forall (fun p => exists img, default_loader ext p = Ok img) (paths (dataset ld)).
Hypothesis transform_shape :
  forall img s, Tensor.shape (fst (transform ext img s)) = [3; 64; 64]%nat.
Hypothesis randperm_perm :
  forall n s, Permutation (fst (randperm ext n s)) (seq 0 n).
Hypothesis ten_batches : (10 <= DataLoader_len ld)%nat.

Lemma tenth_nonzero : (DataLoader_len ld / 10)%nat <> 0%nat.
Proof using ten_batches.
  pose proof (Nat.div_str_pos (DataLoader_len ld) 10). lia.
Qed.

Lemma dataset_nonempty : length (paths (dataset ld)) <> 0%nat.
Proof using ten_batches.
  intros H0.
  assert (Hd : ((0 + loader_batch_size ld - 1) / loader_batch_size ld = 0)%nat).
  { destruct (loader_batch_size ld) as [|b]; [reflexivity|].
    apply Nat.div_small. lia. }
  unfold DataLoader_len, Dataset_len in ten_batches. cbn [fst] in ten_batches.
  rewrite H0, Hd in ten_batches. lia.
Qed.

Lemma getitem_ok (i : nat) (s : noise) :
  (i < length (paths (dataset ld)))%nat ->
  exists x s',
    Dataset_getitem ext (dataset ld) i s = Ok ((x, dataset ld), s') /\
    Tensor.shape x = [3; 64; 64]%nat /\
    Forall unit_interval (Tensor.data x).
Proof using files_load transform_shape.
  clear randperm_perm ten_batches.
  intros Hi. unfold Dataset_getitem.
  destruct (nth_error (paths (dataset ld)) i) as [p|] eqn:E.
  - apply nth_error_In in E. rewrite Forall_forall in files_load.
    destruct (files_load p E) as (img & Hl).
    unfold bindM, lift. rewrite Hl.
    pose proof (transform_shape img s) as Ht.
    pose proof (transform_unit ext img s) as Hu.
    destruct (transform ext img s) as [x s']. exists x, s'.
    split; [reflexivity | split; [exact Ht | exact Hu]].
  - apply nth_error_None in E. lia.
Qed.

Lemma fetch_ok (idxs : list nat) :
  Forall (fun i => (i < length (paths (dataset ld)))%nat) idxs ->
  forall s, exists xs s',
    fetch ext (dataset ld) idxs s = Ok (xs, s') /\
    length xs = length idxs /\
    Forall (fun x => Tensor.shape x = [3; 64; 64]%nat) xs /\
    Forall (fun x => Forall unit_interval (Tensor.data x)) xs.
Proof using files_load transform_shape.
  clear randperm_perm ten_batches.
  induction 1 as [|i rest Hi Hrest IH]; intros s.
  - exists [], s. repeat split; constructor.
  - destruct (getitem_ok i s Hi) as (x & s1 & Eg & Sx & Ux).
    destruct (IH s1) as (xs & s2 & Ef & Hlen & Hall & Hun).
    exists (x :: xs), s2. cbn [fetch].
    rewrite (bindM_Ok _ _ s _ s1 Eg). cbv beta iota.
    rewrite (bindM_Ok _ _ s1 _ s2 Ef).
    split; [reflexivity|]. split; [simpl; congruence|].
    split; constructor; assumption.
Qed.

Lemma batch_ok (idxs : list nat) (s : noise) :
  good_batch (dataset ld) idxs ->
  exists xs x s',
    fetch ext (dataset ld) idxs s = Ok (xs, s') /\
    stack xs = Ok x /\
    Tensor.shape x = [length idxs; 3; 64; 64]%nat /\
    Forall unit_interval (Tensor.data x).
Proof using files_load transform_shape.
  clear randperm_perm ten_batches.
  intros [Hne Hall].
  destruct (fetch_ok idxs Hall s) as (xs & s' & Ef & Hlen & Hsh & Hun).
  assert (Hxs : xs <> []) by (destruct xs, idxs; simpl in *; congruence).
  exists xs, (Tensor.mk (length xs :: [3; 64; 64]%nat)
                (concat (List.map Tensor.data xs))), s'.
  split; [exact Ef|]. split; [apply stack_ok; assumption|].
  split; [simpl; rewrite Hlen; reflexivity|].
  apply stacked_unit. exact Hun.
Qed.

Lemma batch_loop_spec (batches : list (list nat)) :
  Forall (good_batch (dataset ld)) batches ->
  forall (b : nat) (r : R) (st : training ext) (s : noise),
  exists losses rl st' s',
    spec_batch_losses ext ld batches (params st) (optim st) s =
      Ok ((losses, params st', optim st'), s') /\
    batch_loop ext ld b batches r st s = Ok ((rl, st'), s') /\
    rl = r + Rsum losses /\
    length losses = length batches /\
    epoch_lines (output st') = epoch_lines (output st) /\
    saved_files (output st') = saved_files (output st).
Proof.
  induction 1 as [|idxs rest Hgood Hrest IH]; intros b r st s.
  - exists [], r, st, s. simpl. repeat split. lra.
  - destruct (batch_ok idxs s Hgood) as (xs & x & s1 & Ef & Es & Sx & Ux).
    destruct (train_step_ok ext (params st) (optim st) _ x s1 Sx Ux)
      as (loss & theta' & opt' & s2 & Et).
    set (out := if (Nat.modulo b (DataLoader_len ld / 10) =? 0)%nat
                then output st ++ [Progress] else output st).
    destruct (IH (S b) (r + loss)
                {| params := theta'; optim := opt'; output := out |} s2)
      as (losses & rl & st' & s3 & Espec & Eloop & Hrl & Hlen & Hlines & Hsaved).
    cbn [params optim output] in Espec, Hlines, Hsaved.
    exists (loss :: losses), rl, st', s3.
    split; [|split; [|split; [|split; [|split]]]].
    + cbn [spec_batch_losses].
      rewrite (bindM_Ok _ _ s _ s1 Ef).
      rewrite (bindM_Ok _ _ s1 x s1) by (unfold lift; rewrite Es; reflexivity).
      rewrite (bindM_Ok _ _ s1 _ s2 Et). cbv beta iota.
      rewrite (bindM_Ok _ _ s2 _ s3 Espec). reflexivity.
    + cbn [batch_loop].
      rewrite (bindM_Ok _ _ s _ s1 Ef).
      rewrite (bindM_Ok _ _ s1 x s1) by (unfold lift; rewrite Es; reflexivity).
      rewrite (bindM_Ok _ _ s1 _ s2 Et). cbv beta iota zeta.
      destruct (Nat.eqb_spec (DataLoader_len ld / 10) 0) as [E0|_];
        [exfalso; exact (tenth_nonzero E0) | exact Eloop].
    + rewrite Hrl. simpl. lra.
    + simpl. congruence.
    + rewrite Hlines. unfold out.
      destruct (Nat.modulo b (DataLoader_len ld / 10) =? 0)%nat; [|reflexivity].
      rewrite epoch_lines_app. simpl. apply app_nil_r.
    + rewrite Hsaved. unfold out.
      destruct (Nat.modulo b (DataLoader_len ld / 10) =? 0)%nat; [|reflexivity].
      rewrite saved_files_app. simpl. apply app_nil_r.
Qed.

Lemma sampler_ok (s : noise) :
  exists order s',
    sampler ext ld s = Ok (order, s') /\
    Forall (fun i => (i < length (paths (dataset ld)))%nat) order /\
    length order = length (paths (dataset ld)).
Proof using randperm_perm.
  clear files_load transform_shape ten_batches.
  unfold sampler. simpl. destruct (shuffle ld).
  - pose proof (randperm_perm (length (paths (dataset ld))) s) as Hp.
    destruct (randperm ext (length (paths (dataset ld))) s) as [order s'].
    simpl in Hp. exists order, s'. split; [reflexivity|]. split.
    + apply Forall_forall. intros i Hi.
      apply (Permutation_in _ Hp) in Hi. apply in_seq in Hi. lia.
    + apply Permutation_length in Hp. rewrite length_seq in Hp. exact Hp.
  - exists (seq 0 (length (paths (dataset ld)))), s. split; [reflexivity|]. split.
    + apply Forall_forall. intros i Hi. apply in_seq in Hi. lia.
    + apply length_seq.
Qed.

Lemma batch_size_positive : (0 < loader_batch_size ld)%nat.
Proof using ten_batches.
  unfold DataLoader_len in ten_batches.
  destruct (loader_batch_size ld); [simpl in ten_batches|]; lia.
Qed.

Lemma run_epoch_spec (epoch : nat) (st : training ext) (s : noise) :
  exists order s1 losses st' s',
    sampler ext ld s = Ok (order, s1) /\
    spec_batch_losses ext ld (batch_sampler (loader_batch_size ld) [] order)
      (params st) (optim st) s1 = Ok ((losses, params st', optim st'), s') /\
    run_epoch ext ld epoch st s = Ok (st', s') /\
    length losses = DataLoader_len ld /\
    epoch_lines (output st') =
      epoch_lines (output st) ++
      [(epoch, Rsum losses / INR (length (paths (dataset ld))))] /\
    saved_files (output st') = saved_files (output st).
Proof.
  destruct (sampler_ok s) as (order & s1 & Eo & Ho & Hn).
  pose proof (batch_sampler_good (dataset ld) (loader_batch_size ld) order []
                (Forall_nil _) Ho) as Hgood.
  destruct (batch_loop_spec _ Hgood 1%nat 0 st s1)
    as (losses & rl & st1 & s2 & Espec & Eloop & Hrl & Hlen & Hlines & Hsaved).
  exists order, s1, losses,
    {| params := params st1; optim := optim st1;
       output := output st1 ++
         [EpochLoss epoch (rl / INR (length (paths (dataset ld))))] |}, s2.
  split; [exact Eo|]. split; [exact Espec|]. split; [|split; [|split]].
  - unfold run_epoch. rewrite (bindM_Ok _ _ s _ s1 Eo).
    rewrite (bindM_Ok _ _ s1 _ s2 Eloop). cbv beta iota zeta.
    change (fst (Dataset_len (dataset ld))) with (length (paths (dataset ld))).
    destruct (Nat.eqb_spec (length (paths (dataset ld))) 0) as [E0|_];
      [exfalso; exact (dataset_nonempty E0) | reflexivity].
  - rewrite Hlen, batch_sampler_length, Hn
      by (simpl; apply batch_size_positive).
    reflexivity.
  - cbn [output]. rewrite epoch_lines_app, Hlines. simpl.
    rewrite Hrl, Rplus_0_l. reflexivity.
  - cbn [output]. rewrite saved_files_app, Hsaved. simpl. apply app_nil_r.
Qed.

Lemma epoch_loop_spec (epoch_range : list nat) :
  forall (st : training ext) (s : noise),
  exists history st' s',
    spec_epoch_losses ext ld epoch_range (params st) (optim st) s =
      Ok ((history, params st', optim st'), s') /\
    epoch_loop ext ld epoch_range st s = Ok (st', s') /\
    length history = length epoch_range /\
    Forall (fun losses => length losses = DataLoader_len ld) history /\
    epoch_lines (output st') =
      epoch_lines (output st) ++
      combine epoch_range
        (List.map (fun losses =>
                     Rsum losses / INR (length (paths (dataset ld)))) history) /\
    saved_files (output st') = saved_files (output st).
Proof.
  induction epoch_range as [|epoch rest IH]; intros st s.
  - exists [], st, s. simpl. repeat split; [constructor|].
    symmetry. apply app_nil_r.
  - destruct (run_epoch_spec epoch st s)
      as (order & s1 & losses & st1 & s2 & Eo & Espec & Erun & Hn & Hlines & Hsaved).
    destruct (IH st1 s2)
      as (history & st2 & s3 & Ehist & Eloop & Hlen & Hall & Hlines2 & Hsaved2).
    exists (losses :: history), st2, s3.
    split; [|split; [|split; [|split; [|split]]]].
    + cbn [spec_epoch_losses].
      rewrite (bindM_Ok _ _ s _ s1 Eo), (bindM_Ok _ _ s1 _ s2 Espec).
      cbv beta iota. rewrite (bindM_Ok _ _ s2 _ s3 Ehist). reflexivity.
    + cbn [epoch_loop]. rewrite (bindM_Ok _ _ s _ s2 Erun). exact Eloop.
    + simpl. congruence.
    + constructor; assumption.
    + rewrite Hlines2, Hlines, <- app_assoc. reflexivity.
    + congruence.
Qed.

End TrainingLoop.

(** C8. When every training file loads and the loader has ten batches or
    more, the training cell runs to its end.  Each epoch prints one line,
    and its value is the sum of the losses of the batches of that epoch
    alone, one for each batch of the loader, divided by the number of
    training samples; after the last epoch the parameters are saved once,
    to [beta-vae.pth]. *)
Theorem training_loop_accounting (ext : Externals) (ps : list string)
    (theta : state_dict) (s : noise) :
  Forall (fun p => exists img, default_loader ext p = Ok img)
    (paths (train_data ps)) ->
  (forall img s, Tensor.shape (fst (transform ext img s)) = [3; 64; 64]%nat) ->
  (forall n s, Permutation (fst (randperm ext n s)) (seq 0 n)) ->
  (10 <= DataLoader_len (train_loader ps))%nat ->
  exists history st s',
    spec_epoch_losses ext (train_loader ps) (seq 1 epochs) theta (Adam ext theta) s
      = Ok ((history, params st, optim st), s') /\
    train ext ps theta s = Ok (st, s') /\
    length history = epochs /\
    Forall (fun losses => length losses = DataLoader_len (train_loader ps))
      history /\
    epoch_lines (output st) =
      combine (seq 1 epochs)
        (List.map (fun losses =>
                     Rsum losses / INR (length (paths (train_data ps)))) history) /\
    saved_files (output st) = [("beta-vae.pth"%string, params st)] /\
    last (output st) Progress = Saved "beta-vae.pth" (params st).
Proof.
  intros Hfiles Hshape Hperm Hten.
  destruct (epoch_loop_spec ext (train_loader ps) Hfiles Hshape Hperm Hten
              (seq 1 epochs)
              {| params := theta; optim := Adam ext theta; output := [] |} s)
    as (history & st & s' & Ehist & Eloop & Hlen & Hall & Hlines & Hsaved).
  cbn [params optim output] in Ehist, Hlines, Hsaved.
  exists history,
    {| params := params st; optim := optim st;
       output := output st ++ [Saved "beta-vae.pth" (params st)] |}, s'.
  cbn [params optim output].
  split; [exact Ehist|]. split; [|split; [|split; [|split; [|split]]]].
  - rewrite train_on_train_loader by (apply ten_batches_iff in Hten; lia).
    rewrite (bindM_Ok _ _ s _ s' Eloop). reflexivity.
  - rewrite Hlen. apply length_seq.
  - exact Hall.
  - rewrite epoch_lines_app, Hlines. simpl. apply app_nil_r.
  - rewrite saved_files_app, Hsaved. reflexivity.
  - apply last_last.
Qed.

Lemma training_loop_accounting_witness :
  exists history st s',
    train still_world (repeat "face.jpg"%string 140) (fun _ => vec []) (fun _ => 0)
      = Ok (st, s') /\
    length history = 10%nat /\
    Forall (fun losses => length losses = 10%nat) history /\
    epoch_lines (output st) =
      combine (seq 1 10)
        (List.map (fun losses => Rsum losses / INR 40) history) /\
    saved_files (output st) = [("beta-vae.pth"%string, params st)].
Proof.
  destruct (training_loop_accounting still_world (repeat "face.jpg"%string 140)
              (fun _ => vec []) (fun _ => 0))
    as (history & st & s' & _ & Et & Hlen & Hall & Hlines & Hsaved & _).
  - apply Forall_forall. intros p _. exists tt. reflexivity.
  - intros img s. reflexivity.
  - intros n s. apply Permutation_refl.
  - vm_compute. lia.
  - exists history, st, s'. repeat split; assumption.
Defined.

(** ** Fewer than ten batches

    The progress bar divides by [len(train_loader) // 10].  With fewer than
    ten batches that is zero, and the first batch of the first epoch ends in
    a [ZeroDivisionError]. *)

Lemma batch_sampler_nonempty (size : nat) (order batch : list nat) :
  order <> [] \/ batch <> [] -> batch_sampler size batch order <> [].
Proof.
  revert batch. induction order as [|idx rest IH]; intros batch H; simpl.
  - destruct H as [H|H]; [contradiction|].
    destruct batch; [contradiction | discriminate].
  - destruct (length (batch ++ [idx]) =? size)%nat; [discriminate|].
    apply IH. right. destruct batch; discriminate.
Qed.

Lemma run_epoch_raises (ext : Externals) (ld : DataLoader) (epoch : nat)
    (st : training ext) (s : noise) :
  Forall (fun p => exists img, default_loader ext p = Ok img) (paths (dataset ld)) ->
  (forall img s, Tensor.shape (fst (transform ext img s)) = [3; 64; 64]%nat) ->
  (forall n s, Permutation (fst (randperm ext n s)) (seq 0 n)) ->
  (DataLoader_len ld < 10)%nat ->
  run_epoch ext ld epoch st s = Raise ZeroDivisionError.
Proof.
  intros Hfiles Hshape Hperm Hfew.
  destruct (sampler_ok ext ld Hperm s) as (order & s1 & Eo & Ho & Hlen).
  unfold run_epoch. rewrite (bindM_Ok _ _ s _ s1 Eo).
  pose proof (batch_sampler_good (dataset ld) (loader_batch_size ld) order []
                (Forall_nil _) Ho) as Hgood.
  destruct order as [|i order'].
  - cbn [batch_sampler length Nat.ltb Nat.leb batch_loop].
    unfold bindM at 1. cbn [ret].
    change (fst (Dataset_len (dataset ld))) with (length (paths (dataset ld))).
    rewrite <- Hlen. reflexivity.
  - assert (Hne : batch_sampler (loader_batch_size ld) [] (i :: order') <> [])
      by (apply batch_sampler_nonempty; left; discriminate).
    destruct (batch_sampler (loader_batch_size ld) [] (i :: order'))
      as [|idxs rest]; [contradiction|].
    apply Forall_inv in Hgood.
    destruct (batch_ok ext ld Hfiles Hshape idxs s1 Hgood)
      as (xs & x & s2 & Ef & Es & Sx & Ux).
    destruct (train_step_ok ext (params st) (optim st) _ x s2 Sx Ux)
      as (loss & theta' & opt' & s3 & Et).
    unfold bindM at 1. cbn [batch_loop].
    rewrite (bindM_Ok _ _ s1 _ s2 Ef).
    rewrite (bindM_Ok _ _ s2 x s2) by (unfold lift; rewrite Es; reflexivity).
    rewrite (bindM_Ok _ _ s2 _ s3 Et). cbv beta iota zeta.
    rewrite (Nat.div_small _ 10 Hfew). reflexivity.
Qed.

Lemma train_raises_below_ten_batches (ext : Externals) (ps : list string)
    (theta : state_dict) (s : noise) :
  Forall (fun p => exists img, default_loader ext p = Ok img)
    (paths (train_data ps)) ->
  (forall img s, Tensor.shape (fst (transform ext img s)) = [3; 64; 64]%nat) ->
  (forall n s, Permutation (fst (randperm ext n s)) (seq 0 n)) ->
  (100 < length ps)%nat ->
  (DataLoader_len (train_loader ps) < 10)%nat ->
  train ext ps theta s = Raise ZeroDivisionError.
Proof.
  intros Hfiles Hshape Hperm Hlen Hfew.
  rewrite train_on_train_loader by exact Hlen. unfold epochs.
  cbn [seq epoch_loop]. unfold bindM at 1. unfold bindM at 1.
  rewrite (run_epoch_raises ext (train_loader ps) 1 _ s Hfiles Hshape Hperm Hfew).
  reflexivity.
Qed.

(** * Further properties of the notebook's code *)

(** ** Where the reconstruction term vanishes *)

Lemma clamp_log_zero p : p <= 1 -> (clamp_log p = 0 <-> p = 1).
Proof.
  intros Hp. unfold clamp_log. destruct (Rlt_dec 0 p) as [H|H].
  - split.
    + intros E. destruct (Req_dec p 1) as [E1|E1]; [exact E1|].
      assert (Hl : ln p < 0) by (rewrite <- ln_1; apply ln_increasing; lra).
      unfold Rmax in E. destruct (Rle_dec (ln p) (-100)); lra.
    + intros ->. rewrite ln_1. apply Rmax_left. lra.
  - split; lra.
Qed.

Lemma bce_elem_zero p y :
  unit_interval p -> unit_interval y ->
  (bce_elem p y = 0 <-> p = y /\ (y = 0 \/ y = 1)).
Proof.
  unfold unit_interval. intros Hp Hy.
  pose proof (clamp_log_nonpos p (proj2 Hp)) as H1.
  assert (Hq : 1 - p <= 1) by lra.
  pose proof (clamp_log_nonpos (1 - p) Hq) as H2.
  pose proof (clamp_log_zero p (proj2 Hp)) as Z1.
  pose proof (clamp_log_zero (1 - p) Hq) as Z2.
  unfold bce_elem. split.
  - intros E.
    destruct (Req_dec y 0) as [Y0|Y0].
    + subst y. assert (C : clamp_log (1 - p) = 0) by lra.
      apply Z2 in C. split; [lra | left; reflexivity].
    + destruct (Req_dec y 1) as [Y1|Y1].
      * subst y. assert (C : clamp_log p = 0) by lra.
        apply Z1 in C. split; [lra | right; reflexivity].
      * exfalso.
        assert (C1 : clamp_log p = 0) by nra.
        assert (C2 : clamp_log (1 - p) = 0) by nra.
        apply Z1 in C1. apply Z2 in C2. lra.
  - intros [-> [Y|Y]]; subst y.
    + assert (C : clamp_log (1 - 0) = 0) by (apply clamp_log_zero; lra). lra.
    + assert (C : clamp_log 1 = 0) by (apply clamp_log_zero; lra). lra.
Qed.

Lemma bce_data_zero (ps ys : list R) :
  length ps = length ys ->
  Forall unit_interval ps -> Forall unit_interval ys ->
  (Forall (fun v => v = 0) (zip_with bce_elem ps ys) <->
   ps = ys /\ Forall (fun v => v = 0 \/ v = 1) ys).
Proof.
  revert ys. induction ps as [|p ps IH]; intros [|y ys] Hlen Hp Hy;
    simpl in *; try discriminate.
  - split; auto.
  - inversion Hp; inversion Hy; subst.
    injection Hlen as Hlen. specialize (IH ys Hlen H2 H6). split.
    + intros H. inversion H; subst.
      apply bce_elem_zero in H4; [|assumption..]. destruct H4 as [-> Hb].
      apply IH in H7. destruct H7 as [-> Hall]. split; [reflexivity|].
      constructor; assumption.
    + intros [E Hall]. injection E as -> ->. inversion Hall; subst.
      constructor; [apply bce_elem_zero; auto | apply IH; auto].
Qed.

(** X3. For a reconstruction and a target in [0, 1] the reconstruction term
    is zero exactly when the target is black and white (every element 0 or
    1) and the reconstruction equals it. *)
Theorem reconstruction_term_zero_iff (x_recon x : tensor) :
  Tensor.shape x = Tensor.shape x_recon ->
  Tensor.wf x_recon -> Tensor.wf x ->
  Forall unit_interval (Tensor.data x_recon) ->
  Forall unit_interval (Tensor.data x) ->
  exists bce,
    binary_cross_entropy_sum x_recon x = Ok bce /\
    (bce = 0 <->
     Tensor.data x_recon = Tensor.data x /\
     Forall (fun v => v = 0 \/ v = 1) (Tensor.data x)).
Proof.
  intros Hs Wr Wx Ur Ux. eexists. split; [apply bce_eq; assumption|].
  rewrite Rsum_zero_iff.
  - apply bce_data_zero; try assumption.
    unfold Tensor.wf in *. congruence.
  - apply Forall_zip_with with (P := unit_interval) (Q := unit_interval);
      auto using bce_elem_nonneg.
Qed.

Lemma reconstruction_term_zero_iff_witness :
  exists bce,
    binary_cross_entropy_sum (vec [0; 1]) (vec [0; 1]) = Ok bce /\
    (bce = 0 <->
     [0; 1] = [0; 1] /\ Forall (fun v => v = 0 \/ v = 1) [0; 1]).
Proof.
  apply (reconstruction_term_zero_iff (vec [0; 1]) (vec [0; 1]));
    try reflexivity; repeat constructor; unfold unit_interval; lra.
Defined.

(** ** The forward pass and its loss *)



(** ** Which inputs the encoder and the decoder take *)

Lemma conv_side_bounds (h : nat) :
  (3 <= h -> h - 2 <= 2 * conv_side h <= h - 1)%nat.
Proof.
  intros Hh. unfold conv_side.
  pose proof (Nat.div_mod_eq (h - 3) 2) as E.
  pose proof (Nat.mod_upper_bound (h - 3) 2 ltac:(lia)) as B.
  lia.
Qed.

(** A 3 x 3 convolution of stride 2 on a batch: what it takes, and what it
    gives. *)
Lemma conv3x3s2_cases (l : Conv2d.t) (x : tensor) (n c h w : nat) :
  Conv2d.kernel_size l = 3%nat -> Conv2d.stride l = 2%nat ->
  Tensor.shape x = [n; c; h; w] ->
  (c = Conv2d.in_channels l /\ (3 <= h)%nat /\ (3 <= w)%nat /\
   exists y, Conv2d.forward l x = Ok y /\
             Tensor.shape y = [n; Conv2d.out_channels l; conv_side h; conv_side w]) \/
  ((c <> Conv2d.in_channels l \/ (h < 3)%nat \/ (w < 3)%nat) /\
   Conv2d.forward l x = Raise ShapeError).
Proof.
  intros Hk Hs Hx. unfold Conv2d.forward, Conv2d.forward_batched, Conv2d.out_size.
  rewrite Hx, Hk, Hs.
  change (0 <? 2)%nat with true. change (0 <? 3)%nat with true.
  rewrite !andb_true_r.
  destruct (Nat.eqb_spec c (Conv2d.in_channels l)) as [Ec|Ec];
    [|right; split; [left; exact Ec | reflexivity]].
  destruct (Nat.leb_spec0 3 h) as [Eh|Eh];
    [|right; split; [right; left; lia | reflexivity]].
  destruct (Nat.leb_spec0 3 w) as [Ew|Ew];
    [|right; split; [right; right; lia | reflexivity]].
  left. repeat split; try assumption. eexists. split; reflexivity.
Qed.

Lemma Linear_forward_2d_cases (l : Linear.t) (x : tensor) (n d : nat) :
  Tensor.shape x = [n; d] ->
  (d = Linear.in_features l /\
   exists y, Linear.forward l x = Ok y /\
             Tensor.shape y = [n; Linear.out_features l]) \/
  (d <> Linear.in_features l /\ Linear.forward l x = Raise ShapeError).
Proof.
  intros Hx. unfold Linear.forward. rewrite Hx. simpl last.
  destruct (Nat.eqb_spec d (Linear.in_features l)) as [E|E].
  - left. split; [exact E|]. eexists. split; reflexivity.
  - right. split; [exact E | reflexivity].
Qed.

(** The cases of the encoder on a batch of any size. *)
Lemma encoder_forward_cases (latent : nat) (theta : state_dict)
    (batch c h w : nat) (x : tensor) :
  Tensor.shape x = [batch; c; h; w] ->
  let e := Encoder.init latent theta in
  let fits := c = 3%nat /\ (15 <= h)%nat /\ (15 <= w)%nat /\
              (conv_side (conv_side (conv_side h)) *
               conv_side (conv_side (conv_side w)) = 49)%nat in
  (fits ->
   exists mu logvar,
     Encoder.forward e x = Ok (mu, logvar) /\
     Tensor.shape mu = [batch; latent] /\
     Tensor.shape logvar = [batch; latent]) /\
  (~ fits -> Encoder.forward e x = Raise ShapeError).
Proof.
  intros Hx e fits. subst fits.
  unfold Encoder.forward, Encoder.convolutions.
  destruct (conv3x3s2_cases (Encoder.conv1 e) x batch c h w eq_refl eq_refl Hx)
    as [(Hc & Hh & Hw & y1 & E1 & S1) | (Hbad & E1)]; rewrite E1;
    [rewrite bind_Ok; cbv zeta
    | split; [|reflexivity];
      intros (? & ? & ? & _); exfalso; simpl in Hbad; lia].
  change (Tensor.shape (Tensor.relu y1) = [batch; 16; conv_side h; conv_side w]%nat)
    in S1.
  destruct (conv3x3s2_cases (Encoder.conv2 e) _ batch 16 _ _ eq_refl eq_refl S1)
    as [(_ & Hh2 & Hw2 & y2 & E2 & S2) | (Hbad & E2)]; rewrite E2;
    [rewrite bind_Ok; cbv zeta
    | split; [|reflexivity];
      intros (? & ? & ? & _); exfalso;
      pose proof (conv_side_bounds h Hh); pose proof (conv_side_bounds w Hw);
      simpl in Hbad; lia].
  change (Tensor.shape (Tensor.relu y2) =
          [batch; 32; conv_side (conv_side h); conv_side (conv_side w)]%nat) in S2.
  pose proof (conv_side_bounds h Hh) as Bh1.
  pose proof (conv_side_bounds w Hw) as Bw1.
  destruct (conv3x3s2_cases (Encoder.conv3 e) _ batch 32 _ _ eq_refl eq_refl S2)
    as [(_ & Hh3 & Hw3 & y3 & E3 & S3) | (Hbad & E3)]; rewrite E3;
    [rewrite bind_Ok
    | split; [|reflexivity];
      intros (? & ? & ? & _); exfalso;
      pose proof (conv_side_bounds _ Hh2); pose proof (conv_side_bounds _ Hw2);
      simpl in Hbad; lia].
  pose proof (conv_side_bounds _ Hh2) as Bh2.
  pose proof (conv_side_bounds _ Hw2) as Bw2.
  set (h3 := conv_side (conv_side (conv_side h))) in *.
  set (w3 := conv_side (conv_side (conv_side w))) in *.
  change (Tensor.shape (Tensor.relu y3) = [batch; 64; h3; w3]%nat) in S3.
  rewrite bind_Ok, (flatten_from_1_ok _ batch 64 h3 w3 S3), bind_Ok.
  set (f := Tensor.mk [batch; Tensor.numel [64; h3; w3]%nat]
              (Tensor.data (Tensor.relu y3))).
  assert (Hnum : Tensor.numel [64; h3; w3]%nat = (64 * (h3 * w3))%nat)
    by (unfold Tensor.numel, fold_right; lia).
  destruct (Linear_forward_2d_cases (Encoder.fc_mu e) f batch _ eq_refl)
    as [(Hd & mu & Em & Sm) | (Hd & Em)]; rewrite Em.
  - rewrite bind_Ok.
    destruct (Linear_forward_2d_cases (Encoder.fc_logvar e) f batch _ eq_refl)
      as [(_ & logvar & El & Sl) | (Hd' & El)]; [|contradiction].
    rewrite El, bind_Ok. split.
    + intros _. exists mu, logvar. repeat split; assumption.
    + intros Hnot. exfalso. apply Hnot.
      change (Linear.in_features (Encoder.fc_mu e)) with (7 * 7 * 64)%nat in Hd.
      rewrite Hnum in Hd.
      split; [exact Hc|]. split; [lia|]. split; [lia|].
      remember (h3 * w3)%nat as p. lia.
  - split; [|reflexivity].
    intros (_ & _ & _ & H49). exfalso. apply Hd.
    change (Linear.in_features (Encoder.fc_mu e)) with (7 * 7 * 64)%nat.
    rewrite Hnum, H49. reflexivity.
Qed.

(** X5. The encoder takes a batch of shape (batch, c, h, w) exactly when
    c = 3, both sides are at least 15, so that each of the three
    convolutions has room for its kernel, and the two sides left after the
    convolutions multiply to 49, the size the linear heads are built for;
    it then returns [mu] and [logvar] of shape (batch, latent_size).  Every
    other batch ends in a shape error.  A square batch is taken exactly for
    the sides 63 to 70. *)
Theorem encoder_accepts (latent : nat) (theta : state_dict)
    (batch c h w : nat) (x : tensor) :
  Tensor.shape x = [batch; c; h; w] ->
  let e := Encoder.init latent theta in
  let fits := c = 3%nat /\ (15 <= h)%nat /\ (15 <= w)%nat /\
              (conv_side (conv_side (conv_side h)) *
               conv_side (conv_side (conv_side w)) = 49)%nat in
  (fits ->
   exists mu logvar,
     Encoder.forward e x = Ok (mu, logvar) /\
     Tensor.shape mu = [batch; latent] /\
     Tensor.shape logvar = [batch; latent]) /\
  (~ fits -> Encoder.forward e x = Raise ShapeError) /\
  (h = w -> (fits <-> c = 3%nat /\ (63 <= h <= 70)%nat)).
Proof.
  intros Hx e fits.
  destruct (encoder_forward_cases latent theta batch c h w x Hx) as (Hok & Hbad).
  split; [exact Hok|]. split; [exact Hbad|]. subst fits.
  intros <-.
  destruct (Nat.le_gt_cases 15 h) as [H15|H15]; [|split; intros; lia].
  pose proof (conv_side_bounds h ltac:(lia)) as B1.
  pose proof (conv_side_bounds (conv_side h) ltac:(lia)) as B2.
  pose proof (conv_side_bounds (conv_side (conv_side h)) ltac:(lia)) as B3.
  set (k := conv_side (conv_side (conv_side h))) in *.
  split.
  - intros (Hc & _ & _ & Hk). split; [exact Hc|].
    assert (k = 7)%nat by nia. lia.
  - intros (Hc & Hh). repeat split; try lia.
    assert (k = 7)%nat by lia. subst k. nia.
Qed.

Lemma encoder_accepts_witness :
  (exists mu logvar,
     Encoder.forward (Encoder.init 16 (fun _ => vec []))
       (Tensor.mk [2; 3; 70; 63]%nat []) = Ok (mu, logvar) /\
     Tensor.shape mu = [2; 16]%nat /\ Tensor.shape logvar = [2; 16]%nat) /\
  Encoder.forward (Encoder.init 16 (fun _ => vec []))
    (Tensor.mk [2; 3; 32; 32]%nat []) = Raise ShapeError.
Proof.
  split.
  - apply (proj1 (encoder_accepts 16 (fun _ => vec []) 2 3 70 63
                    (Tensor.mk [2; 3; 70; 63]%nat []) eq_refl)).
    split; [reflexivity|]. split; [lia|]. split; [lia | reflexivity].
  - apply (proj1 (proj2 (encoder_accepts 16 (fun _ => vec []) 2 3 32 32
                    (Tensor.mk [2; 3; 32; 32]%nat []) eq_refl))).
    intros (_ & _ & _ & H). vm_compute in H. discriminate H.
Defined.

Lemma reshape_infer_numel (dims : list nat) (x : tensor) (n : nat) :
  Tensor.numel dims <> 0%nat ->
  Tensor.numel (Tensor.shape x) = (n * Tensor.numel dims)%nat ->
  Tensor.reshape_infer dims x = Ok (Tensor.mk (n :: dims) (Tensor.data x)).
Proof.
  intros Hp Hx. unfold Tensor.reshape_infer. rewrite Hx.
  destruct (Nat.eqb_spec (Tensor.numel dims) 0); [contradiction|].
  rewrite Nat.Div0.mod_mul, Nat.div_mul by exact Hp. reflexivity.
Qed.

Lemma Linear_forward_cases (l : Linear.t) (x : tensor) (lead : list nat) (d : nat) :
  Tensor.shape x = lead ++ [d] ->
  (d = Linear.in_features l /\
   exists y, Linear.forward l x = Ok y /\
             Tensor.shape y = lead ++ [Linear.out_features l]) \/
  (d <> Linear.in_features l /\ Linear.forward l x = Raise ShapeError).
Proof.
  intros Hx. unfold Linear.forward. rewrite Hx.
  rewrite last_last, removelast_last.
  destruct (Nat.eqb_spec d (Linear.in_features l)) as [E|E].
  - left. split; [exact E|].
    destruct (lead ++ [d]) eqn:El; [destruct lead; discriminate|].
    eexists. split; reflexivity.
  - right. split; [exact E|].
    destruct (lead ++ [d]) eqn:El; [destruct lead; discriminate|]. reflexivity.
Qed.

Lemma decoder_forward_lead_ok (latent : nat) (theta : state_dict) (z : tensor)
    (lead : list nat) :
  Tensor.shape z = lead ++ [latent] ->
  exists x_recon,
    Decoder.forward (Decoder.init latent theta) z = Ok x_recon /\
    Tensor.shape x_recon = [Tensor.numel lead; 3; 64; 64]%nat /\
    Tensor.wf x_recon /\
    Forall unit_interval (Tensor.data x_recon).
Proof.
  set (d := Decoder.init latent theta).
  intros Hz.
  destruct (Linear_forward_cases (Decoder.fc d) z lead latent Hz)
    as [(_ & y0 & E0 & S0) | (Hd & _)]; [|exfalso; apply Hd; reflexivity].
  change (Tensor.shape (Tensor.relu y0) = lead ++ [Tensor.numel [64; 7; 7]%nat])
    in S0.
  assert (Hp : Tensor.numel [64; 7; 7]%nat <> 0%nat) by discriminate.
  assert (Hn : Tensor.numel (Tensor.shape (Tensor.relu y0)) =
               (Tensor.numel lead * Tensor.numel [64; 7; 7]%nat)%nat).
  { rewrite S0, numel_app.
    change (Tensor.numel [Tensor.numel [64; 7; 7]%nat])
      with (Tensor.numel [64; 7; 7]%nat * 1)%nat. lia. }
  pose proof (reshape_infer_numel [64; 7; 7]%nat _ _ Hp Hn) as Er.
  set (batch := Tensor.numel lead) in *.
  set (r := Tensor.mk (batch :: [64; 7; 7]%nat) (Tensor.data (Tensor.relu y0)))
    in Er.
  destruct (ConvTranspose2d_forward_ok (Decoder.deconv1 d) r batch 64 7 7
              eq_refl eq_refl) as (y1 & E1 & S1 & _).
  change (Tensor.shape (Tensor.relu y1) = [batch; 32; 15; 15]%nat) in S1.
  destruct (ConvTranspose2d_forward_ok (Decoder.deconv2 d) _ batch 32 15 15
              S1 eq_refl) as (y2 & E2 & S2 & _).
  change (Tensor.shape (Tensor.relu y2) = [batch; 16; 31; 31]%nat) in S2.
  destruct (ConvTranspose2d_forward_ok (Decoder.deconv_recon d) _ batch 16 31 31
              S2 eq_refl) as (y3 & E3 & S3 & W3).
  change (Tensor.shape y3 = [batch; 3; 64; 64]%nat) in S3.
  exists (Tensor.sigmoid y3).
  unfold Decoder.forward, Decoder.deconvolutions.
  rewrite E0, bind_Ok. cbv zeta.
  rewrite Er, bind_Ok, E1, bind_Ok. cbv zeta. rewrite E2, bind_Ok. cbv zeta.
  rewrite E3, bind_Ok. split; [reflexivity|]. split; [exact S3|].
  split; [apply map_wf; exact W3|].
  apply Forall_forall. intros v Hv. simpl in Hv.
  apply in_map_iff in Hv. destruct Hv as (u & <- & _). apply sigmoid_unit.
Qed.



Lemma Conv2d_forward_unbatched_ok (l : Conv2d.t) (x : tensor) (c h w : nat) :
  Tensor.shape x = [c; h; w] ->
  ((c =? Conv2d.in_channels l) && (0 <? Conv2d.stride l) &&
   (0 <? Conv2d.kernel_size l) &&
   (Conv2d.kernel_size l <=? h) && (Conv2d.kernel_size l <=? w))%nat = true ->
  exists y,
    Conv2d.forward l x = Ok y /\
    Tensor.shape y =
      [Conv2d.out_channels l; Conv2d.out_size l h; Conv2d.out_size l w].
Proof.
  intros Hx Hg. unfold Conv2d.forward, Conv2d.forward_batched.
  rewrite Hx, Hg. eexists. split; reflexivity.
Qed.

(** X7. A single image of shape (3, 64, 64), without the batch dimension,
    is rejected by the encoder with a shape error: the convolutions take
    it, and the flattening from dimension 1 then leaves 49 features in each
    of 64 rows, where the linear heads expect 3136. *)
Theorem encoder_needs_batch_dimension (latent : nat) (theta : state_dict)
    (x : tensor) :
  Tensor.shape x = [3; 64; 64]%nat ->
  (exists h, Encoder.convolutions (Encoder.init latent theta) x = Ok h /\
             Tensor.shape h = [64; 7; 7]%nat) /\
  Encoder.forward (Encoder.init latent theta) x = Raise ShapeError.
Proof.
  intros Hx. set (e := Encoder.init latent theta).
  destruct (Conv2d_forward_unbatched_ok (Encoder.conv1 e) x 3 64 64 Hx eq_refl)
    as (y1 & E1 & S1).
  change (Tensor.shape (Tensor.relu y1) = [16; 31; 31]%nat) in S1.
  destruct (Conv2d_forward_unbatched_ok (Encoder.conv2 e) _ 16 31 31 S1 eq_refl)
    as (y2 & E2 & S2).
  change (Tensor.shape (Tensor.relu y2) = [32; 15; 15]%nat) in S2.
  destruct (Conv2d_forward_unbatched_ok (Encoder.conv3 e) _ 32 15 15 S2 eq_refl)
    as (y3 & E3 & S3).
  change (Tensor.shape (Tensor.relu y3) = [64; 7; 7]%nat) in S3.
  assert (Ec : Encoder.convolutions e x = Ok (Tensor.relu y3)).
  { unfold Encoder.convolutions. rewrite E1, bind_Ok. cbv zeta.
    rewrite E2, bind_Ok. cbv zeta. rewrite E3, bind_Ok. reflexivity. }
  split; [exists (Tensor.relu y3); split; assumption|].
  unfold Encoder.forward. rewrite Ec, bind_Ok.
  unfold Tensor.flatten_from_1. rewrite S3, bind_Ok.
  unfold Linear.forward. reflexivity.
Qed.

Lemma encoder_needs_batch_dimension_witness :
  Encoder.forward (Encoder.init 16 (fun _ => vec []))
    (Tensor.mk [3; 64; 64]%nat (repeat 0 (3 * 64 * 64))) = Raise ShapeError.
Proof.
  apply (encoder_needs_batch_dimension 16 (fun _ => vec [])
           (Tensor.mk [3; 64; 64]%nat (repeat 0 (3 * 64 * 64))) eq_refl).
Defined.

(** ** The two splits and the batches of a loader *)

(** X8. When the data cell runs to its end, which it does on more than 100
    paths only, the train split has [len(paths) - 100] paths and the test
    split 100; when no path occurs twice in the list, no path is in both
    splits. *)
Theorem splits_sizes_disjoint (ps : list string) (names : data_names) :
  NoDup ps ->
  data_cell ps = Ok names ->
  (100 < length ps)%nat /\
  length (paths (bound_train_data names)) = (length ps - 100)%nat /\
  length (paths (bound_test_data names)) = 100%nat /\
  (forall p, In p (paths (bound_train_data names)) ->
             ~ In p (paths (bound_test_data names))).
Proof.
  intros Hnd Hc.
  destruct (data_cell_cases ps) as [(Hlen & E) | (_ & E)];
    rewrite E in Hc; [|discriminate Hc].
  injection Hc as <-. cbn [bound_train_data bound_test_data].
  rewrite train_data_paths, test_data_paths.
  split; [exact Hlen|].
  split; [rewrite length_firstn; lia|].
  split; [rewrite length_skipn; lia|].
  rewrite <- (firstn_skipn (length ps - 100) ps) in Hnd.
  intros p Hin1 Hin2.
  revert Hnd Hin1 Hin2.
  generalize (firstn (length ps - 100) ps) (skipn (length ps - 100) ps).
  intros l1 l2 Hnd Hin1 Hin2.
  apply in_split in Hin1. destruct Hin1 as (a & b & ->).
  rewrite <- app_assoc in Hnd. apply NoDup_app_remove_l in Hnd.
  simpl in Hnd. inversion Hnd; subst. apply H1.
  apply in_or_app. right. exact Hin2.
Qed.

Lemma numbered_paths_NoDup (n : nat) :
  (n <= 256)%nat ->
  NoDup (List.map (fun n => String (Ascii.ascii_of_nat n) EmptyString) (seq 0 n)).
Proof.
  intros Hn. apply Finite.Injective_map_NoDup_in; [|apply seq_NoDup].
  intros a b Ha Hb E. apply in_seq in Ha, Hb. injection E as E.
  apply (f_equal Ascii.nat_of_ascii) in E.
  rewrite !Ascii.nat_ascii_embedding in E by lia. exact E.
Qed.

Lemma splits_sizes_disjoint_witness :
  length (paths (train_data (List.map (fun n => String (Ascii.ascii_of_nat n) EmptyString)
                               (seq 0 120)))) = 20%nat /\
  length (paths (test_data (List.map (fun n => String (Ascii.ascii_of_nat n) EmptyString)
                              (seq 0 120)))) = 100%nat.
Proof.
  destruct (data_cell_cases (List.map (fun n => String (Ascii.ascii_of_nat n) EmptyString)
                               (seq 0 120))) as [(_ & E) | (H & _)];
    [|rewrite length_map, length_seq in H; lia].
  destruct (splits_sizes_disjoint _ _ (numbered_paths_NoDup 120 ltac:(lia)) E)
    as (_ & H1 & H2 & _).
  cbn [bound_train_data bound_test_data] in H1, H2.
  rewrite length_map, length_seq in H1.
  split; [exact H1 | exact H2].
Defined.

Lemma batch_sampler_concat (size : nat) (order batch : list nat) :
  concat (batch_sampler size batch order) = batch ++ order.
Proof.
  revert batch. induction order as [|idx rest IH]; intros batch; simpl.
  - destruct batch; simpl; [reflexivity | rewrite !app_nil_r; reflexivity].
  - destruct (length (batch ++ [idx]) =? size)%nat; simpl.
    + rewrite IH, <- app_assoc. reflexivity.
    + rewrite IH, <- app_assoc. reflexivity.
Qed.

Lemma batch_sampler_full_then_rest (size : nat) (order batch : list nat) :
  (length batch < size)%nat ->
  exists full rest,
    batch_sampler size batch order = full ++ rest /\
    Forall (fun b => length b = size) full /\
    (rest = [] \/ exists b, rest = [b] /\ (0 < length b < size)%nat).
Proof.
  revert batch. induction order as [|idx tl IH]; intros batch Hb; simpl.
  - destruct batch as [|i batch']; simpl.
    + exists [], []. repeat split; auto.
    + exists [], [i :: batch']. repeat split; auto.
      right. eexists. split; [reflexivity|]. simpl in *. lia.
  - destruct (Nat.eqb_spec (length (batch ++ [idx])) size) as [E|E].
    + destruct (IH [] ltac:(simpl; lia)) as (full & rest & Eq & Hfull & Hrest).
      exists ((batch ++ [idx]) :: full), rest. rewrite Eq.
      repeat split; auto.
    + apply IH. rewrite length_app in *. simpl in *. lia.
Qed.

(** X9. One pass of a loader with a positive batch size hands out every
    index of its order once and in that order; the order is a permutation
    of the indices of the dataset, and the indices themselves when the
    loader does not shuffle.  The batches are full, except possibly a last,
    shorter and not empty one, and there are [len(loader)] of them. *)
Theorem loader_pass_partitions (ext : Externals) (ld : DataLoader) (s : noise) :
  (forall n s, Permutation (fst (randperm ext n s)) (seq 0 n)) ->
  (0 < loader_batch_size ld)%nat ->
  exists order s',
    sampler ext ld s = Ok (order, s') /\
    Permutation order (seq 0 (length (paths (dataset ld)))) /\
    (shuffle ld = false -> order = seq 0 (length (paths (dataset ld)))) /\
    let batches := batch_sampler (loader_batch_size ld) [] order in
    concat batches = order /\
    length batches = DataLoader_len ld /\
    exists full rest,
      batches = full ++ rest /\
      Forall (fun b => length b = loader_batch_size ld) full /\
      (rest = [] \/
       exists b, rest = [b] /\ (0 < length b < loader_batch_size ld)%nat).
Proof.
  intros Hperm Hsize.
  assert (Hs : exists order s',
             sampler ext ld s = Ok (order, s') /\
             Permutation order (seq 0 (length (paths (dataset ld)))) /\
             (shuffle ld = false -> order = seq 0 (length (paths (dataset ld))))).
  { unfold sampler. cbn [Dataset_len fst]. destruct (shuffle ld).
    - pose proof (Hperm (length (paths (dataset ld))) s) as Hp.
      destruct (randperm ext (length (paths (dataset ld))) s) as [order s'].
      exists order, s'. split; [reflexivity|]. split; [exact Hp | discriminate].
    - exists (seq 0 (length (paths (dataset ld)))), s.
      split; [reflexivity|]. split; [apply Permutation_refl | reflexivity]. }
  destruct Hs as (order & s' & Es & Hp & Hseq).
  exists order, s'. split; [exact Es|]. split; [exact Hp|]. split; [exact Hseq|].
  cbv zeta. split; [apply batch_sampler_concat|]. split.
  - rewrite batch_sampler_length by (simpl; assumption).
    apply Permutation_length in Hp. rewrite length_seq in Hp. rewrite Hp.
    reflexivity.
  - apply batch_sampler_full_then_rest. exact Hsize.
Qed.

Lemma loader_pass_partitions_witness :
  exists order s',
    sampler still_world (test_loader (repeat "face.jpg"%string 6)) (fun _ => 0)
      = Ok (order, s') /\
    order = seq 0 6 /\
    concat (batch_sampler 4 [] order) = order /\
    length (batch_sampler 4 [] order) = 2%nat.
Proof.
  destruct (loader_pass_partitions still_world
              (test_loader (repeat "face.jpg"%string 6)) (fun _ => 0))
    as (order & s' & Es & _ & Hseq & Hc & Hl & _).
  - intros n s. apply Permutation_refl.
  - unfold test_loader, batch_size. simpl. lia.
  - exists order, s'. split; [exact Es|]. split; [apply Hseq; reflexivity|].
    split; [exact Hc | exact Hl].
Defined.

(** ** How many files the training cell needs, and what it prints *)

(** X10. How many files the notebook needs, when they all load.  With 137
    files or more the data cell and the training cell run to their end.
    With 101 to 136 files the training cell ends in a division by zero in
    its first batch: 100 files go to the test split, and the progress bar
    needs ten batches of four.  With 100 files or fewer the data cell
    raises a [ValueError], so that the run ends there, and the training
    cell on its own then finds no [train_loader]. *)
Theorem train_needs_137_files (ext : Externals) (ps : list string)
    (theta : state_dict) (s : noise) :
  Forall (fun p => exists img, default_loader ext p = Ok img)
    (paths (train_data ps)) ->
  (forall img s, Tensor.shape (fst (transform ext img s)) = [3; 64; 64]%nat) ->
  (forall n s, Permutation (fst (randperm ext n s)) (seq 0 n)) ->
  ((137 <= length ps)%nat -> exists st s', train ext ps theta s = Ok (st, s')) /\
  ((100 < length ps < 137)%nat -> train ext ps theta s = Raise ZeroDivisionError) /\
  ((length ps <= 100)%nat ->
   data_cell ps = Raise ValueError /\
   train ext ps theta s = Raise ValueError /\
   training_cell ext None theta s = Raise NameError).
Proof.
  intros Hfiles Hshape Hperm. split; [|split].
  - intros Hlen. pose proof (proj2 (ten_batches_iff ps) Hlen) as Hten.
    destruct (epoch_loop_spec ext (train_loader ps) Hfiles Hshape Hperm Hten
                (seq 1 epochs)
                {| params := theta; optim := Adam ext theta; output := [] |} s)
      as (history & st & s' & _ & Eloop & _).
    do 2 eexists. rewrite train_on_train_loader by lia.
    rewrite (bindM_Ok _ _ s _ s' Eloop). reflexivity.
  - intros Hlen.
    apply train_raises_below_ten_batches; try assumption; [lia|].
    pose proof (ten_batches_iff ps). lia.
  - intros Hlen. split; [|split].
    + destruct (data_cell_cases ps) as [(H & _) | (_ & E)]; [lia | exact E].
    + apply train_without_train_split. exact Hlen.
    + reflexivity.
Qed.

Lemma train_needs_137_files_witness :
  (exists st s',
     train still_world (repeat "face.jpg"%string 137) (fun _ => vec []) (fun _ => 0)
       = Ok (st, s')) /\
  train still_world (repeat "face.jpg"%string 136) (fun _ => vec []) (fun _ => 0)
    = Raise ZeroDivisionError /\
  train still_world (repeat "face.jpg"%string 100) (fun _ => vec []) (fun _ => 0)
    = Raise ValueError.
Proof.
  split; [|split].
  - apply (proj1 (train_needs_137_files still_world (repeat "face.jpg"%string 137)
                    (fun _ => vec []) (fun _ => 0)
                    ltac:(apply Forall_forall; intros p _; exists tt; reflexivity)
                    ltac:(intros img s; reflexivity)
                    ltac:(intros n s; apply Permutation_refl))).
    rewrite repeat_length. lia.
  - apply (proj1 (proj2 (train_needs_137_files still_world
                    (repeat "face.jpg"%string 136)
                    (fun _ => vec []) (fun _ => 0)
                    ltac:(apply Forall_forall; intros p _; exists tt; reflexivity)
                    ltac:(intros img s; reflexivity)
                    ltac:(intros n s; apply Permutation_refl)))).
    rewrite repeat_length. lia.
  - apply (proj2 (proj2 (train_needs_137_files still_world
                    (repeat "face.jpg"%string 100)
                    (fun _ => vec []) (fun _ => 0)
                    ltac:(apply Forall_forall; intros p _; exists tt; reflexivity)
                    ltac:(intros img s; reflexivity)
                    ltac:(intros n s; apply Permutation_refl)))).
    rewrite repeat_length. lia.
Defined.

Lemma bindM_inv {A B} (m : M A) (k : A -> M B) (s : noise) (r : B * noise) :
  bindM m k s = Ok r -> exists a s1, m s = Ok (a, s1) /\ k a s1 = Ok r.
Proof.
  unfold bindM. destruct (m s) as [[a s1]|e]; [eauto | discriminate].
Qed.

Lemma div_succ (n t : nat) :
  (0 < t)%nat ->
  (S n / t = n / t + (if Nat.modulo (S n) t =? 0 then 1 else 0))%nat.
Proof.
  intros Ht.
  pose proof (Nat.div_mod_eq n t) as E.
  pose proof (Nat.mod_upper_bound n t ltac:(lia)) as B.
  set (q := (n / t)%nat) in *. set (r := Nat.modulo n t) in *.
  destruct (Nat.eq_dec (r + 1) t) as [Ert|Ert].
  - assert (Hm : Nat.modulo (S n) t = 0%nat)
      by (symmetry; apply (Nat.mod_unique _ _ (q + 1)); nia).
    rewrite Hm. simpl. symmetry. apply (Nat.div_unique _ _ _ 0); nia.
  - assert (Hm : Nat.modulo (S n) t = (r + 1)%nat)
      by (symmetry; apply (Nat.mod_unique _ _ q); nia).
    rewrite Hm. destruct (Nat.eqb_spec (r + 1) 0); [lia|].
    rewrite Nat.add_0_r. symmetry. apply (Nat.div_unique _ _ _ (r + 1)); nia.
Qed.

Lemma marked_batches_count (tenth n : nat) :
  (0 < tenth)%nat -> length (marked_batches tenth 1 n) = (n / tenth)%nat.
Proof.
  intros Ht. unfold marked_batches. induction n as [|n IH].
  - simpl. symmetry. apply Nat.div_small. exact Ht.
  - rewrite seq_S, filter_app, length_app, IH, (div_succ n tenth Ht).
    f_equal. simpl. destruct (Nat.modulo (S n) tenth =? 0)%nat; reflexivity.
Qed.

Lemma marks_per_epoch_bounds (len : nat) :
  (10 <= len -> 10 <= len / (len / 10) <= 19)%nat.
Proof.
  intros Hlen.
  pose proof (Nat.div_mod_eq len 10) as E.
  pose proof (Nat.mod_upper_bound len 10 ltac:(lia)) as B.
  set (q := (len / 10)%nat) in *.
  assert (Hq : (0 < q)%nat) by lia.
  split.
  - apply Nat.div_le_lower_bound; lia.
  - assert (len / q < 20)%nat; [|lia].
    apply Nat.Div0.div_lt_upper_bound. nia.
Qed.

Lemma train_step_inv (ext : Externals) (theta : state_dict) (opt : optimizer ext)
    (x : tensor) (s s' : noise) loss theta' opt' :
  train_step ext theta opt x s = Ok ((loss, theta', opt'), s') ->
  (opt', theta') = backward_step ext opt theta x s.
Proof.
  unfold train_step. intros H.
  apply bindM_inv in H. destruct H as ([[x_recon mu] logvar] & s1 & _ & H).
  apply bindM_inv in H. destruct H as (l & s2 & _ & H).
  destruct (backward_step ext opt theta x s) as [o t].
  unfold ret in H. injection H as _ <- <- _. reflexivity.
Qed.

Section LoopOutput.

Variable ext : Externals.
Variable ld : DataLoader.

(** What the optimizer keeps true of its state and the parameters. *)
Variable kept : optimizer ext -> state_dict -> Prop.
Hypothesis step_keeps :
  forall opt theta x s,
    kept opt theta ->
    kept (fst (backward_step ext opt theta x s))
         (snd (backward_step ext opt theta x s)).

Lemma batch_loop_output (batches : list (list nat)) :
  forall b r st s rl st' s',
    batch_loop ext ld b batches r st s = Ok ((rl, st'), s') ->
    output st' =
      output st ++
      repeat Progress
        (length (marked_batches (DataLoader_len ld / 10) b (length batches))) /\
    (kept (optim st) (params st) -> kept (optim st') (params st')).
Proof using step_keeps.
  induction batches as [|idxs rest IH]; intros b r st s rl st' s' H.
  - cbn [batch_loop] in H. unfold ret in H. injection H as _ <- _.
    simpl. rewrite app_nil_r. auto.
  - cbn [batch_loop] in H.
    apply bindM_inv in H. destruct H as (xs & s1 & _ & H).
    apply bindM_inv in H. destruct H as (x & s2 & _ & H).
    apply bindM_inv in H. destruct H as ([[loss theta'] opt'] & s3 & Et & H).
    cbv beta iota zeta in H.
    destruct (DataLoader_len ld / 10 =? 0)%nat; [discriminate H|].
    apply IH in H. cbn [output params optim] in H. destruct H as (Hout & Hkept).
    apply train_step_inv in Et. split.
    + rewrite Hout. unfold marked_batches. cbn [length seq filter].
      destruct (Nat.modulo b (DataLoader_len ld / 10) =? 0)%nat.
      * rewrite <- app_assoc. reflexivity.
      * reflexivity.
    + intros Hk. apply Hkept.
      pose proof (step_keeps (optim st) (params st) x s2 Hk) as Hk'.
      rewrite <- Et in Hk'. exact Hk'.
Qed.

Lemma run_epoch_output (epoch : nat) (st : training ext) (s : noise) st' s' :
  (forall n s, Permutation (fst (randperm ext n s)) (seq 0 n)) ->
  (10 <= DataLoader_len ld)%nat ->
  run_epoch ext ld epoch st s = Ok (st', s') ->
  (exists value,
     output st' =
       output st ++
       repeat Progress (DataLoader_len ld / (DataLoader_len ld / 10)) ++
       [EpochLoss epoch value]) /\
  (kept (optim st) (params st) -> kept (optim st') (params st')).
Proof using step_keeps.
  intros Hperm Hten H. unfold run_epoch in H.
  apply bindM_inv in H. destruct H as (order & s1 & Eo & H).
  apply bindM_inv in H. destruct H as ([rl st1] & s2 & Eb & H).
  cbv beta iota zeta in H.
  destruct (fst (Dataset_len (dataset ld)) =? 0)%nat; [discriminate H|].
  unfold ret in H. injection H as <- _.
  apply batch_loop_output in Eb. destruct Eb as (Hout & Hkept).
  split; [|cbn [optim params]; exact Hkept].
  eexists. cbn [output]. rewrite Hout, <- app_assoc. do 2 f_equal.
  destruct (sampler_ok ext ld Hperm s) as (order' & s1' & Eo' & _ & Hlen).
  rewrite Eo in Eo'. injection Eo' as <- <-.
  assert (Hbs : (0 < loader_batch_size ld)%nat)
    by (apply batch_size_positive; exact Hten).
  rewrite marked_batches_count
    by (pose proof (Nat.div_str_pos (DataLoader_len ld) 10); lia).
  rewrite batch_sampler_length, Hlen by (simpl; assumption).
  reflexivity.
Qed.

Lemma epoch_loop_output (epoch_range : list nat) :
  (forall n s, Permutation (fst (randperm ext n s)) (seq 0 n)) ->
  (10 <= DataLoader_len ld)%nat ->
  forall st s st' s',
    epoch_loop ext ld epoch_range st s = Ok (st', s') ->
    (exists values,
       length values = length epoch_range /\
       output st' =
         output st ++
         flat_map (fun line =>
                     repeat Progress (DataLoader_len ld / (DataLoader_len ld / 10))
                     ++ [EpochLoss (fst line) (snd line)])
           (combine epoch_range values)) /\
    (kept (optim st) (params st) -> kept (optim st') (params st')).
Proof using step_keeps.
  intros Hperm Hten.
  induction epoch_range as [|epoch rest IH]; intros st s st' s' H.
  - cbn [epoch_loop] in H. unfold ret in H. injection H as <- _.
    split; [|auto]. exists []. simpl. rewrite app_nil_r. auto.
  - cbn [epoch_loop] in H.
    apply bindM_inv in H. destruct H as (st1 & s1 & Er & H).
    apply (run_epoch_output _ _ _ _ _ Hperm Hten) in Er.
    destruct Er as ((value & Hout1) & Hk1).
    apply IH in H. destruct H as ((values & Hlen & Hout) & Hk).
    split; [|auto].
    exists (value :: values). split; [simpl; congruence|].
    rewrite Hout, Hout1. simpl. rewrite <- !app_assoc. reflexivity.
Qed.

End LoopOutput.

Lemma progress_marks_app out1 out2 :
  progress_marks (out1 ++ out2) = (progress_marks out1 + progress_marks out2)%nat.
Proof.
  unfold progress_marks. rewrite filter_app, length_app. reflexivity.
Qed.

Lemma progress_marks_repeat n : progress_marks (repeat Progress n) = n.
Proof.
  unfold progress_marks. induction n as [|n IH]; simpl; [reflexivity|].
  f_equal. exact IH.
Qed.

Lemma progress_marks_epochs (marks : nat) (lines : list (nat * R)) :
  progress_marks
    (flat_map (fun line => repeat Progress marks ++ [EpochLoss (fst line) (snd line)])
       lines) = (length lines * marks)%nat.
Proof.
  induction lines as [|line lines IH]; simpl; [reflexivity|].
  rewrite !progress_marks_app, progress_marks_repeat, IH.
  unfold progress_marks at 1. simpl. lia.
Qed.

(** X11. The whole output of a training run: for each epoch from 1 to 10,
    [len(train_loader) / (len(train_loader) // 10)] progress marks, which
    is between 10 and 19 of them and not always 10, followed by the line of
    the epoch; then the saved file, and nothing else. *)
Theorem training_output_layout (ext : Externals) (ps : list string)
    (theta : state_dict) (s : noise) :
  Forall (fun p => exists img, default_loader ext p = Ok img)
    (paths (train_data ps)) ->
  (forall img s, Tensor.shape (fst (transform ext img s)) = [3; 64; 64]%nat) ->
  (forall n s, Permutation (fst (randperm ext n s)) (seq 0 n)) ->
  (10 <= DataLoader_len (train_loader ps))%nat ->
  let marks := (DataLoader_len (train_loader ps) /
                (DataLoader_len (train_loader ps) / 10))%nat in
  (10 <= marks <= 19)%nat /\
  exists st s' values,
    train ext ps theta s = Ok (st, s') /\
    length values = epochs /\
    output st =
      flat_map (fun line => repeat Progress marks ++ [EpochLoss (fst line) (snd line)])
        (combine (seq 1 epochs) values)
      ++ [Saved "beta-vae.pth" (params st)] /\
    progress_marks (output st) = (epochs * marks)%nat.
Proof.
  intros Hfiles Hshape Hperm Hten marks.
  split; [apply marks_per_epoch_bounds; exact Hten|].
  destruct (epoch_loop_spec ext (train_loader ps) Hfiles Hshape Hperm Hten
              (seq 1 epochs)
              {| params := theta; optim := Adam ext theta; output := [] |} s)
    as (history & st & s' & _ & Eloop & _).
  destruct (epoch_loop_output ext (train_loader ps) (fun _ _ => True)
              ltac:(auto) (seq 1 epochs) Hperm Hten _ _ _ _ Eloop)
    as ((values & Hlen & Hout) & _).
  cbn [output app] in Hout. fold marks in Hout.
  exists {| params := params st; optim := optim st;
            output := output st ++ [Saved "beta-vae.pth" (params st)] |}, s', values.
  split; [rewrite train_on_train_loader by (apply ten_batches_iff in Hten; lia);
          rewrite (bindM_Ok _ _ s _ s' Eloop); reflexivity|].
  split; [rewrite Hlen; apply length_seq|].
  cbn [output params]. split; [rewrite Hout; reflexivity|].
  rewrite Hout, progress_marks_app, progress_marks_epochs.
  rewrite length_combine, Hlen, Nat.min_id, length_seq.
  unfold progress_marks. simpl. lia.
Qed.

Lemma training_output_layout_witness :
  exists st s' (values : list R),
    train still_world (repeat "face.jpg"%string 160) (fun _ => vec []) (fun _ => 0)
      = Ok (st, s') /\
    length values = 10%nat /\
    progress_marks (output st) = 150%nat.
Proof.
  destruct (training_output_layout still_world (repeat "face.jpg"%string 160)
              (fun _ => vec []) (fun _ => 0))
    as (_ & st & s' & values & Et & Hlen & _ & Hmarks).
  - apply Forall_forall. intros p _. exists tt. reflexivity.
  - intros img s. reflexivity.
  - intros n s. apply Permutation_refl.
  - vm_compute. lia.
  - exists st, s', values. split; [exact Et|]. split; [exact Hlen | exact Hmarks].
Defined.

(** X12. Training touches the parameters through the optimizer alone:
    whatever relation between the optimizer state and the parameters holds
    after [optim.Adam(vae.parameters())] and is kept by every
    [loss.backward(); optimizer.step()], holds of the final state, and the
    parameters written to [beta-vae.pth] are those of that state. *)
Theorem parameters_change_by_optimizer_only (ext : Externals) (ps : list string)
    (theta : state_dict) (s : noise)
    (kept : optimizer ext -> state_dict -> Prop) :
  Forall (fun p => exists img, default_loader ext p = Ok img)
    (paths (train_data ps)) ->
  (forall img s, Tensor.shape (fst (transform ext img s)) = [3; 64; 64]%nat) ->
  (forall n s, Permutation (fst (randperm ext n s)) (seq 0 n)) ->
  (10 <= DataLoader_len (train_loader ps))%nat ->
  kept (Adam ext theta) theta ->
  (forall opt theta x s,
      kept opt theta ->
      kept (fst (backward_step ext opt theta x s))
           (snd (backward_step ext opt theta x s))) ->
  exists st s',
    train ext ps theta s = Ok (st, s') /\
    kept (optim st) (params st) /\
    saved_files (output st) = [("beta-vae.pth"%string, params st)].
Proof.
  intros Hfiles Hshape Hperm Hten H0 Hstep.
  destruct (epoch_loop_spec ext (train_loader ps) Hfiles Hshape Hperm Hten
              (seq 1 epochs)
              {| params := theta; optim := Adam ext theta; output := [] |} s)
    as (history & st & s' & _ & Eloop & _ & _ & _ & Hsaved).
  destruct (epoch_loop_output ext (train_loader ps) kept Hstep
              (seq 1 epochs) Hperm Hten _ _ _ _ Eloop) as (_ & Hk).
  cbn [optim params output] in Hk, Hsaved.
  exists {| params := params st; optim := optim st;
            output := output st ++ [Saved "beta-vae.pth" (params st)] |}, s'.
  split; [rewrite train_on_train_loader by (apply ten_batches_iff in Hten; lia);
          rewrite (bindM_Ok _ _ s _ s' Eloop); reflexivity|].
  cbn [optim params output]. split; [apply Hk; exact H0|].
  rewrite saved_files_app, Hsaved. reflexivity.
Qed.

Lemma parameters_change_by_optimizer_only_witness :
  exists st s',
    train still_world (repeat "face.jpg"%string 140) (fun _ => vec []) (fun _ => 0)
      = Ok (st, s') /\
    params st = (fun _ => vec []) /\
    saved_files (output st) = [("beta-vae.pth"%string, params st)].
Proof.
  apply (parameters_change_by_optimizer_only still_world
           (repeat "face.jpg"%string 140) (fun _ => vec []) (fun _ => 0)
           (fun _ th => th = (fun _ => vec []))).
  - apply Forall_forall. intros p _. exists tt. reflexivity.
  - intros img s. reflexivity.
  - intros n s. apply Permutation_refl.
  - vm_compute. lia.
  - reflexivity.
  - intros opt th x s H. exact H.
Defined.

(** ** The latent traversal *)

Lemma for_each_ok {A B} (body : A -> result B) (P : A -> B -> Prop) (l : list A) :
  (forall a, In a l -> exists b, body a = Ok b /\ P a b) ->
  exists bs, for_each body l = Ok bs /\ Forall2 P l bs.
Proof.
  induction l as [|a l IH]; intros H.
  - exists []. split; [reflexivity | constructor].
  - destruct (H a (or_introl eq_refl)) as (b & Eb & Pb).
    destruct IH as (bs & Ebs & Pbs); [intros a' Ha'; apply H; right; exact Ha'|].
    exists (b :: bs). cbn [for_each]. rewrite Eb, bind_Ok, Ebs, bind_Ok.
    split; [reflexivity | constructor; assumption].
Qed.

Lemma setitem_vector (z : tensor) (len i : nat) (a : R) :
  Tensor.shape z = [len] -> Tensor.wf z -> (i < len)%nat ->
  exists z_,
    setitem z i a = Ok z_ /\
    Tensor.shape z_ = [len] /\
    Tensor.get z_ i = a /\
    (forall j, j <> i -> Tensor.get z_ j = Tensor.get z j).
Proof.
  intros Hz Wz Hi. unfold Tensor.wf in Wz. rewrite Hz in Wz. simpl in Wz.
  rewrite Nat.mul_1_r in Wz.
  unfold setitem. rewrite Hz.
  destruct (Nat.ltb_spec i len) as [_|]; [|lia].
  eexists. split; [reflexivity|]. split; [reflexivity|].
  unfold Tensor.get. cbn [Tensor.data Tensor.numel fold_right repeat].
  rewrite !Nat.mul_1_r.
  assert (Hf : length (firstn i (Tensor.data z)) = i)
    by (rewrite length_firstn; lia).
  split.
  - rewrite app_nth2, Hf, Nat.sub_diag by lia. reflexivity.
  - intros j Hj. destruct (Nat.lt_ge_cases j i) as [Hlt|Hge].
    + rewrite app_nth1 by lia. rewrite nth_firstn.
      destruct (Nat.ltb_spec j i); [reflexivity | lia].
    + rewrite app_nth2, Hf by lia.
      destruct (j - i)%nat as [|k] eqn:Ek; [lia|].
      cbn [app nth]. rewrite nth_skipn. f_equal. lia.
Qed.

Lemma select_first_ok (x : tensor) (n : nat) (rest : list nat) :
  Tensor.shape x = n :: rest -> (0 < n)%nat -> Tensor.wf x ->
  exists y,
    select x 0 = Ok y /\
    Tensor.shape y = rest /\
    Tensor.wf y /\
    (forall P : R -> Prop, Forall P (Tensor.data x) -> Forall P (Tensor.data y)).
Proof.
  intros Hx Hn Wx. unfold Tensor.wf in Wx. rewrite Hx in Wx. simpl in Wx.
  unfold select. rewrite Hx.
  destruct (Nat.ltb_spec 0 n) as [_|]; [|lia].
  eexists. split; [reflexivity|]. split; [reflexivity|]. split.
  - unfold Tensor.wf. cbn [Tensor.data Tensor.shape Nat.mul skipn].
    rewrite length_firstn. nia.
  - intros P HP. cbn [Tensor.data Nat.mul skipn].
    rewrite <- (firstn_skipn (Tensor.numel rest) (Tensor.data x)) in HP.
    apply Forall_app in HP. apply HP.
Qed.

Lemma sample_ok_wf (mu logvar : tensor) (s : noise) :
  Tensor.shape logvar = Tensor.shape mu ->
  Tensor.wf mu -> Tensor.wf logvar ->
  exists z s',
    sample mu logvar s = Ok (z, s') /\
    Tensor.shape z = Tensor.shape mu /\
    Tensor.wf z.
Proof.
  intros Hs Wm Wl. do 2 eexists. split; [apply sample_eq; exact Hs|].
  split; [reflexivity|]. unfold Tensor.wf. cbn [Tensor.data Tensor.shape].
  rewrite !zip_with_length, (std_data_length mu logvar Hs Wl), length_map,
    length_seq, Wm. lia.
Qed.

Lemma VAE_forward_inv (v : VAE.t) (x : tensor) (s s' : noise) x_recon mu logvar :
  VAE.forward v x s = Ok ((x_recon, mu, logvar), s') ->
  Encoder.forward (VAE.encoder v) x = Ok (mu, logvar) /\
  exists z,
    sample mu logvar s = Ok (z, s') /\
    Decoder.forward (VAE.decoder v) z = Ok x_recon.
Proof.
  unfold VAE.forward. intros H.
  apply bindM_inv in H. destruct H as ([mu' logvar'] & s1 & Ee & H).
  apply bindM_inv in H. destruct H as (z & s2 & Ez & H).
  apply bindM_inv in H. destruct H as (xr & s3 & Ed & H).
  unfold ret in H. injection H as <- <- <- <-.
  unfold lift in Ee, Ed.
  destruct (Encoder.forward (VAE.encoder v) x) as [[m l]|] eqn:E1; [|discriminate].
  injection Ee as <- <- <-.
  destruct (Decoder.forward (VAE.decoder v) z) as [y|] eqn:E2; [|discriminate].
  injection Ed as <- <-.
  split; [reflexivity|]. exists z. split; [exact Ez | exact E2].
Qed.

Lemma traversal_row_ok (latent : nat) (theta : state_dict) (z ls : tensor) (i : nat) :
  Tensor.shape z = [latent] -> Tensor.wf z -> (i < latent)%nat ->
  exists row,
    traversal_row (Decoder.init latent theta) z ls i = Ok row /\
    Forall2 (traversal_image (Decoder.init latent theta) z i) (Tensor.data ls) row.
Proof.
  intros Hz Wz Hi. unfold traversal_row. apply for_each_ok. intros a _.
  destruct (setitem_vector z latent i a Hz Wz Hi) as (z_ & Es & Sz & Gi & Gj).
  destruct (decoder_forward_lead_ok latent theta z_ [] Sz)
    as (y & Ed & Sy & Wy & Uy).
  destruct (select_first_ok y _ _ Sy ltac:(simpl; lia) Wy)
    as (im & Ei & Si & Wi & Pi).
  exists im. unfold clone. rewrite Es, bind_Ok, Ed, bind_Ok.
  split; [exact Ei|].
  exists z_, y. repeat split; try assumption. apply Pi. exact Uy.
Qed.

Lemma concat_uniform_length {A} (rows : list (list A)) (m : nat) :
  Forall (fun row => length row = m) rows ->
  length (concat rows) = (length rows * m)%nat.
Proof.
  induction 1 as [|row rows Hrow _ IH]; simpl; [reflexivity|].
  rewrite length_app, Hrow, IH. reflexivity.
Qed.

Lemma linspace_traversal_values :
  Tensor.data (linspace (-3) 3 5) = [-3; -3 / 2; 0; 3 / 2; 3].
Proof.
  unfold linspace, vec. cbn [Tensor.data seq List.map Nat.sub INR].
  repeat match goal with
         | |- _ :: _ = _ :: _ => apply (f_equal2 cons); [lra|]
         end.
  reflexivity.
Qed.

(** X13. The traversal cell, on a loader with a training file at least.
    On a machine with a GPU the cell raises after it has fetched the first
    batch: the batch is on the CPU and [vae] is not.  Without a GPU it runs
    the first batch through [vae], draws a fresh sample from the [mu] and
    [logvar] of that pass, and takes its first row [z]; it gives
    [plot_grid] [latent_size] rows of 5 images, which fill the grid
    exactly.  The image in row [i] and column [k] is the decoding of [z]
    with coordinate [i] alone replaced by the [k]-th of the values -3,
    -3/2, 0, 3/2, 3 ([z] itself is never changed: the assignment goes to a
    clone); it has shape (3, 64, 64) and elements in [0, 1]. *)
Theorem traversal_cell_images (ext : Externals) (ld : DataLoader)
    (theta : state_dict) (s : noise) :
  Forall (fun p => exists img, default_loader ext p = Ok img) (paths (dataset ld)) ->
  (forall img s, Tensor.shape (fst (transform ext img s)) = [3; 64; 64]%nat) ->
  (forall n s, Permutation (fst (randperm ext n s)) (seq 0 n)) ->
  paths (dataset ld) <> [] ->
  let vae := VAE.init latent_size theta in
  let dec := VAE.decoder vae in
  let values := [-3; -3 / 2; 0; 3 / 2; 3] in
  (cuda_is_available ext = true ->
   traversal_cell ext ld theta s = Raise DeviceError) /\
  (cuda_is_available ext = false ->
   exists order s1 idxs rest xs s2 x x_recon mu logvar s3 zz s4 z rows,
     sampler ext ld s = Ok (order, s1) /\
     batch_sampler (loader_batch_size ld) [] order = idxs :: rest /\
     fetch ext (dataset ld) idxs s1 = Ok (xs, s2) /\
     stack xs = Ok x /\
     VAE.forward vae x s2 = Ok ((x_recon, mu, logvar), s3) /\
     sample mu logvar s3 = Ok (zz, s4) /\
     select zz 0 = Ok z /\
     traversal_cell ext ld theta s = Ok (Some (concat rows, latent_size, 5%nat), s4) /\
     Tensor.shape z = [latent_size] /\
     length (concat rows) = (latent_size * 5)%nat /\
     Forall2 (fun i row => Forall2 (traversal_image dec z i) values row)
       (seq 0 latent_size) rows).
Proof.
  intros Hfiles Hshape Hperm Hne vae dec values.
  destruct (sampler_ok ext ld Hperm s) as (order & s1 & Eo & Ho & Hlen).
  assert (Hord : order <> [])
    by (intros ->; destruct (paths (dataset ld)); [contradiction | discriminate]).
  pose proof (batch_sampler_good (dataset ld) (loader_batch_size ld) order []
                (Forall_nil _) Ho) as Hgood.
  pose proof (batch_sampler_nonempty (loader_batch_size ld) order []
                (or_introl Hord)) as Hb.
  destruct (batch_sampler (loader_batch_size ld) [] order) as [|idxs rest] eqn:Eb;
    [contradiction|].
  apply Forall_inv in Hgood.
  destruct (batch_ok ext ld Hfiles Hshape idxs s1 Hgood)
    as (xs & x & s2 & Ef & Es & Sx & _).
  assert (Eprefix : forall k : tensor -> M (option (list tensor * nat * nat)),
             (order <~ sampler ext ld ;;
              match batch_sampler (loader_batch_size ld) [] order with
              | [] => ret None
              | idxs :: _ =>
                  xs <~ fetch ext (dataset ld) idxs ;;
                  x <~ lift (stack xs) ;; k x
              end) s = k x s2).
  { intros k. rewrite (bindM_Ok _ _ s _ s1 Eo), Eb.
    rewrite (bindM_Ok _ _ s1 _ s2 Ef).
    rewrite (bindM_Ok _ _ s2 x s2) by (unfold lift; rewrite Es; reflexivity).
    reflexivity. }
  split.
  - intros Hcuda. unfold traversal_cell. rewrite Eprefix. cbv zeta.
    unfold bindM, lift, device. rewrite Hcuda. reflexivity.
  - intros Hcuda.
    destruct (VAE_forward_ok theta _ x s2 Sx)
      as (x_recon & mu & logvar & s3 & Ev & _ & _ & Sm & Sl).
    destruct (VAE_forward_inv _ _ _ _ _ _ _ Ev) as (Ee & _).
    destruct (encoder_forward_ok latent_size
                (fun k => theta ("encoder." ++ k)%string) _ x Sx)
      as (mu' & logvar' & Ee' & _ & _ & Wm & Wl).
    change (VAE.encoder (VAE.init latent_size theta))
      with (Encoder.init latent_size (fun k => theta ("encoder." ++ k)%string)) in Ee.
    rewrite Ee in Ee'. injection Ee' as <- <-.
    destruct (sample_ok_wf mu logvar s3 ltac:(congruence) Wm Wl)
      as (zz & s4 & Ez & Sz & Wz).
    rewrite Sm in Sz.
    assert (Hidx : (0 < length idxs)%nat)
      by (destruct Hgood as [Hn _]; destruct idxs; [contradiction | simpl; lia]).
    destruct (select_first_ok zz _ _ Sz Hidx Wz) as (z & Esel & Shz & Wzz & _).
    assert (Hrows : exists rows,
               traversal_rows dec z (linspace (-3) 3 5) = Ok rows /\
               Forall2 (fun i row =>
                          Forall2 (traversal_image dec z i)
                            (Tensor.data (linspace (-3) 3 5)) row)
                 (seq 0 latent_size) rows).
    { unfold traversal_rows. rewrite Shz. apply for_each_ok. intros i Hi.
      apply in_seq in Hi.
      apply (traversal_row_ok latent_size
               (fun k => theta ("decoder." ++ k)%string) z _ i Shz Wzz).
      lia. }
    destruct Hrows as (rows & Er & Hall). rewrite linspace_traversal_values in Hall.
    assert (Hlenrows : length rows = latent_size)
      by (apply Forall2_length in Hall; rewrite length_seq in Hall; congruence).
    assert (Hcat : length (concat rows) = (latent_size * 5)%nat).
    { rewrite (concat_uniform_length rows 5), Hlenrows; [reflexivity|].
      clear - Hall. induction Hall as [|i row others rows' H _ IH]; constructor; auto.
      apply Forall2_length in H. simpl in H. congruence. }
    exists order, s1, idxs, rest, xs, s2, x, x_recon, mu, logvar, s3, zz, s4, z, rows.
    split; [exact Eo|]. split; [exact Eb|]. split; [exact Ef|].
    split; [exact Es|]. split; [exact Ev|]. split; [exact Ez|].
    split; [exact Esel|].
    split; [|split; [exact Shz | split; [exact Hcat | exact Hall]]].
    unfold traversal_cell. rewrite Eprefix. cbv zeta.
    rewrite (bindM_Ok _ _ s2 tt s2)
      by (unfold lift, device; rewrite Hcuda; reflexivity).
    fold vae. rewrite (bindM_Ok _ _ s2 _ s3 Ev). cbv beta iota.
    rewrite (bindM_Ok _ _ s3 _ s4 Ez).
    rewrite (bindM_Ok _ _ s4 z s4) by (unfold lift; rewrite Esel; reflexivity).
    rewrite (bindM_Ok _ _ s4 rows s4)
      by (unfold lift; fold dec; rewrite Er; reflexivity).
    rewrite Shz, Hcat. reflexivity.
Qed.

Lemma traversal_cell_images_witness :
  traversal_cell cuda_world (train_loader (repeat "face.jpg"%string 101))
    (fun _ => vec []) (fun _ => 0) = Raise DeviceError /\
  exists z rows s',
    traversal_cell still_world (train_loader (repeat "face.jpg"%string 101))
      (fun _ => vec []) (fun _ => 0)
      = Ok (Some (concat rows, 16%nat, 5%nat), s') /\
    Tensor.shape z = [16%nat] /\
    length (concat rows) = 80%nat.
Proof.
  split.
  - apply (proj1 (traversal_cell_images cuda_world
                    (train_loader (repeat "face.jpg"%string 101))
                    (fun _ => vec []) (fun _ => 0)
                    ltac:(apply Forall_forall; intros p _; exists tt; reflexivity)
                    ltac:(intros img s; reflexivity)
                    ltac:(intros n s; apply Permutation_refl)
                    ltac:(discriminate))).
    reflexivity.
  - destruct (proj2 (traversal_cell_images still_world
                       (train_loader (repeat "face.jpg"%string 101))
                       (fun _ => vec []) (fun _ => 0)
                       ltac:(apply Forall_forall; intros p _; exists tt; reflexivity)
                       ltac:(intros img s; reflexivity)
                       ltac:(intros n s; apply Permutation_refl)
                       ltac:(discriminate)) eq_refl)
      as (order & s1 & idxs & rest & xs & s2 & x & x_recon & mu & logvar & s3 & zz
          & s4 & z & rows & _ & _ & _ & _ & _ & _ & _ & E & Sz & Hlen & _).
    exists z, rows, s4. split; [exact E|]. split; [exact Sz | exact Hlen].
Defined.

(** ** The last cell *)

Lemma select_ok (x : tensor) (n : nat) (rest : list nat) (i : nat) :
  Tensor.shape x = n :: rest -> (i < n)%nat ->
  exists y, select x i = Ok y /\ Tensor.shape y = rest.
Proof.
  intros Hx Hi. unfold select. rewrite Hx.
  destruct (Nat.ltb_spec i n) as [_|]; [|lia].
  eexists. split; reflexivity.
Qed.

Lemma latent_grid_shape :
  exists grid,
    stack_last (meshgrid (linspace (-3) 3 10) (linspace (-3) 3 10)) = Ok grid /\
    Tensor.shape grid = [10; 10; 2]%nat.
Proof.
  unfold stack_last, meshgrid.
  cbn [Tensor.shape].
  destruct (list_eq_dec Nat.eq_dec _ _) as [_|Hne]; [|contradiction].
  eexists. split; [reflexivity|].
  cbn [Tensor.shape]. unfold linspace, vec. cbn [Tensor.data].
  rewrite length_map, length_seq. reflexivity.
Qed.

(** X14. The last cell never reaches [plot_grid].  With the notebook's
    [latent_size] of 16 the 200 numbers of the 10 x 10 grid of points
    cannot be arranged in rows of 16 and the reshape raises.  With a
    [latent_size] that divides 200, such as the 2 the cell was written
    for, the decoder runs, and the cell then raises on its first sample:
    a (3, 64, 64) image does not fit the (64, 64) shape of
    [train_data[0][0]] (or an error of reading that training file comes
    first). *)
Theorem latent_grid_cell_raises (ext : Externals) (ps : list string)
    (theta : state_dict) (s : noise) :
  (forall img s, Tensor.shape (fst (transform ext img s)) = [3; 64; 64]%nat) ->
  latent_grid_cell ext ps latent_size theta s = Raise ShapeError /\
  forall latent, exists e, latent_grid_cell ext ps latent theta s = Raise e.
Proof.
  intros Hshape.
  destruct latent_grid_shape as (grid & Eg & Sg).
  assert (Hgen : forall latent,
             exists e, latent_grid_cell ext ps latent theta s = Raise e).
  { intros latent. unfold latent_grid_cell. cbv zeta.
    rewrite (bindM_Ok _ _ s grid s) by (unfold lift; rewrite Eg; reflexivity).
    unfold Tensor.reshape_infer. rewrite Sg.
    change (Tensor.numel [10; 10; 2]%nat) with 200%nat.
    change (Tensor.numel [latent]) with (latent * 1)%nat. rewrite Nat.mul_1_r.
    destruct (Nat.eqb_spec latent 0) as [H0|H0];
      [eexists; reflexivity|].
    destruct (Nat.eqb_spec (Nat.modulo 200 latent) 0) as [Hm|Hm];
      [|eexists; reflexivity].
    set (z := Tensor.mk [Nat.div 200 latent; latent] (Tensor.data grid)).
    rewrite (bindM_Ok _ _ s z s) by reflexivity.
    destruct (decoder_forward_lead_ok latent
                (fun k => theta ("decoder." ++ k)%string) z [Nat.div 200 latent]
                eq_refl) as (samples & Ed & Ss & _ & _).
    change (Decoder.init latent (fun k => theta ("decoder." ++ k)%string))
      with (VAE.decoder (VAE.init latent theta)) in Ed.
    rewrite (bindM_Ok _ _ s samples s) by (unfold lift; rewrite Ed; reflexivity).
    assert (Hn : exists m, Tensor.numel [Nat.div 200 latent] = S m).
    { pose proof (Nat.div_mod_eq 200 latent) as E. rewrite Hm in E.
      change (Tensor.numel [Nat.div 200 latent]) with (Nat.div 200 latent * 1)%nat.
      destruct (Nat.div 200 latent) as [|q]; [lia|].
      exists q. lia. }
    destruct Hn as (m & Hn). rewrite Hn in Ss.
    assert (Hu : exists first others,
               unbind samples = Ok (first :: others) /\
               Tensor.shape first = [3; 64; 64]%nat).
    { unfold unbind. rewrite Ss.
      destruct (for_each_ok (select samples)
                  (fun _ y => Tensor.shape y = [3; 64; 64]%nat) (seq 0 (S m)))
        as (ys & Ey & Hall).
      - intros i Hi. apply in_seq in Hi.
        apply (select_ok samples (S m) _ i Ss). lia.
      - rewrite Ey. inversion Hall as [|i0 y0 more ys' Hy0 _ E1 E2]; subst.
        exists y0, ys'. split; [reflexivity | exact Hy0]. }
    destruct Hu as (first & others & Eu & Sf).
    rewrite (bindM_Ok _ _ s _ s) by (unfold lift; rewrite Eu; reflexivity).
    cbn [for_each_M]. unfold bindM at 1. unfold bindM at 1. unfold bindM at 1.
    unfold Dataset_getitem.
    destruct (nth_error (paths (train_data ps)) 0) as [p|];
      [|eexists; reflexivity].
    unfold bindM at 1. unfold lift at 1.
    destruct (default_loader ext p) as [img|e]; [|eexists; reflexivity].
    unfold bindM at 1.
    pose proof (Hshape img s) as Ht.
    destruct (transform ext img s) as [t s1]. cbn [fst] in Ht.
    unfold ret at 1. cbv beta iota.
    destruct (select_ok t 3 [64; 64]%nat 0 Ht ltac:(lia)) as (t0 & E0 & S0).
    rewrite (bindM_Ok _ _ s1 t0 s1) by (unfold lift; rewrite E0; reflexivity).
    unfold reshape_to. rewrite S0, Sf.
    eexists. reflexivity. }
  split; [|exact Hgen].
  unfold latent_grid_cell. cbv zeta.
  rewrite (bindM_Ok _ _ s grid s) by (unfold lift; rewrite Eg; reflexivity).
  unfold Tensor.reshape_infer. rewrite Sg. reflexivity.
Qed.

Lemma latent_grid_cell_raises_witness :
  exists e,
    latent_grid_cell still_world (repeat "face.jpg"%string 140) 2
      (fun _ => vec []) (fun _ => 0) = Raise e.
Proof.
  apply (proj2 (latent_grid_cell_raises still_world (repeat "face.jpg"%string 140)
                  (fun _ => vec []) (fun _ => 0)
                  ltac:(intros img s; reflexivity)) 2%nat).
Defined.

(** ** An unreadable training file *)

Lemma sampler_permutation (ext : Externals) (ld : DataLoader) (s : noise) :
  (forall n s, Permutation (fst (randperm ext n s)) (seq 0 n)) ->
  exists order s',
    sampler ext ld s = Ok (order, s') /\
    Permutation order (seq 0 (length (paths (dataset ld)))).
Proof.
  intros Hperm. unfold sampler. cbn [Dataset_len fst]. destruct (shuffle ld).
  - pose proof (Hperm (length (paths (dataset ld))) s) as Hp.
    destruct (randperm ext (length (paths (dataset ld))) s) as [order s'].
    exists order, s'. split; [reflexivity | exact Hp].
  - exists (seq 0 (length (paths (dataset ld)))), s.
    split; [reflexivity | apply Permutation_refl].
Qed.

Section UnreadableFile.

Variable ext : Externals.
Variable ld : DataLoader.

Hypothesis transform_shape :
  forall img s, Tensor.shape (fst (transform ext img s)) = [3; 64; 64]%nat.

Lemma readable_not_unreadable i :
  readable ext ld i -> unreadable ext ld i -> False.
Proof.
  intros (p & img & Hp & Hl) (p' & e & Hp' & Hl'). congruence.
Qed.

Lemma getitem_cases (i : nat) (s : noise) :
  (i < length (paths (dataset ld)))%nat ->
  (readable ext ld i /\
   exists x s',
     Dataset_getitem ext (dataset ld) i s = Ok ((x, dataset ld), s') /\
     Tensor.shape x = [3; 64; 64]%nat /\
     Forall unit_interval (Tensor.data x)) \/
  (exists e, read_error ext ld e /\
             Dataset_getitem ext (dataset ld) i s = Raise e).
Proof using transform_shape.
  intros Hi. unfold Dataset_getitem.
  destruct (nth_error (paths (dataset ld)) i) as [p|] eqn:Ep;
    [|apply nth_error_None in Ep; lia].
  unfold bindM, lift. destruct (default_loader ext p) as [img|e] eqn:El.
  - left. split; [exists p, img; auto|].
    pose proof (transform_shape img s) as Ht.
    pose proof (transform_unit ext img s) as Hu.
    destruct (transform ext img s) as [x s1]. exists x, s1.
    split; [reflexivity | split; [exact Ht | exact Hu]].
  - right. exists e. split; [|reflexivity].
    exists p. split; [apply (nth_error_In _ _ Ep) | exact El].
Qed.

Lemma fetch_cases (idxs : list nat) :
  Forall (fun i => (i < length (paths (dataset ld)))%nat) idxs ->
  forall s,
    (exists xs s',
       fetch ext (dataset ld) idxs s = Ok (xs, s') /\
       length xs = length idxs /\
       Forall (fun x => Tensor.shape x = [3; 64; 64]%nat) xs /\
       Forall (fun x => Forall unit_interval (Tensor.data x)) xs /\
       Forall (readable ext ld) idxs) \/
    (exists e, read_error ext ld e /\ fetch ext (dataset ld) idxs s = Raise e).
Proof using transform_shape.
  induction 1 as [|i rest Hi Hrest IH]; intros s.
  - left. exists [], s. repeat split; constructor.
  - cbn [fetch].
    destruct (getitem_cases i s Hi)
      as [(Hr0 & x & s1 & Eg & Sx & Ux) | (e & He & Eg)].
    + rewrite (bindM_Ok _ _ s _ s1 Eg). cbv beta iota.
      destruct (IH s1) as [(xs & s2 & Ef & Hlen & Hsh & Hun & Hr) | (e & He & Ef)].
      * left. exists (x :: xs), s2. rewrite (bindM_Ok _ _ s1 _ s2 Ef).
        split; [reflexivity|]. split; [simpl; congruence|].
        split; [|split]; constructor; assumption.
      * right. exists e. split; [exact He|]. unfold bindM. rewrite Ef. reflexivity.
    + right. exists e. split; [exact He|]. unfold bindM. rewrite Eg. reflexivity.
Qed.

Lemma batch_loop_unreadable (batches : list (list nat)) :
  (DataLoader_len ld / 10)%nat <> 0%nat ->
  Forall (good_batch (dataset ld)) batches ->
  Exists (Exists (unreadable ext ld)) batches ->
  forall b r st s,
    exists e, read_error ext ld e /\ batch_loop ext ld b batches r st s = Raise e.
Proof using transform_shape.
  intros Htenth Hgood. induction Hgood as [|idxs rest [Hne Hidx] _ IH];
    intros Hex b r st s; [inversion Hex|].
  cbn [batch_loop].
  destruct (fetch_cases idxs Hidx s)
    as [(xs & s1 & Ef & Hlen & Hsh & Hun & Hr) | (e & He & Ef)].
  - assert (Hrest : Exists (Exists (unreadable ext ld)) rest).
    { inversion Hex as [? ? Hhead | ? ? Htail]; subst; [|exact Htail].
      exfalso. apply Exists_exists in Hhead. destruct Hhead as (i & Hin & Hu).
      rewrite Forall_forall in Hr. exact (readable_not_unreadable i (Hr i Hin) Hu). }
    assert (Hxs : xs <> []) by (destruct xs, idxs; simpl in *; congruence).
    pose proof (stack_ok xs _ Hxs Hsh) as Es.
    match type of Es with _ = Ok ?t => set (x := t) in Es end.
    destruct (train_step_ok ext (params st) (optim st) (length xs) x s1 eq_refl
                (stacked_unit xs Hun))
      as (loss & theta' & opt' & s2 & Et).
    rewrite (bindM_Ok _ _ s _ s1 Ef).
    rewrite (bindM_Ok _ _ s1 x s1) by (unfold lift; rewrite Es; reflexivity).
    rewrite (bindM_Ok _ _ s1 _ s2 Et). cbv beta iota zeta.
    destruct (Nat.eqb_spec (DataLoader_len ld / 10) 0) as [E0|_];
      [contradiction|].
    apply IH. exact Hrest.
  - exists e. split; [exact He|]. unfold bindM. rewrite Ef. reflexivity.
Qed.

End UnreadableFile.

(** X16. A training file that cannot be read stops the training: when the
    loader has its ten batches and some file of the train split does not
    load, the training cell raises the error of reading a file of that
    split, in the first epoch; nothing is saved.  There is no retry and no
    skipping. *)
Theorem unreadable_file_stops_training (ext : Externals) (ps : list string)
    (theta : state_dict) (s : noise) :
  (forall img s, Tensor.shape (fst (transform ext img s)) = [3; 64; 64]%nat) ->
  (forall n s, Permutation (fst (randperm ext n s)) (seq 0 n)) ->
  (10 <= DataLoader_len (train_loader ps))%nat ->
  Exists (fun p => exists e, default_loader ext p = Raise e)
    (paths (train_data ps)) ->
  exists p e,
    In p (paths (train_data ps)) /\
    default_loader ext p = Raise e /\
    train ext ps theta s = Raise e.
Proof.
  intros Hshape Hperm Hten Hbad.
  set (ld := train_loader ps) in *.
  destruct (sampler_permutation ext ld s Hperm) as (order & s1 & Eo & Hp).
  assert (Ho : Forall (fun i => (i < length (paths (dataset ld)))%nat) order).
  { apply Forall_forall. intros i Hi.
    apply (Permutation_in _ Hp) in Hi. apply in_seq in Hi. lia. }
  pose proof (batch_sampler_good (dataset ld) (loader_batch_size ld) order []
                (Forall_nil _) Ho) as Hgood.
  assert (Hex : Exists (Exists (unreadable ext ld))
                  (batch_sampler (loader_batch_size ld) [] order)).
  { apply Exists_exists in Hbad. destruct Hbad as (p & Hin & e & He).
    apply In_nth_error in Hin. destruct Hin as (i & Hi).
    assert (Hio : In i order).
    { apply (Permutation_in _ (Permutation_sym Hp)). apply in_seq.
      pose proof (nth_error_Some (paths (dataset ld)) i) as Hs.
      split; [lia|]. simpl. apply Hs.
      change (paths (dataset ld)) with (paths (train_data ps)).
      rewrite Hi. discriminate. }
    pose proof (batch_sampler_concat (loader_batch_size ld) order []) as Hc.
    cbn [app] in Hc. rewrite <- Hc in Hio. apply in_concat in Hio. destruct Hio as (batch & Hb & Hib).
    apply Exists_exists. exists batch. split; [exact Hb|].
    apply Exists_exists. exists i. split; [exact Hib|]. exists p, e. auto. }
  assert (Htenth : (DataLoader_len ld / 10)%nat <> 0%nat)
    by (pose proof (Nat.div_str_pos (DataLoader_len ld) 10); lia).
  destruct (batch_loop_unreadable ext ld Hshape _ Htenth Hgood Hex 1%nat 0
              {| params := theta; optim := Adam ext theta; output := [] |} s1)
    as (e & (p & Hin & He) & Eloop).
  exists p, e. split; [exact Hin|]. split; [exact He|].
  rewrite train_on_train_loader by (apply ten_batches_iff in Hten; lia).
  unfold epochs. cbn [seq epoch_loop].
  unfold bindM at 1. unfold bindM at 1. unfold run_epoch.
  fold ld. rewrite (bindM_Ok _ _ s _ s1 Eo).
  unfold bindM at 1. rewrite Eloop. reflexivity.
Qed.

Lemma unreadable_file_stops_training_witness :
  exists p e,
    In p (paths (train_data (repeat "face.jpg"%string 140))) /\
    train unreadable_world (repeat "face.jpg"%string 140) (fun _ => vec [])
      (fun _ => 0) = Raise e.
Proof.
  destruct (unreadable_file_stops_training unreadable_world
              (repeat "face.jpg"%string 140) (fun _ => vec []) (fun _ => 0))
    as (p & e & Hin & _ & Et).
  - intros img s. reflexivity.
  - intros n s. apply Permutation_refl.
  - vm_compute. lia.
  - rewrite train_data_paths. apply Exists_cons_hd. exists OSError. reflexivity.
  - exists p, e. split; [exact Hin | exact Et].
Defined.

(** ** Batches of another size than 64 x 64 *)

Lemma VAE_forward_from_encoder (theta : state_dict) (batch : nat) (x : tensor)
    (s : noise) (mu logvar : tensor) :
  Encoder.forward (VAE.encoder (VAE.init latent_size theta)) x = Ok (mu, logvar) ->
  Tensor.shape mu = [batch; latent_size] ->
  Tensor.shape logvar = [batch; latent_size] ->
  exists x_recon s',
    VAE.forward (VAE.init latent_size theta) x s = Ok ((x_recon, mu, logvar), s') /\
    Tensor.shape x_recon = [batch; 3; 64; 64]%nat /\
    Forall unit_interval (Tensor.data x_recon).
Proof.
  intros Ee Sm Sl.
  assert (Hs : Tensor.shape logvar = Tensor.shape mu) by congruence.
  pose proof (sample_eq mu logvar Hs s) as Ez.
  match type of Ez with _ = Ok (?t, ?r) => set (z := t) in Ez; set (s' := r) in Ez end.
  assert (Sz : Tensor.shape z = [batch; latent_size]) by exact Sm.
  destruct (decoder_forward_ok latent_size
              (fun k => theta ("decoder." ++ k)%string) batch z Sz)
    as (x_recon & Ed & Sr & _ & Ur).
  exists x_recon, s'. split; [|split; assumption].
  unfold VAE.forward.
  rewrite (bindM_Ok _ _ s (mu, logvar) s) by (unfold lift; rewrite Ee; reflexivity).
  cbv beta iota. rewrite (bindM_Ok _ _ s z s') by exact Ez.
  rewrite (bindM_Ok _ _ s' x_recon s')
    by (unfold lift; change (VAE.decoder (VAE.init latent_size theta))
          with (Decoder.init latent_size (fun k => theta ("decoder." ++ k)%string));
        rewrite Ed; reflexivity).
  reflexivity.
Qed.

(** X17. The reconstruction is always 64 x 64.  A batch of another size
    that the encoder takes, such as 70 x 70, goes through the whole forward
    pass, and the loss then raises a shape error, since the reconstruction
    has not the shape of the batch: only 64 x 64 batches can be trained
    on. *)
Theorem other_sizes_fail_at_the_loss (theta : state_dict) (batch h w : nat)
    (x : tensor) (s : noise) (beta : option R) :
  Tensor.shape x = [batch; 3; h; w]%nat ->
  (15 <= h)%nat -> (15 <= w)%nat ->
  (conv_side (conv_side (conv_side h)) *
   conv_side (conv_side (conv_side w)) = 49)%nat ->
  (h <> 64 \/ w <> 64)%nat ->
  exists x_recon mu logvar s',
    VAE.forward (VAE.init latent_size theta) x s = Ok ((x_recon, mu, logvar), s') /\
    Tensor.shape x_recon = [batch; 3; 64; 64]%nat /\
    vae_loss x_recon x mu logvar beta = Raise ShapeError.
Proof.
  intros Hx Hh Hw H49 Hne.
  destruct (proj1 (encoder_forward_cases latent_size
                     (fun k => theta ("encoder." ++ k)%string) batch 3 h w x Hx))
    as (mu & logvar & Ee & Sm & Sl); [repeat split; assumption|].
  destruct (VAE_forward_from_encoder theta batch x s mu logvar Ee Sm Sl)
    as (x_recon & s' & Ev & Sr & _).
  exists x_recon, mu, logvar, s'. split; [exact Ev|]. split; [exact Sr|].
  unfold vae_loss, binary_cross_entropy_sum.
  destruct (list_eq_dec Nat.eq_dec (Tensor.shape x) (Tensor.shape x_recon))
    as [E|_]; [|reflexivity].
  exfalso. rewrite Hx, Sr in E. injection E as E1 E2. lia.
Qed.

Lemma other_sizes_fail_at_the_loss_witness :
  exists x_recon mu logvar s',
    VAE.forward (VAE.init latent_size (fun _ => vec []))
      (Tensor.mk [2; 3; 70; 70]%nat []) (fun _ => 0)
      = Ok ((x_recon, mu, logvar), s') /\
    vae_loss x_recon (Tensor.mk [2; 3; 70; 70]%nat []) mu logvar None
      = Raise ShapeError.
Proof.
  destruct (other_sizes_fail_at_the_loss (fun _ => vec []) 2 70 70
              (Tensor.mk [2; 3; 70; 70]%nat []) (fun _ => 0) None eq_refl)
    as (x_recon & mu & logvar & s' & Ev & _ & El); try lia.
  - reflexivity.
  - exists x_recon, mu, logvar, s'. split; [exact Ev | exact El].
Defined.
